(** * fermi-fluids-intro: the tutorial script and the documented fluid solver

    A shallow embedding of [script.js] (the class [FermiFluidsVisualization]
    that draws the tutorial's curves on canvas elements, and the handlers
    of the page's events) and of the fluid solver that the repository
    documents.

    - [Number]: JavaScript numbers, as IEEE 754 binary64 values
      ([spec_float] with the binary64 operations of the Standard Library).
    - [Canvas]: the canvas elements of the document and the operations a
      2D drawing context receives.
    - [Script]: the methods of [FermiFluidsVisualization].
    - [Method]: the text of [fermiDirac], with the identifiers and the
      fields of [this] that a body names.
    - [Builtins], [Drawing], [Plots], [Events], [Range]: what ECMAScript
      fixes of [Math.exp]; how a context is used; the five plots together;
      the handlers of the sliders and of the sections' reveal animation;
      ranges of numbers.
    - [Solver]: the simulation driver of the documented solver.

    The properties follow the definitions, module by module. *)

From Stdlib Require Import ZArith QArith Bool Lia Lqa.
From Stdlib Require Import Floats.SpecFloat Floats.FloatOps.
From stdpp Require Import gmap strings list.

(* ================================================================== *)
(** * JavaScript numbers *)
(* ================================================================== *)

Module Number.

(** A JavaScript Number is a binary64 float; [S754_nan] is [NaN]. *)
Definition number : Type := spec_float.

Definition add : number -> number -> number := SFadd prec emax.
Definition sub : number -> number -> number := SFsub prec emax.
Definition mul : number -> number -> number := SFmul prec emax.
Definition div : number -> number -> number := SFdiv prec emax.
Definition neg : number -> number := SFopp.

(** [x === y], [x <= y], [x < y] and [x > y] on numbers: every comparison
    with [NaN] is false, and [+0 === -0]. *)
Definition strict_eq : number -> number -> bool := SFeqb.
Definition le : number -> number -> bool := SFleb.
Definition lt : number -> number -> bool := SFltb.
Definition gt (x y : number) : bool := SFltb y x.

(** An integer literal, and a decimal literal [z / 10^k] such as [1.2]
    ([dec 12 1]): the nearest binary64 value, which one correctly rounded
    division of two exactly represented integers yields. *)
Definition num (z : Z) : number := binary_normalize prec emax z 0 false.
Definition dec (z : Z) (k : nat) : number := div (num z) (num (10 ^ Z.of_nat k)).

Definition NaN : number := S754_nan.
Definition Infinity : number := S754_infinity false.

(** [Number.MAX_VALUE], the largest finite number. *)
Definition MAX_VALUE : number := S754_finite false 9007199254740991 971.

Definition is_nan (x : number) : bool :=
  match x with S754_nan => true | _ => false end.

(** Neither [NaN] nor an infinity. *)
Definition is_finite (x : number) : bool :=
  match x with S754_zero _ | S754_finite _ _ _ => true | _ => false end.

(** A finite positive number with a full mantissa and an exponent of at
    least -52, or plus infinity: the values from 1 up to [Infinity]. *)
Definition at_least_one (z : number) : Prop :=
  z = S754_infinity false
  \/ exists (m : positive) (e : Z),
       z = S754_finite false m e
       /\ (2 ^ 52 <= Zpos m < 2 ^ 53)%Z /\ (-52 <= e <= 971)%Z.

(** [Math.PI], the binary64 value nearest to pi. *)
Definition Math_PI : number := S754_finite false 7074237752028440 (-51).

(** The built-in functions whose results ECMAScript leaves to the
    implementation ("implementation-approximated"), and number formatting. *)
Class Runtime : Type := {
  Math_exp : number -> number;
  Math_cos : number -> number;
  Math_sin : number -> number;
  toFixed : number -> nat -> string
}.

(** What the properties below need of [Math.exp]: on an argument that is
    not [NaN] its result is a number that is not negative. *)
Definition exp_nonneg (rt : Runtime) : Prop :=
  forall x, is_nan x = false -> le (num 0) (Math_exp x) = true.

(** ECMAScript fixes [Math.exp(NaN)] to [NaN]. *)
Definition exp_nan (rt : Runtime) : Prop := Math_exp NaN = NaN.

(** A runtime that meets both, used to instantiate the properties: it
    follows ECMAScript at [NaN], the zeros and the infinities, and is a
    step function elsewhere. *)
Definition coarse_exp (x : number) : number :=
  match x with
  | S754_nan => NaN
  | S754_zero _ => num 1
  | S754_infinity false => Infinity
  | S754_infinity true => num 0
  | S754_finite false _ _ => num 3
  | S754_finite true _ _ => dec 3 1
  end.

Definition coarse_runtime : Runtime := {|
  Math_exp := coarse_exp;
  Math_cos := fun _ => num 1;
  Math_sin := fun _ => num 0;
  toFixed := fun _ _ => EmptyString
|}.

End Number.

Declare Scope js_scope.
Delimit Scope js_scope with js.
Infix "+" := Number.add : js_scope.
Infix "-" := Number.sub : js_scope.
Infix "*" := Number.mul : js_scope.
Infix "/" := Number.div : js_scope.
Infix "===" := Number.strict_eq (at level 70, no associativity) : js_scope.
Infix "<=" := Number.le : js_scope.
Infix "<" := Number.lt : js_scope.
Infix ">" := Number.gt : js_scope.

(* ================================================================== *)
(** * The document and its canvas elements *)
(* ================================================================== *)

Module Canvas.
Import Number.

(** What a [CanvasRenderingContext2D] receives: an assignment to one of its
    properties or a call of one of its methods, as [script.js] uses them. *)
Inductive ctx_op : Type :=
| set_strokeStyle (s : string)
| set_fillStyle (s : string)
| set_lineWidth (w : number)
| set_font (s : string)
| set_textAlign (s : string)
| setLineDash (segments : list number)
| clearRect (x y w h : number)
| beginPath
| moveTo (x y : number)
| lineTo (x y : number)
| arc (x y radius startAngle endAngle : number)
| stroke
| fill
| fillText (text : string) (x y : number)
| save
| restore
| translate (x y : number)
| rotate (angle : number).

(** A canvas element: its size and the operations its 2D context has
    received so far, oldest first. *)
Record canvas : Type := {
  width : number;
  height : number;
  received : list ctx_op
}.

(** An element of the page is a canvas or an element of another kind (a
    slider, a section, ...), which has no [getContext] method. *)
Inductive element : Type :=
| HTMLCanvasElement (c : canvas)
| HTMLOtherElement.

(** The document, as [document.getElementById] sees it. *)
Abbreviation document := (gmap string element).

Definition getElementById (id : string) (doc : document) : option element :=
  doc !! id.

(** How a call ends: it returns a value and leaves a document, or it throws
    (here only the [TypeError] of calling a method that does not exist). *)
Inductive completion (A : Type) : Type :=
| Return (a : A) (doc : document)
| Throw_TypeError.
Arguments Return {A} a doc.
Arguments Throw_TypeError {A}.

Definition js (A : Type) : Type := document -> completion A.

(** Sequencing: a throw ends the whole computation. *)
#[global] Instance js_ret : MRet js := fun A a doc => Return a doc.

#[global] Instance js_bind : MBind js := fun A B k m doc =>
  match m doc with
  | Return a doc' => k a doc'
  | Throw_TypeError => Throw_TypeError
  end.

(** The context [ctx] of the canvas with id [id] receives [ops]. *)
Definition draw (id : string) (ops : list ctx_op) : js unit :=
  fun doc =>
    match doc !! id with
    | Some (HTMLCanvasElement c) =>
        Return tt (<[id := HTMLCanvasElement
                         {| width := width c; height := height c;
                            received := received c ++ ops |}]> doc)
    | _ => Throw_TypeError
    end.

(** A path through [points]: [moveTo] the first, [lineTo] each of the
    others (the body of the plotting loops: [if (i === 0) moveTo else
    lineTo]). *)
Definition polyline (points : list (number * number)) : list ctx_op :=
  imap (fun i '(x, y) => if Nat.eqb i 0 then moveTo x y else lineTo x y) points.

End Canvas.


(* ================================================================== *)
(** * script.js: the class FermiFluidsVisualization *)
(* ================================================================== *)

Module Script.
Import Number Canvas.
Local Open Scope js_scope.

(** The fields that [initializeConstants] gives an object of the class. *)
Record FermiFluidsVisualization : Type := {
  kF : number;
  EF : number;
  temperature : number;
  interactionStrength : number
}.

Definition initializeConstants : FermiFluidsVisualization := {|
  kF := num 1;
  EF := num 1;
  temperature := num 0;
  interactionStrength := num 0
|}.

(** The handlers that [setupEventListeners] installs on the two sliders:
    each stores [parseFloat(e.target.value)], here [value]. *)
Definition on_temperature_input (value : number) (this : FermiFluidsVisualization)
  : FermiFluidsVisualization :=
  {| kF := kF this; EF := EF this; temperature := value;
     interactionStrength := interactionStrength this |}.

Definition on_interaction_input (value : number) (this : FermiFluidsVisualization)
  : FermiFluidsVisualization :=
  {| kF := kF this; EF := EF this; temperature := temperature this;
     interactionStrength := value |}.

(** The object literal [{ top, right, bottom, left }] of the plots. *)
Record Margin : Type := {
  margin_top : number;
  margin_right : number;
  margin_bottom : number;
  margin_left : number
}.

(** The loop variable [i] as a number. *)
Definition idx (i : nat) : number := num (Z.of_nat i).

(** [for (let i = 0; i <= steps; i++)]: the values of [i]. *)
Definition upto (steps : nat) : list nat := seq 0 (S steps).

(** ** getCanvasContext

    [document.getElementById(id)]; [null] when there is no such element;
    otherwise [canvas.getContext('2d')], which an element that is not a
    canvas does not have, the size set to 500 x 400, and [{ canvas, ctx }]:
    here the id, through which the context is reached, and the canvas. *)
Definition getCanvasContext (id : string) : js (option (string * canvas)) :=
  fun doc =>
    match getElementById id doc with
    | None => Return None doc
    | Some HTMLOtherElement => Throw_TypeError
    | Some (HTMLCanvasElement c) =>
        let c' := {| width := num 500; height := num 400; received := received c |} in
        Return (Some (id, c')) (<[id := HTMLCanvasElement c']> doc)
    end.

Section Methods.
Context {rt : Runtime}.

(** ** fermiDirac *)
Definition fermiDirac (energy mu temperature : number) : number :=
  if temperature === num 0 then
    (if energy <= mu then num 1 else num 0)
  else
    num 1 / (Math_exp ((energy - mu) / temperature) + num 1).

(** ** drawAxes: what it draws, and [{ plotWidth, plotHeight }] *)
Definition drawAxes_xtick (height : number) (margin : Margin) (xMax plotWidth : number)
    (i : nat) : list ctx_op :=
  let x := margin_left margin + (idx i / num 5) * plotWidth in
  [ beginPath;
    moveTo x (height - margin_bottom margin);
    lineTo x (height - margin_bottom margin + num 5);
    stroke ]
  ++ (if (0 <? i)%nat && (i <? 5)%nat then
        [ beginPath; moveTo x (margin_top margin);
          lineTo x (height - margin_bottom margin); stroke ]
      else [])
  ++ [ set_fillStyle "#666"; set_font "12px Arial"; set_textAlign "center";
       fillText (toFixed (idx i / num 5 * xMax) 1) x
                (height - margin_bottom margin + num 20) ].

Definition drawAxes_ytick (width height : number) (margin : Margin)
    (yMax plotHeight : number) (i : nat) : list ctx_op :=
  let y := height - margin_bottom margin - (idx i / num 5) * plotHeight in
  [ beginPath;
    moveTo (margin_left margin - num 5) y;
    lineTo (margin_left margin) y;
    stroke ]
  ++ (if (0 <? i)%nat && (i <? 5)%nat then
        [ beginPath; moveTo (margin_left margin) y;
          lineTo (width - margin_right margin) y; stroke ]
      else [])
  ++ [ set_fillStyle "#666"; set_font "12px Arial"; set_textAlign "right";
       fillText (toFixed (idx i / num 5 * yMax) 1)
                (margin_left margin - num 10) (y + num 4) ].

Definition drawAxes (width height : number) (margin : Margin)
    (xLabel yLabel : string) (xMax yMax : number)
  : list ctx_op * (number * number) :=
  let plotWidth := width - margin_left margin - margin_right margin in
  let plotHeight := height - margin_top margin - margin_bottom margin in
  ( [ set_strokeStyle "#333"; set_lineWidth (num 2);
      beginPath;
      moveTo (margin_left margin) (height - margin_bottom margin);
      lineTo (width - margin_right margin) (height - margin_bottom margin);
      stroke;
      beginPath;
      moveTo (margin_left margin) (margin_top margin);
      lineTo (margin_left margin) (height - margin_bottom margin);
      stroke;
      set_fillStyle "#333"; set_font "14px Arial"; set_textAlign "center";
      fillText xLabel (width / num 2) (height - num 10);
      save;
      translate (num 15) (height / num 2);
      rotate (neg Math_PI / num 2);
      fillText yLabel (num 0) (num 0);
      restore;
      set_strokeStyle "#ddd"; set_lineWidth (num 1) ]
    ++ flat_map (drawAxes_xtick height margin xMax plotWidth) (upto 5)
    ++ flat_map (drawAxes_ytick width height margin yMax plotHeight) (upto 5),
    (plotWidth, plotHeight) ).

(** The margin every plot uses. *)
Definition plot_margin : Margin := {|
  margin_top := num 20; margin_right := num 20;
  margin_bottom := num 60; margin_left := num 60
|}.

(** A dashed vertical line at [x], from the top margin to the x-axis. *)
Definition dashed_vertical (x height : number) (margin : Margin) : list ctx_op :=
  [ set_strokeStyle "#e74c3c"; set_lineWidth (num 2);
    setLineDash [num 5; num 5];
    beginPath; moveTo x (margin_top margin);
    lineTo x (height - margin_bottom margin); stroke;
    setLineDash [] ].

(** ** createIntroVisualization *)

(** One turn of the plotting loop: [k], the occupation [n], and the point. *)
Definition intro_steps : nat := 200.

Definition intro_k (i : nat) : number := (idx i / idx intro_steps) * num 2.

Definition intro_n (i : nat) : number :=
  if intro_k i <= num 1 then num 1 else num 0.

Definition intro_point (height : number) (margin : Margin)
    (plotWidth plotHeight : number) (i : nat) : number * number :=
  let k := intro_k i in
  let n := intro_n i in
  ( margin_left margin + (k / num 2) * plotWidth,
    height - margin_bottom margin - n * plotHeight ).

Definition createIntroVisualization_ops (canvas : canvas) : list ctx_op :=
  let width := width canvas in
  let height := height canvas in
  let margin := plot_margin in
  let '(axes, (plotWidth, plotHeight)) :=
    drawAxes width height margin "k/kF" "n(k)" (num 2) (num 1) in
  let kFx := margin_left margin + (num 1 / num 2) * plotWidth in
  [ clearRect (num 0) (num 0) width height ]
  ++ axes
  ++ [ set_strokeStyle "#3498db"; set_lineWidth (num 3); beginPath ]
  ++ polyline (map (intro_point height margin plotWidth plotHeight) (upto intro_steps))
  ++ [ stroke ]
  ++ dashed_vertical kFx height margin
  ++ [ set_fillStyle "#3498db"; set_font "16px Arial"; set_textAlign "center";
       fillText "Filled states"
         (margin_left margin + plotWidth * dec 25 2) (height / num 2);
       set_fillStyle "#e74c3c";
       fillText "Empty states"
         (margin_left margin + plotWidth * dec 75 2) (height / num 2);
       set_fillStyle "#e74c3c"; set_font "14px Arial";
       fillText "Fermi surface" (kFx + num 20) (margin_top margin + num 30) ].

Definition createIntroVisualization (this : FermiFluidsVisualization) : js unit :=
  result ← getCanvasContext "intro-viz";
  match result with
  | None => mret tt
  | Some (id, canvas) => draw id (createIntroVisualization_ops canvas)
  end.

(** ** updateFermiSphereViz *)

Definition sphere_steps : nat := 300.

Definition sphere_E (i : nat) : number := (idx i / idx sphere_steps) * num 3.

Definition sphere_f (this : FermiFluidsVisualization) (i : nat) : number :=
  fermiDirac (sphere_E i) (num 1) (temperature this).

Definition sphere_point (this : FermiFluidsVisualization) (height : number)
    (margin : Margin) (plotWidth plotHeight : number) (i : nat) : number * number :=
  let E := sphere_E i in
  let f := sphere_f this i in
  ( margin_left margin + (E / num 3) * plotWidth,
    height - margin_bottom margin - (f / dec 12 1) * plotHeight ).

Definition updateFermiSphereViz_ops (this : FermiFluidsVisualization)
    (canvas : canvas) : list ctx_op :=
  let width := width canvas in
  let height := height canvas in
  let margin := plot_margin in
  let '(axes, (plotWidth, plotHeight)) :=
    drawAxes width height margin "Energy (E/EF)" "f(E)" (num 3) (dec 12 1) in
  let EFx := margin_left margin + (num 1 / num 3) * plotWidth in
  [ clearRect (num 0) (num 0) width height ]
  ++ axes
  ++ [ set_strokeStyle "#3498db"; set_lineWidth (num 3); beginPath ]
  ++ polyline (map (sphere_point this height margin plotWidth plotHeight)
                   (upto sphere_steps))
  ++ [ stroke ]
  ++ dashed_vertical EFx height margin
  ++ [ set_fillStyle "#e74c3c"; set_font "14px Arial"; set_textAlign "left";
       fillText "EF" (EFx + num 5) (margin_top margin + num 20) ]
  ++ (if temperature this > num 0 then
        [ set_fillStyle "#3498db"; set_font "14px Arial"; set_textAlign "center";
          fillText ("kBT/EF = " +:+ toFixed (temperature this) 2)
            (margin_left margin + plotWidth * dec 7 1) (margin_top margin + num 40) ]
      else []).

Definition updateFermiSphereViz (this : FermiFluidsVisualization) : js unit :=
  result ← getCanvasContext "fermi-sphere-viz";
  match result with
  | None => mret tt
  | Some (id, canvas) => draw id (updateFermiSphereViz_ops this canvas)
  end.

Definition createFermiSphereVisualization (this : FermiFluidsVisualization) : js unit :=
  updateFermiSphereViz this.

(** ** updateQuasiparticleViz *)

Definition quasi_steps : nat := 100.
Definition kMin : number := dec 5 1.
Definition kMax : number := dec 15 1.
Definition EMin : number := dec 5 1.
Definition EMax : number := dec 15 1.

Definition quasi_k (i : nat) : number :=
  kMin + (idx i / idx quasi_steps) * (kMax - kMin).

Definition effectiveMass (this : FermiFluidsVisualization) : number :=
  num 1 + interactionStrength this / num 3.

(** The two dispersion relations: free particles and quasiparticles. *)
Definition free_E (i : nat) : number := quasi_k i * quasi_k i.

Definition quasi_E (this : FermiFluidsVisualization) (i : nat) : number :=
  num 1 + (quasi_k i - num 1) / effectiveMass this.

(** The pixel of a point [(k, E)] of the plot. *)
Definition quasi_pixel (height : number) (margin : Margin)
    (plotWidth plotHeight : number) (k E : number) : number * number :=
  ( margin_left margin + ((k - kMin) / (kMax - kMin)) * plotWidth,
    height - margin_bottom margin - ((E - EMin) / (EMax - EMin)) * plotHeight ).

Definition updateQuasiparticleViz_ops (this : FermiFluidsVisualization)
    (canvas : canvas) : list ctx_op :=
  let width := width canvas in
  let height := height canvas in
  let margin := plot_margin in
  let plotWidth := width - margin_left margin - margin_right margin in
  let plotHeight := height - margin_top margin - margin_bottom margin in
  let kFx := margin_left margin + ((num 1 - kMin) / (kMax - kMin)) * plotWidth in
  let EFy :=
    height - margin_bottom margin - ((num 1 - EMin) / (EMax - EMin)) * plotHeight in
  [ clearRect (num 0) (num 0) width height;
    set_strokeStyle "#333"; set_lineWidth (num 2);
    beginPath;
    moveTo (margin_left margin) (height - margin_bottom margin);
    lineTo (width - margin_right margin) (height - margin_bottom margin);
    stroke;
    beginPath;
    moveTo (margin_left margin) (margin_top margin);
    lineTo (margin_left margin) (height - margin_bottom margin);
    stroke;
    set_strokeStyle "#95a5a6"; set_lineWidth (num 2);
    setLineDash [num 5; num 5];
    beginPath ]
  ++ polyline (map (fun i => quasi_pixel height margin plotWidth plotHeight
                                (quasi_k i) (free_E i)) (upto quasi_steps))
  ++ [ stroke; setLineDash [];
       set_strokeStyle "#27ae60"; set_lineWidth (num 3); beginPath ]
  ++ polyline (map (fun i => quasi_pixel height margin plotWidth plotHeight
                                (quasi_k i) (quasi_E this i)) (upto quasi_steps))
  ++ [ stroke;
       set_strokeStyle "#e74c3c"; set_lineWidth (num 2);
       beginPath; moveTo kFx (margin_top margin);
       lineTo kFx (height - margin_bottom margin); stroke;
       beginPath; moveTo (margin_left margin) EFy;
       lineTo (width - margin_right margin) EFy; stroke;
       set_fillStyle "#95a5a6"; set_font "14px Arial"; set_textAlign "left";
       fillText "Free particles"
         (margin_left margin + plotWidth * dec 6 1) (margin_top margin + num 30);
       set_fillStyle "#27ae60";
       fillText "Quasiparticles"
         (margin_left margin + plotWidth * dec 6 1) (margin_top margin + num 50);
       set_fillStyle "#e74c3c"; set_textAlign "center";
       fillText "(kF, EF)" (kFx + num 20) (EFy - num 10);
       set_fillStyle "#2c3e50"; set_textAlign "left";
       fillText ("m*/m = " +:+ toFixed (effectiveMass this) 2)
         (margin_left margin + num 20) (height - margin_bottom margin - num 20);
       set_fillStyle "#333"; set_font "14px Arial"; set_textAlign "center";
       fillText "k/kF" (width / num 2) (height - num 10);
       save;
       translate (num 15) (height / num 2);
       rotate (neg Math_PI / num 2);
       fillText "E/EF" (num 0) (num 0);
       restore ].

Definition updateQuasiparticleViz (this : FermiFluidsVisualization) : js unit :=
  result ← getCanvasContext "quasiparticle-viz";
  match result with
  | None => mret tt
  | Some (id, canvas) => draw id (updateQuasiparticleViz_ops this canvas)
  end.

Definition createQuasiparticleVisualization (this : FermiFluidsVisualization)
  : js unit :=
  updateQuasiparticleViz this.

(** ** createInteractionVisualization *)

(** One arrow of the loop over [angle]. *)
Definition interaction_arrow (centerX centerY radius angle : number) : list ctx_op :=
  let x1 := centerX + radius * Math_cos angle in
  let y1 := centerY + radius * Math_sin angle in
  let x2 := centerX + (radius + num 30) * Math_cos angle in
  let y2 := centerY + (radius + num 30) * Math_sin angle in
  let headLength := num 8 in
  let headAngle := Math_PI / num 6 in
  [ set_strokeStyle "#8e44ad"; set_lineWidth (num 2);
    beginPath; moveTo x1 y1; lineTo x2 y2; stroke;
    beginPath;
    moveTo x2 y2;
    lineTo (x2 - headLength * Math_cos (angle - headAngle))
           (y2 - headLength * Math_sin (angle - headAngle));
    moveTo x2 y2;
    lineTo (x2 - headLength * Math_cos (angle + headAngle))
           (y2 - headLength * Math_sin (angle + headAngle));
    stroke ].

(** [for (let angle = 0; angle < 2 * Math.PI; angle += angleStep)], by
    recursion on a bound for the number of turns. *)
Fixpoint interaction_arrows (fuel : nat) (centerX centerY radius angleStep angle : number)
  : list ctx_op :=
  match fuel with
  | O => []
  | S fuel' =>
      if angle < num 2 * Math_PI then
        interaction_arrow centerX centerY radius angle
        ++ interaction_arrows fuel' centerX centerY radius angleStep (angle + angleStep)
      else []
  end.

(** A bound that the loop does not reach: it ends after 16 turns (see
    [interaction_draws_sixteen_arrows]). *)
Definition interaction_fuel : nat := 32.

Definition createInteractionVisualization_ops (canvas : canvas) : list ctx_op :=
  let width := width canvas in
  let height := height canvas in
  let centerX := width / num 2 in
  let centerY := height / num 2 in
  let radius := num 120 in
  let angleStep := Math_PI / num 8 in
  [ clearRect (num 0) (num 0) width height;
    set_strokeStyle "#3498db"; set_fillStyle "rgba(52, 152, 219, 0.2)";
    set_lineWidth (num 3);
    beginPath;
    arc centerX centerY radius (num 0) (num 2 * Math_PI);
    fill;
    stroke ]
  ++ interaction_arrows interaction_fuel centerX centerY radius angleStep (num 0)
  ++ [ set_fillStyle "#2c3e50"; set_font "18px Arial"; set_textAlign "center";
       fillText "Fermi Surface with Interactions" centerX (num 40);
       set_fillStyle "#8e44ad"; set_font "14px Arial";
       fillText "Quasiparticle interactions" centerX (height - num 20) ].

Definition createInteractionVisualization (this : FermiFluidsVisualization)
  : js unit :=
  result ← getCanvasContext "interaction-viz";
  match result with
  | None => mret tt
  | Some (id, canvas) => draw id (createInteractionVisualization_ops canvas)
  end.

(** ** createTransportVisualization *)

Definition transport_steps : nat := 100.

Definition transport_T (i : nat) : number := (idx i / idx transport_steps) * num 1.

Definition transport_rho (i : nat) : number :=
  dec 1 1 + transport_T i * transport_T i.

Definition transport_cv (i : nat) : number := transport_T i.

Definition transport_point (height : number) (margin : Margin)
    (plotWidth plotHeight : number) (T value : number) : number * number :=
  ( margin_left margin + T * plotWidth,
    height - margin_bottom margin - value * plotHeight ).

Definition createTransportVisualization_ops (canvas : canvas) : list ctx_op :=
  let width := width canvas in
  let height := height canvas in
  let margin := plot_margin in
  let '(axes, (plotWidth, plotHeight)) :=
    drawAxes width height margin "Temperature (T/TF)" "Normalized Value"
             (num 1) (num 1) in
  [ clearRect (num 0) (num 0) width height ]
  ++ axes
  ++ [ set_strokeStyle "#e74c3c"; set_lineWidth (num 3); beginPath ]
  ++ polyline (map (fun i => transport_point height margin plotWidth plotHeight
                                (transport_T i) (transport_rho i))
                   (upto transport_steps))
  ++ [ stroke;
       set_strokeStyle "#27ae60"; set_lineWidth (num 3); beginPath ]
  ++ polyline (map (fun i => transport_point height margin plotWidth plotHeight
                                (transport_T i) (transport_cv i))
                   (upto transport_steps))
  ++ [ stroke;
       set_fillStyle "#e74c3c"; set_font "16px Arial"; set_textAlign "left";
       fillText "ρ ∝ T²"
         (margin_left margin + plotWidth * dec 6 1) (margin_top margin + num 40);
       set_fillStyle "#27ae60";
       fillText "CV ∝ T"
         (margin_left margin + plotWidth * dec 6 1) (margin_top margin + num 60) ].

Definition createTransportVisualization (this : FermiFluidsVisualization) : js unit :=
  result ← getCanvasContext "transport-viz";
  match result with
  | None => mret tt
  | Some (id, canvas) => draw id (createTransportVisualization_ops canvas)
  end.

(** ** createVisualizationsSafely: the callback that the timer runs *)
Definition createVisualizations (this : FermiFluidsVisualization) : js unit :=
  _ ← createIntroVisualization this;
  _ ← createFermiSphereVisualization this;
  _ ← createQuasiparticleVisualization this;
  _ ← createInteractionVisualization this;
  createTransportVisualization this.

End Methods.

(** The ids of the canvases that the five plots look up. *)
Definition canvas_ids : list string :=
  [ "intro-viz"; "fermi-sphere-viz"; "quasiparticle-viz";
    "interaction-viz"; "transport-viz" ].

(** ** Sample inputs *)

Definition blank_canvas : canvas :=
  {| width := num 300; height := num 150; received := [] |}.

(** A page with the five canvases. *)
Definition tutorial_page : document :=
  list_to_map (map (fun id => (id, HTMLCanvasElement blank_canvas)) canvas_ids).

(** A page on which the id of the first plot names an element that is not a
    canvas. *)
Definition page_with_div : document :=
  <["intro-viz" := HTMLOtherElement]> tutorial_page.

(** An object whose interaction slider stands at -3. *)
Definition at_minus_three : FermiFluidsVisualization :=
  on_interaction_input (num (-3)) initializeConstants.

End Script.


(* ================================================================== *)
(** * The text of fermiDirac *)
(* ================================================================== *)

Module Method.
Import Number Canvas Script.

(** The expressions that the methods of the class compute numbers with: a
    numeric literal, an identifier, a field of [this], a call of
    [Math.exp], arithmetic, the comparisons [===] and [<=], and [c ? a : b].
    [Math.exp] is the built-in of the runtime; the script assigns nothing
    to [Math]. *)
Inductive expr : Type :=
| Literal (z : Z)
| Identifier (x : string)
| This (field : string)
| MathExp (e : expr)
| Plus (a b : expr)
| Minus (a b : expr)
| Over (a b : expr)
| StrictEquals (a b : expr)
| AtMost (a b : expr)
| Conditional (c a b : expr).

(** [return e;] and [if (c) { consequent } rest], where the consequent
    returns. *)
Inductive statement : Type :=
| ReturnStatement (e : expr)
| IfStatement (c : expr) (consequent rest : statement).

(** A method: the names of its parameters and its body. *)
Record method : Type := {
  formals : list string;
  body : statement
}.


(** The initializer of [effectiveMass] in [updateQuasiparticleViz],
    [1 + this.interactionStrength / 3], which does read the object. *)
Definition effectiveMass_initializer : expr :=
  Plus (Literal 1) (Over (This "interactionStrength") (Literal 3)).

(** The values of the fragment: numbers, booleans, and the page, which is
    the value of the global [document]. *)
Inductive value : Type :=
| NumberValue (x : number)
| BooleanValue (b : bool)
| PageValue (doc : document).

(** What a running method can reach: the object it was called on, the
    global scope and its arguments. *)
Record scope : Type := {
  this_object : FermiFluidsVisualization;
  global_scope : gmap string value;
  arguments : gmap string value
}.

(** [this.field] for the four fields that [initializeConstants] creates. *)
Definition get_field (this : FermiFluidsVisualization) (field : string)
  : option value :=
  if String.eqb field "kF" then Some (NumberValue (kF this))
  else if String.eqb field "EF" then Some (NumberValue (EF this))
  else if String.eqb field "temperature" then Some (NumberValue (temperature this))
  else if String.eqb field "interactionStrength"
       then Some (NumberValue (interactionStrength this))
  else None.

(** An identifier is resolved in the scope of the call first and in the
    global scope next. *)
Definition resolve (sc : scope) (x : string) : option value :=
  match arguments sc !! x with
  | Some v => Some v
  | None => global_scope sc !! x
  end.

Definition on_numbers (f : number -> number -> value) (a b : option value)
  : option value :=
  match a, b with
  | Some (NumberValue x), Some (NumberValue y) => Some (f x y)
  | _, _ => None
  end.

Section Evaluation.
Context {rt : Runtime}.

(** The value of an expression; [None] where the fragment ends (an
    identifier that nothing binds, a field that the object lacks, an
    operand that would be converted to a number first). *)
Fixpoint eval (sc : scope) (e : expr) : option value :=
  match e with
  | Literal z => Some (NumberValue (num z))
  | Identifier x => resolve sc x
  | This field => get_field (this_object sc) field
  | MathExp a =>
      match eval sc a with
      | Some (NumberValue x) => Some (NumberValue (Math_exp x))
      | _ => None
      end
  | Plus a b => on_numbers (fun x y => NumberValue (add x y)) (eval sc a) (eval sc b)
  | Minus a b => on_numbers (fun x y => NumberValue (sub x y)) (eval sc a) (eval sc b)
  | Over a b => on_numbers (fun x y => NumberValue (div x y)) (eval sc a) (eval sc b)
  | StrictEquals a b =>
      on_numbers (fun x y => BooleanValue (strict_eq x y)) (eval sc a) (eval sc b)
  | AtMost a b => on_numbers (fun x y => BooleanValue (le x y)) (eval sc a) (eval sc b)
  | Conditional c a b =>
      match eval sc c with
      | Some (BooleanValue true) => eval sc a
      | Some (BooleanValue false) => eval sc b
      | _ => None
      end
  end.

(** What a body returns. *)
Fixpoint run (sc : scope) (s : statement) : option value :=
  match s with
  | ReturnStatement e => eval sc e
  | IfStatement c consequent rest =>
      match eval sc c with
      | Some (BooleanValue true) => run sc consequent
      | Some (BooleanValue false) => run sc rest
      | _ => None
      end
  end.

(** The call [this.m(args)] with as many arguments as [m] has parameters,
    in a given global scope. *)
Definition call (m : method) (this : FermiFluidsVisualization)
    (globals : gmap string value) (args : list value) : option value :=
  if (length args =? length (formals m))%nat then
    run {| this_object := this; global_scope := globals;
           arguments := list_to_map (zip (formals m) args) |}
        (body m)
  else None.

End Evaluation.

(** ** What a body reads *)

(** The fields of [this] that an expression names. *)
Fixpoint fields_read (e : expr) : list string :=
  match e with
  | Literal _ | Identifier _ => []
  | This field => [ field ]
  | MathExp a => fields_read a
  | Plus a b | Minus a b | Over a b | StrictEquals a b | AtMost a b =>
      fields_read a ++ fields_read b
  | Conditional c a b => fields_read c ++ fields_read a ++ fields_read b
  end.

(** The identifiers that an expression names. *)
Fixpoint identifiers (e : expr) : list string :=
  match e with
  | Literal _ | This _ => []
  | Identifier x => [ x ]
  | MathExp a => identifiers a
  | Plus a b | Minus a b | Over a b | StrictEquals a b | AtMost a b =>
      identifiers a ++ identifiers b
  | Conditional c a b => identifiers c ++ identifiers a ++ identifiers b
  end.

Fixpoint expressions (s : statement) : list expr :=
  match s with
  | ReturnStatement e => [ e ]
  | IfStatement c consequent rest =>
      c :: expressions consequent ++ expressions rest
  end.

(** The state of the instance that a method reads: the fields of [this]
    that its body names. *)
Definition instance_state_read (m : method) : list string :=
  flat_map fields_read (expressions (body m)).

(** The global state that a method reads: the identifiers of its body that
    are not among its parameters. *)
Definition global_state_read (m : method) : list string :=
  filter (fun x => x ∉ formals m) (flat_map identifiers (expressions (body m))).

End Method.


(* ================================================================== *)
(** * What ECMAScript fixes of Math.exp *)
(* ================================================================== *)

Module Builtins.
Import Number.

(** [Math.exp(+0)] and [Math.exp(-0)] are 1. *)
Definition exp_zero (rt : Runtime) : Prop :=
  forall s : bool, Math_exp (S754_zero s) = num 1.

(** [Math.exp(Infinity)] is [Infinity], and [Math.exp(-Infinity)] is [+0]. *)
Definition exp_infinity (rt : Runtime) : Prop :=
  Math_exp Infinity = Infinity /\ Math_exp (neg Infinity) = num 0.

End Builtins.


(* ================================================================== *)
(** * How a context is used *)
(* ================================================================== *)

Module Drawing.
Import Number Canvas.

(** A check of the operations a context receives, one after the other:
    [step] gives what the context becomes by an operation, or refuses it. *)
Fixpoint accepts {S : Type} (step : S -> ctx_op -> option S) (s : S)
    (ops : list ctx_op) : option S :=
  match ops with
  | [] => Some s
  | op :: ops' =>
      match step s op with
      | Some s' => accepts step s' ops'
      | None => None
      end
  end.

(** ** The current path

    The current path of a context outlives [stroke] and [fill], and
    [lineTo] on a path without a point draws nothing. [Old] is a path that
    earlier drawing has left, [Begun] one after [beginPath], [Built] one
    with a current point, [Painted] one that was stroked or filled. *)
Inductive path : Type :=
| Old
| Begun
| Built
| Painted.

(** Refused: a point added to a path that was not begun, or that was
    painted already; a line from no point; painting a path with no point. *)
Definition path_step (p : path) (op : ctx_op) : option path :=
  match op with
  | beginPath => Some Begun
  | moveTo _ _ | arc _ _ _ _ _ =>
      match p with Begun | Built => Some Built | _ => None end
  | lineTo _ _ =>
      match p with Built => Some Built | _ => None end
  | stroke | fill =>
      match p with Built | Painted => Some Painted | _ => None end
  | _ => Some p
  end.

(** ** The coordinate frame and the dash pattern

    Whether the transformation of the context differs from the one at the
    start ([turned]), whether lines are dashed, and the states that [save]
    has stacked. *)
Record frame : Type := {
  turned : bool;
  dashed : bool;
  saved : list (bool * bool)
}.

Definition plain : frame := {| turned := false; dashed := false; saved := [] |}.

(** Refused: [restore] with nothing saved, and every operation that takes
    pixel coordinates of the plot while the frame is turned ([fillText] is
    the one that the plots turn the frame for). *)
Definition frame_step (f : frame) (op : ctx_op) : option frame :=
  match op with
  | save =>
      Some {| turned := turned f; dashed := dashed f;
              saved := (turned f, dashed f) :: saved f |}
  | restore =>
      match saved f with
      | [] => None
      | (t, d) :: st => Some {| turned := t; dashed := d; saved := st |}
      end
  | translate _ _ | rotate _ =>
      Some {| turned := true; dashed := dashed f; saved := saved f |}
  | setLineDash segments =>
      Some {| turned := turned f;
              dashed := match segments with [] => false | _ => true end;
              saved := saved f |}
  | clearRect _ _ _ _ | moveTo _ _ | lineTo _ _ | arc _ _ _ _ _ =>
      if turned f then None else Some f
  | _ => Some f
  end.

(** ** The styles

    Which of the style properties have been assigned, and the states that
    [save] has stacked. *)
Record styles : Type := {
  has_strokeStyle : bool;
  has_lineWidth : bool;
  has_fillStyle : bool;
  has_font : bool;
  has_textAlign : bool;
  stacked : list (bool * bool * bool * bool * bool)
}.

Definition unset : styles := {|
  has_strokeStyle := false; has_lineWidth := false; has_fillStyle := false;
  has_font := false; has_textAlign := false; stacked := []
|}.

Definition assigned : styles := {|
  has_strokeStyle := true; has_lineWidth := true; has_fillStyle := true;
  has_font := true; has_textAlign := true; stacked := []
|}.

(** Refused: [stroke] before [strokeStyle] and [lineWidth] were assigned,
    [fill] before [fillStyle] was, [fillText] before [fillStyle], [font]
    and [textAlign] were, and [restore] with nothing saved. *)
Definition styles_step (s : styles) (op : ctx_op) : option styles :=
  match op with
  | set_strokeStyle _ =>
      Some {| has_strokeStyle := true; has_lineWidth := has_lineWidth s;
              has_fillStyle := has_fillStyle s; has_font := has_font s;
              has_textAlign := has_textAlign s; stacked := stacked s |}
  | set_lineWidth _ =>
      Some {| has_strokeStyle := has_strokeStyle s; has_lineWidth := true;
              has_fillStyle := has_fillStyle s; has_font := has_font s;
              has_textAlign := has_textAlign s; stacked := stacked s |}
  | set_fillStyle _ =>
      Some {| has_strokeStyle := has_strokeStyle s; has_lineWidth := has_lineWidth s;
              has_fillStyle := true; has_font := has_font s;
              has_textAlign := has_textAlign s; stacked := stacked s |}
  | set_font _ =>
      Some {| has_strokeStyle := has_strokeStyle s; has_lineWidth := has_lineWidth s;
              has_fillStyle := has_fillStyle s; has_font := true;
              has_textAlign := has_textAlign s; stacked := stacked s |}
  | set_textAlign _ =>
      Some {| has_strokeStyle := has_strokeStyle s; has_lineWidth := has_lineWidth s;
              has_fillStyle := has_fillStyle s; has_font := has_font s;
              has_textAlign := true; stacked := stacked s |}
  | save =>
      Some {| has_strokeStyle := has_strokeStyle s; has_lineWidth := has_lineWidth s;
              has_fillStyle := has_fillStyle s; has_font := has_font s;
              has_textAlign := has_textAlign s;
              stacked := (has_strokeStyle s, has_lineWidth s, has_fillStyle s,
                          has_font s, has_textAlign s) :: stacked s |}
  | restore =>
      match stacked s with
      | [] => None
      | (a, b, c, d, e) :: st =>
          Some {| has_strokeStyle := a; has_lineWidth := b; has_fillStyle := c;
                  has_font := d; has_textAlign := e; stacked := st |}
      end
  | stroke => if has_strokeStyle s && has_lineWidth s then Some s else None
  | fill => if has_fillStyle s then Some s else None
  | fillText _ _ _ =>
      if has_fillStyle s && has_font s && has_textAlign s then Some s else None
  | _ => Some s
  end.

End Drawing.


(* ================================================================== *)
(** * The five plots together *)
(* ================================================================== *)

Module Plots.
Import Number Canvas Script.

(** A canvas element after [getCanvasContext] and a plot that sends [ops]:
    500 x 400, and what its context had received followed by the plot's
    operations. *)
Definition plotted (ops : canvas -> list ctx_op) (c : canvas) : element :=
  let c' := {| width := num 500; height := num 400; received := received c |} in
  HTMLCanvasElement
    {| width := num 500; height := num 400; received := received c ++ ops c' |}.

(** What [drawAxes] returns as [plotWidth] and [plotHeight] on the
    500 x 400 canvas with the margin of the plots. *)
Definition plot_width : number :=
  Number.sub (Number.sub (num 500) (margin_left plot_margin)) (margin_right plot_margin).

Definition plot_height : number :=
  Number.sub (Number.sub (num 400) (margin_top plot_margin)) (margin_bottom plot_margin).

(** Whether a pixel lies in the plot area of that canvas, the rectangle
    between the ends of the two axes, and whether it lies on the canvas. *)
Definition in_plot_area (p : number * number) : bool :=
  Number.le (margin_left plot_margin) (fst p)
  && Number.le (fst p) (Number.sub (num 500) (margin_right plot_margin))
  && Number.le (margin_top plot_margin) (snd p)
  && Number.le (snd p) (Number.sub (num 400) (margin_bottom plot_margin)).

Definition on_canvas (p : number * number) : bool :=
  Number.le (num 0) (fst p) && Number.le (fst p) (num 500)
  && Number.le (num 0) (snd p) && Number.le (snd p) (num 400).

(** The plot among [ps] that looks up [id], if there is one. *)
Fixpoint plot_of (ps : list (string * (canvas -> list ctx_op))) (id : string)
  : option (canvas -> list ctx_op) :=
  match ps with
  | [] => None
  | (id', ops) :: ps' => if decide (id' = id) then Some ops else plot_of ps' id
  end.

(** The plots of a list, one after the other. *)
Fixpoint plots_in_turn (ps : list (string * (canvas -> list ctx_op))) : js unit :=
  match ps with
  | [] => mret tt
  | (id, ops) :: ps' =>
      _ ← (result ← getCanvasContext id;
           match result with
           | None => mret tt
           | Some (id', canvas) => draw id' (ops canvas)
           end);
      plots_in_turn ps'
  end.

Section WithRuntime.
Context {rt : Runtime}.

(** The plots that the callback of [createVisualizationsSafely] calls, in
    the order of the calls: the id each looks up, and the operations it
    sends. *)
Definition plots (this : FermiFluidsVisualization)
  : list (string * (canvas -> list ctx_op)) :=
  [ ("intro-viz", createIntroVisualization_ops);
    ("fermi-sphere-viz", updateFermiSphereViz_ops this);
    ("quasiparticle-viz", updateQuasiparticleViz_ops this);
    ("interaction-viz", createInteractionVisualization_ops);
    ("transport-viz", createTransportVisualization_ops) ].

End WithRuntime.
End Plots.


(* ================================================================== *)
(** * script.js: the handlers of the page's events *)
(* ================================================================== *)

Module Events.
Import Number Canvas Script.

(** ** The sliders

    [setupEventListeners] gives each of the two sliders a handler of its
    [input] event, when the slider and the label beside it both exist. What
    such a handler leaves: the object, the text it has put in the label,
    and how the redrawing has ended. *)
Record handled : Type := {
  object : FermiFluidsVisualization;
  label : string;
  redrawn : completion unit
}.

Section Handlers.
Context {rt : Runtime}.

(** [this.temperature = parseFloat(e.target.value)], with [value] for the
    number parsed; [tempValue.textContent = this.temperature.toFixed(2)];
    [this.updateFermiSphereViz()]. *)
Definition temperature_input (value : number) (this : FermiFluidsVisualization)
    (doc : document) : handled :=
  let this' := on_temperature_input value this in
  {| object := this';
     label := toFixed (temperature this') 2;
     redrawn := updateFermiSphereViz this' doc |}.

(** [this.interactionStrength = parseFloat(e.target.value)];
    [intValue.textContent = this.interactionStrength.toFixed(1)];
    [this.updateQuasiparticleViz()]. *)
Definition interaction_input (value : number) (this : FermiFluidsVisualization)
    (doc : document) : handled :=
  let this' := on_interaction_input value this in
  {| object := this';
     label := toFixed (interactionStrength this') 1;
     redrawn := updateQuasiparticleViz this' doc |}.

End Handlers.

(** ** The sections' reveal animation

    The inline style of an element of class [section], as far as the
    handler of [DOMContentLoaded] assigns it. *)
Record style : Type := {
  opacity : string;
  transform : string;
  transition : string
}.

(** [document.querySelectorAll('.section').forEach(section => ...)]: every
    section is made transparent and moved down, and gets its transition.
    The sections are taken in document order; all are given to the
    observer. *)
Definition hide (s : style) : style := {|
  opacity := "0";
  transform := "translateY(20px)";
  transition := "opacity 0.6s ease, transform 0.6s ease"
|}.

Definition hide_sections (sections : list style) : list style := map hide sections.

(** An entry that the observer reports: the section it is about, by its
    place among the sections (the observer reports on the sections only),
    and whether the section is in view. *)
Record entry : Type := {
  target : nat;
  isIntersecting : bool
}.

(** The observer's callback: [entries.forEach(entry => { if
    (entry.isIntersecting) { ... } })]. *)
Definition reveal (s : style) : style := {|
  opacity := "1";
  transform := "translateY(0)";
  transition := transition s
|}.

Definition observer_callback (entries : list entry) (sections : list style)
  : list style :=
  foldl (fun ss e => if isIntersecting e then alter reveal (target e) ss else ss)
        sections entries.

(** Whether one of [entries] reports the section at place [i] in view. *)
Definition reported (i : nat) (entries : list entry) : bool :=
  existsb (fun e => isIntersecting e && Nat.eqb (target e) i) entries.

(** The page after loading and a series of calls of the callback. *)
Definition after_callbacks (calls : list (list entry)) (sections : list style)
  : list style :=
  foldl (fun ss entries => observer_callback entries ss)
        (hide_sections sections) calls.

End Events.


(* ================================================================== *)
(** * Ranges of numbers *)
(* ================================================================== *)

Module Range.
Import Number.
Local Open Scope Z_scope.

(** A number that is zero, or positive and finite with a value [m * 2^e]
    of at most [M * 2^E], its exponent [e] being at most [E]. *)
Definition at_most (M E : Z) (x : number) : Prop :=
  (exists s, x = S754_zero s)
  \/ exists (m : positive) (e : Z),
       x = S754_finite false m e /\ e <= E /\ Zpos m <= M * 2 ^ (E - e).

(** A number that is plus infinity, or positive and finite with a value
    [m * 2^e] of at least [M * 2^E], its exponent [e] being at least [E]. *)
Definition at_least (M E : Z) (x : number) : Prop :=
  x = S754_infinity false
  \/ exists (m : positive) (e : Z),
       x = S754_finite false m e /\ E <= e /\ M <= Zpos m * 2 ^ (e - E).

(** Whether a number is zero or finite with a magnitude [m * 2^e] of at
    most one half, its exponent [e] being at most -53. *)
Definition within_half (x : number) : bool :=
  match x with
  | S754_zero _ => true
  | S754_finite _ m e => (e <=? -53) && (Zpos m <=? 2 ^ 52 * 2 ^ (-53 - e))
  | _ => false
  end.

End Range.


(* ================================================================== *)
(** * The fluid solver documented by the repository *)
(* ================================================================== *)

Module Solver.
Local Open Scope Q_scope.

(** Modelled from the spec: the data model of the solver (section 3), whose
    source ([fluid_core.py]) is not among the files. A field is a dense
    [grid_N] x [grid_N] grid in row-major order, cell [(i, j)] (row [i], the
    y index; column [j], the x index) at position [i * grid_N + j]. Rounding
    of the single-precision cells is not modelled: a cell holds a rational. *)
Abbreviation Field := (list Q).

(** Modelled from the spec: SimulationParameters (section 3), the
    configuration of the missing solver. *)
Record SimulationParameters : Type := {
  grid_N : nat;
  dt : Q;
  vel_diss : Q;
  dye_diss : Q;
  vort_strength : Q;
  iters : nat
}.

(** Modelled from the spec: SimStats (section 3) of the missing solver. *)
Record SimStats : Type := {
  step_count : nat;
  div_l2 : Q
}.

(** Modelled from the spec: the arguments of [add_splat] (section 6) of the
    missing solver. *)
Record Splat : Type := {
  splat_x : Q;
  splat_y : Q;
  dye_amount : Q;
  splat_fx : Q;
  splat_fy : Q;
  radius : Q
}.

(** Modelled from the spec: the named fields that [get_fields] returns
    (section 6) of the missing solver. *)
Record Fields : Type := {
  dye : Field;
  u : Field;
  v : Field
}.

(** Modelled from the spec: the state the SimulationDriver owns (sections 3
    and 4.6) in the missing solver: parameters, fields, statistics, the
    splats queued for the next step and the state of the pseudo-random
    generator. *)
Record SimulationDriver : Type := {
  params : SimulationParameters;
  fields : Fields;
  stats : SimStats;
  queued : list Splat;
  rng : positive
}.

(** Modelled from the spec: the numerical kernels of the missing solver whose
    stencils and constants section 9 leaves open. Each is a parameter:
    semi-Lagrangian transport of one scalar grid through a velocity field
    (4.2), the velocity after the confinement force (4.4), the factor
    [exp(-rate * dt)] (4.5), the divergence grid, one Jacobi sweep with its
    boundary condition and the subtraction of the pressure gradient (4.3),
    the L2 norm, the falloff weight of a splat at a squared distance (4.5),
    and the pseudo-random seeding of splats (4.6). *)
Class Numerics : Type := {
  advect_scalar : SimulationParameters -> Field -> Field -> Field -> Field;
  confine : SimulationParameters -> Field -> Field -> Field * Field;
  decay : Q -> Q -> Q;
  divergence : SimulationParameters -> Field -> Field -> Field;
  jacobi_sweep : SimulationParameters -> Field -> Field -> Field;
  subtract_gradient : SimulationParameters -> Field -> Field -> Field -> Field * Field;
  l2_norm : Field -> Q;
  falloff : Q -> Q -> Q;
  seed_splats : positive -> list Splat * positive
}.

(** Modelled from the spec: every kernel of the missing solver writes a grid
    of the size of the grid it transforms (sections 3 and 4.2). *)
Class SameShape (nm : Numerics) : Prop := {
  advect_scalar_length : forall p f a b, length (advect_scalar p f a b) = length f;
  confine_length : forall p a b,
    length (fst (confine p a b)) = length a /\ length (snd (confine p a b)) = length b;
  subtract_gradient_length : forall p pr a b,
    length (fst (subtract_gradient p pr a b)) = length a
    /\ length (snd (subtract_gradient p pr a b)) = length b
}.

(** ** GridState *)

(** Modelled from the spec: the zero-initialized grid of the missing solver
    (section 3, lifecycle). *)
Definition zeros (n : nat) : Field := replicate (n * n) 0.

(** Modelled from the spec: row and column of a position of the row-major
    grid of the missing solver. *)
Definition row_of (n k : nat) : nat := (k / n)%nat.
Definition col_of (n k : nat) : nat := (k mod n)%nat.

(** Modelled from the spec: [enforce_no_through] of the missing solver
    (4.1). It zeroes the velocity component normal to each of the four
    edges: [u] on the columns [0] and [grid_N - 1], [v] on the rows [0] and
    [grid_N - 1]; the tangential components stay. *)
Definition enforce_no_through (n : nat) (vel : Field * Field) : Field * Field :=
  ( imap (fun k x =>
            if (col_of n k =? 0)%nat || (col_of n k =? n - 1)%nat then 0 else x)
         (fst vel),
    imap (fun k x =>
            if (row_of n k =? 0)%nat || (row_of n k =? n - 1)%nat then 0 else x)
         (snd vel) ).

(** ** Injector *)

(** Modelled from the spec: the centre of cell [k] of the missing solver's
    grid, which covers the unit square with cells of size [1 / grid_N]
    (section 3). *)
Definition cell_center (n k : nat) : Q * Q :=
  ( (inject_Z (Z.of_nat (col_of n k)) + (1 # 2)) / inject_Z (Z.of_nat n),
    (inject_Z (Z.of_nat (row_of n k)) + (1 # 2)) / inject_Z (Z.of_nat n) ).

Definition dist2 (p q : Q * Q) : Q :=
  (fst p - fst q) * (fst p - fst q) + (snd p - snd q) * (snd p - snd q).

Section WithNumerics.
Context {nm : Numerics}.

(** Modelled from the spec: what a splat adds to one cell of the missing
    solver (4.5). A cell within the radius receives the falloff weight times
    the amount; the weight has decayed to zero at the radius itself, so a
    cell is within the radius when its centre is nearer than the radius. *)
Definition splat_cell (n : nat) (s : Splat) (amount : Q) (k : nat) (x : Q) : Q :=
  let d2 := dist2 (cell_center n k) (splat_x s, splat_y s) in
  if Qlt_le_dec d2 (radius s * radius s)
  then x + falloff d2 (radius s) * amount
  else x.

(** Modelled from the spec: the Injector of the missing solver (4.5): the
    contribution of one splat to the dye and to both velocity components. *)
Definition apply_splat (n : nat) (s : Splat) (f : Fields) : Fields :=
  {| dye := imap (splat_cell n s (dye_amount s)) (dye f);
     u := imap (splat_cell n s (splat_fx s)) (u f);
     v := imap (splat_cell n s (splat_fy s)) (v f) |}.

(** Several splats accumulate, in the order they were requested. *)
Definition apply_splats (n : nat) (ss : list Splat) (f : Fields) : Fields :=
  foldl (fun acc s => apply_splat n s acc) f ss.

(** Modelled from the spec: the nearest point of the unit square, and a splat
    whose support (the points nearer to its centre than its radius) has no
    point in the square [0,1] x [0,1] (sections 4.5 and 8). *)
Definition clamp01 (x : Q) : Q :=
  if Qlt_le_dec x 0 then 0 else if Qlt_le_dec 1 x then 1 else x.

Definition outside_domain (s : Splat) : bool :=
  if Qlt_le_dec
       (dist2 (clamp01 (splat_x s), clamp01 (splat_y s)) (splat_x s, splat_y s))
       (radius s * radius s)
  then false else true.

(** ** PressureProjector *)

(** Modelled from the spec: the projection of the missing solver (4.3):
    divergence, a fixed number of Jacobi sweeps from a zero pressure grid,
    subtraction of the gradient, and the no-through rule again. *)
Definition project (p : SimulationParameters) (vel : Field * Field) : Field * Field :=
  let div := divergence p (fst vel) (snd vel) in
  let pressure := Nat.iter (iters p) (jacobi_sweep p div) (zeros (grid_N p)) in
  enforce_no_through (grid_N p) (subtract_gradient p pressure (fst vel) (snd vel)).

(** ** Dissipation *)

(** Modelled from the spec: dissipation in the missing solver (4.5), an
    elementwise multiplication by [exp(-rate * dt)]. *)
Definition dissipate (rate step : Q) (f : Field) : Field :=
  map (fun x => x * decay rate step) f.

(** ** SimulationDriver *)

(** Modelled from the spec: the configuration errors that construction of
    the missing solver rejects (sections 6 and 7). *)
Definition valid_parameters (p : SimulationParameters) : bool :=
  (2 <=? grid_N p)%nat
  && (if Qlt_le_dec 0 (dt p) then true else false)
  && (if Qlt_le_dec 0 (vel_diss p) then true else false)
  && (if Qlt_le_dec 0 (dye_diss p) then true else false)
  && (if Qlt_le_dec 0 (vort_strength p) then true else false)
  && (0 <? iters p)%nat.

(** Modelled from the spec: the initial condition of the missing solver
    (sections 3 and 4.6): all fields zero plus a pseudo-random seeding of
    splats, the step counter 0, nothing queued. *)
Definition initial (p : SimulationParameters) (seed : positive) : SimulationDriver :=
  let '(ss, seed') := seed_splats seed in
  let z := zeros (grid_N p) in
  {| params := p;
     fields := apply_splats (grid_N p) ss {| dye := z; u := z; v := z |};
     stats := {| step_count := 0; div_l2 := 0 |};
     queued := [];
     rng := seed' |}.

(** Modelled from the spec: construction of the missing solver, which fails
    on a configuration error (section 7). *)
Definition construct (p : SimulationParameters) (seed : positive)
  : option SimulationDriver :=
  if valid_parameters p then Some (initial p seed) else None.

(** Modelled from the spec: [reset()] of the missing solver (4.6): a fresh
    initial condition, the parameters kept. *)
Definition reset (s : SimulationDriver) : SimulationDriver :=
  initial (params s) (rng s).

(** Modelled from the spec: [add_splat(...)] of the missing solver (4.6 and
    6): the injection is queued and applied at the next [step()]. *)
Definition add_splat (sp : Splat) (s : SimulationDriver) : SimulationDriver :=
  {| params := params s; fields := fields s; stats := stats s;
     queued := queued s ++ [sp]; rng := rng s |}.

(** Modelled from the spec: [get_fields()] and [get_stats()] of the missing
    solver (4.6), read-only snapshots. *)
Definition get_fields (s : SimulationDriver) : Fields := fields s.
Definition get_stats (s : SimulationDriver) : SimStats := stats s.

(** Modelled from the spec: [step()] of the missing solver (4.6): advect
    velocity by itself, vorticity confinement, dissipate, apply the queued
    splats, project, advect the dye through the projected velocity,
    dissipate the dye; then the step counter and the divergence norm. The
    no-through rule follows every operation that can write a boundary value
    (4.1). *)
Definition step (s : SimulationDriver) : SimulationDriver :=
  let p := params s in
  let n := grid_N p in
  let f := fields s in
  let advected :=
    enforce_no_through n
      (advect_scalar p (u f) (u f) (v f), advect_scalar p (v f) (u f) (v f)) in
  let confined := enforce_no_through n (confine p (fst advected) (snd advected)) in
  let slowed :=
    (dissipate (vel_diss p) (dt p) (fst confined),
     dissipate (vel_diss p) (dt p) (snd confined)) in
  let injected :=
    apply_splats n (queued s) {| dye := dye f; u := fst slowed; v := snd slowed |} in
  let forced := enforce_no_through n (u injected, v injected) in
  let projected := project p forced in
  let dye' :=
    dissipate (dye_diss p) (dt p)
      (advect_scalar p (dye injected) (fst projected) (snd projected)) in
  {| params := p;
     fields := {| dye := dye'; u := fst projected; v := snd projected |};
     stats := {| step_count := S (step_count (stats s));
                 div_l2 := l2_norm (divergence p (fst projected) (snd projected)) |};
     queued := [];
     rng := rng s |}.

End WithNumerics.

(** Modelled from the spec: the grids of the missing solver all have
    [grid_N * grid_N] cells (section 3). *)
Definition well_formed (s : SimulationDriver) : Prop :=
  let n := grid_N (params s) in
  length (dye (fields s)) = (n * n)%nat
  /\ length (u (fields s)) = (n * n)%nat
  /\ length (v (fields s)) = (n * n)%nat.

(** Modelled from the spec: the no-through condition (section 3): the normal
    velocity component is zero in every cell of the four edges. *)
Definition no_through (n : nat) (f : Fields) : Prop :=
  forall i j : nat, (i < n)%nat -> (j < n)%nat ->
    ((j = 0 \/ j = n - 1)%nat -> u f !! (i * n + j)%nat = Some 0)
    /\ ((i = 0 \/ i = n - 1)%nat -> v f !! (i * n + j)%nat = Some 0).

(** ** Sample inputs *)

(** Kernels that leave every grid as it is, and seed nothing. *)
Definition still_numerics : Numerics := {|
  advect_scalar := fun _ f _ _ => f;
  confine := fun _ a b => (a, b);
  decay := fun _ _ => 1;
  divergence := fun _ a _ => a;
  jacobi_sweep := fun _ _ pr => pr;
  subtract_gradient := fun _ _ a b => (a, b);
  l2_norm := fun _ => 0;
  falloff := fun _ _ => 1;
  seed_splats := fun seed => ([], seed)
|}.

Definition sample_parameters : SimulationParameters := {|
  grid_N := 4; dt := 2 # 25; vel_diss := 2 # 25; dye_diss := 3 # 25;
  vort_strength := 6; iters := 60
|}.

(** Kernels that write every cell, the cells of the edges among them:
    transport and the gradient step add 1 to each cell, confinement adds 1
    to [u] and takes 1 from [v], dissipation halves; the seeding is one
    splat that covers the whole grid. *)
Definition gust : Splat := {|
  splat_x := 1 # 2; splat_y := 1 # 2; dye_amount := 1;
  splat_fx := 1; splat_fy := 1; radius := 2
|}.

Definition gusty_numerics : Numerics := {|
  advect_scalar := fun _ f _ _ => map (fun x => x + 1) f;
  confine := fun _ a b => (map (fun x => x + 1) a, map (fun x => x - 1) b);
  decay := fun _ _ => 1 # 2;
  divergence := fun _ a _ => a;
  jacobi_sweep := fun _ _ pr => pr;
  subtract_gradient :=
    fun _ _ a b => (map (fun x => x + 1) a, map (fun x => x + 1) b);
  l2_norm := fun _ => 0;
  falloff := fun _ _ => 1;
  seed_splats := fun seed => ([gust], Pos.succ seed)
|}.

(** The driver of these kernels after construction, with one more such
    splat requested. *)
Definition gusty_driver : SimulationDriver :=
  add_splat gust (@initial gusty_numerics sample_parameters 1%positive).

(** A splat centred two units to the right of the domain. *)
Definition far_splat : Splat := {|
  splat_x := 3; splat_y := 1 # 2; dye_amount := 1;
  splat_fx := 1 # 2; splat_fy := 0; radius := 1 # 10
|}.

(** A splat on the centre of a cell, with radius 0. *)
Definition point_splat : Splat := {|
  splat_x := 3 # 8; splat_y := 3 # 8; dye_amount := 1;
  splat_fx := 1 # 2; splat_fy := 0; radius := 0
|}.

End Solver.


(* ================================================================== *)
(** * Facts about binary64 arithmetic *)
(* ================================================================== *)

Module NumberFacts.
Import Number.
Local Open Scope Z_scope.

(** ** Digits *)
Lemma digits2_pos_bounds (p : positive) :
  2 ^ (Zpos (digits2_pos p) - 1) <= Zpos p < 2 ^ Zpos (digits2_pos p).
Proof.
  induction p as [p IH | p IH |]; cbn [digits2_pos].
  - rewrite Pos2Z.inj_succ.
    replace (Z.succ (Zpos (digits2_pos p)) - 1) with (Z.succ (Zpos (digits2_pos p) - 1)) by lia.
    rewrite !Z.pow_succ_r by lia. lia.
  - rewrite Pos2Z.inj_succ.
    replace (Z.succ (Zpos (digits2_pos p)) - 1) with (Z.succ (Zpos (digits2_pos p) - 1)) by lia.
    rewrite !Z.pow_succ_r by lia. lia.
  - cbn. lia.
Qed.

Lemma Zdigits2_bounds (m : Z) :
  0 < m -> 2 ^ (Zdigits2 m - 1) <= m < 2 ^ Zdigits2 m.
Proof. destruct m as [| p | p]; try lia. intros _. apply digits2_pos_bounds. Qed.

Lemma Zdigits2_nonneg (m : Z) : 0 <= Zdigits2 m.
Proof. destruct m; cbn; lia. Qed.

Lemma Zdigits2_le (m k : Z) : 0 <= k -> 0 <= m < 2 ^ k -> Zdigits2 m <= k.
Proof.
  intros Hk [H0 Hm]. destruct (Z.eq_dec m 0) as [-> | Hne]; [ cbn; lia | ].
  destruct (Zdigits2_bounds m ltac:(lia)) as [Hlo _].
  destruct (Z_le_gt_dec (Zdigits2 m) k) as [| Hgt]; [ assumption | exfalso ].
  assert (2 ^ k <= 2 ^ (Zdigits2 m - 1)) by (apply Z.pow_le_mono_r; lia). lia.
Qed.

Lemma Zdigits2_ge (m k : Z) : 0 <= k -> 2 ^ k <= m -> k + 1 <= Zdigits2 m.
Proof.
  intros Hk Hm. assert (0 < m) by (pose proof (Z.pow_pos_nonneg 2 k); lia).
  destruct (Zdigits2_bounds m ltac:(lia)) as [_ Hhi].
  destruct (Z_le_gt_dec (k + 1) (Zdigits2 m)) as [| Hgt]; [ assumption | exfalso ].
  pose proof (Zdigits2_nonneg m).
  assert (2 ^ Zdigits2 m <= 2 ^ k) by (apply Z.pow_le_mono_r; lia). lia.
Qed.

(** ** Shifting right *)
Lemma iter_pos_nat {A} (f : A -> A) (p : positive) (x : A) :
  SpecFloat.iter_pos f p x = Nat.iter (Pos.to_nat p) f x.
Proof.
  revert x. induction p as [p IH | p IH |]; intros x; cbn [SpecFloat.iter_pos].
  - rewrite !IH, Pos2Nat.inj_xI.
    replace (S (2 * Pos.to_nat p))%nat with (Pos.to_nat p + (Pos.to_nat p + 1))%nat by lia.
    rewrite !Nat.iter_add. reflexivity.
  - rewrite !IH, Pos2Nat.inj_xO.
    replace (2 * Pos.to_nat p)%nat with (Pos.to_nat p + Pos.to_nat p)%nat by lia.
    rewrite Nat.iter_add. reflexivity.
  - reflexivity.
Qed.

Lemma shr_1_m (mrs : shr_record) : 0 <= shr_m mrs -> shr_m (shr_1 mrs) = shr_m mrs / 2.
Proof.
  destruct mrs as [m r s]. cbn [shr_m]. intros Hm.
  destruct m as [| [p | p |] |]; cbn [shr_1 shr_m]; try lia.
  - reflexivity.
  - apply Z.div_unique with 1; lia.
  - apply Z.div_unique with 0; lia.
  - reflexivity.
Qed.

Lemma shr_1_exact (mrs : shr_record) :
  0 <= shr_m mrs -> shr_r mrs = false -> shr_s mrs = false ->
  shr_m mrs mod 2 = 0 ->
  shr_r (shr_1 mrs) = false /\ shr_s (shr_1 mrs) = false.
Proof.
  destruct mrs as [m r s]. cbn [shr_m shr_r shr_s]. intros Hm -> -> Hmod.
  destruct m as [| [p | p |] |]; cbn [shr_1 shr_r shr_s orb]; try lia; auto.
  - rewrite Pos2Z.inj_xI in Hmod. rewrite Z.add_comm, Z.mul_comm, Z.mod_add in Hmod by lia.
    discriminate.
  - discriminate.
Qed.

Lemma shr_iter_m (k : nat) (mrs : shr_record) :
  0 <= shr_m mrs ->
  shr_m (Nat.iter k shr_1 mrs) = shr_m mrs / 2 ^ Z.of_nat k.
Proof.
  intros Hm. induction k as [| k IH].
  - cbn. rewrite Z.div_1_r. reflexivity.
  - rewrite Nat.iter_succ, shr_1_m, IH.
    + rewrite Nat2Z.inj_succ, Z.pow_succ_r by lia.
      rewrite Z.div_div by (try apply Z.pow_pos_nonneg; lia).
      f_equal. lia.
    + rewrite IH. apply Z.div_pos; [ lia | apply Z.pow_pos_nonneg; lia ].
Qed.

Lemma shr_iter_exact (k : nat) (mrs : shr_record) :
  0 <= shr_m mrs -> shr_r mrs = false -> shr_s mrs = false ->
  shr_m mrs mod 2 ^ Z.of_nat k = 0 ->
  shr_r (Nat.iter k shr_1 mrs) = false /\ shr_s (Nat.iter k shr_1 mrs) = false.
Proof.
  intros Hm Hr Hs. induction k as [| k IH]; intros Hmod.
  - cbn. auto.
  - rewrite Nat2Z.inj_succ, Z.pow_succ_r in Hmod by lia.
    assert (Hp : 0 < 2 ^ Z.of_nat k) by (apply Z.pow_pos_nonneg; lia).
    apply Z.mod_divide in Hmod; [ | lia ]. destruct Hmod as [c Hc].
    assert (Hk : shr_m mrs mod 2 ^ Z.of_nat k = 0).
    { apply Z.mod_divide; [ lia | ]. exists (c * 2). lia. }
    destruct (IH Hk) as [Hr' Hs'].
    rewrite Nat.iter_succ. apply shr_1_exact; try assumption.
    + rewrite shr_iter_m by assumption. apply Z.div_pos; lia.
    + rewrite shr_iter_m by assumption.
      replace (shr_m mrs) with ((2 * c) * 2 ^ Z.of_nat k) by lia.
      rewrite Z.div_mul by lia. rewrite Z.mul_comm. apply Z.mod_mul. lia.
Qed.

(** ** Rounding *)
Lemma fexp_eq (e : Z) : fexp prec emax e = Z.max (e - 53) (-1074).
Proof. reflexivity. Qed.

Lemma shr_record_of_loc_m (m : Z) (l : location) : shr_m (shr_record_of_loc m l) = m.
Proof. destruct l as [| []]; reflexivity. Qed.

Lemma shr_fexp_spec (m e : Z) (l : location) :
  0 <= m ->
  snd (shr_fexp prec emax m e l) = Z.max e (fexp prec emax (Zdigits2 m + e))
  /\ shr_m (fst (shr_fexp prec emax m e l))
     = m / 2 ^ (Z.max e (fexp prec emax (Zdigits2 m + e)) - e)
  /\ (l = loc_Exact ->
      m mod 2 ^ (Z.max e (fexp prec emax (Zdigits2 m + e)) - e) = 0 ->
      loc_of_shr_record (fst (shr_fexp prec emax m e l)) = loc_Exact).
Proof.
  intros Hm. unfold shr_fexp, shr.
  set (f := fexp prec emax (Zdigits2 m + e)).
  destruct (f - e) as [| p | p] eqn:Hn; cbn [fst snd].
  - replace (Z.max e f) with e by lia. rewrite Z.sub_diag, Z.div_1_r.
    split; [ reflexivity | ]. split; [ apply shr_record_of_loc_m | ].
    intros -> _. reflexivity.
  - replace (Z.max e f) with (e + Zpos p) by lia.
    replace (e + Zpos p - e) with (Zpos p) by lia.
    rewrite iter_pos_nat.
    split; [ reflexivity | ]. split.
    + rewrite shr_iter_m by (rewrite shr_record_of_loc_m; exact Hm).
      rewrite shr_record_of_loc_m, positive_nat_Z. reflexivity.
    + intros -> Hmod. cbn [shr_record_of_loc].
      destruct (shr_iter_exact (Pos.to_nat p) (Build_shr_record m false false))
        as [Hr Hs]; cbn [shr_m shr_r shr_s]; try reflexivity; try assumption.
      { rewrite positive_nat_Z. exact Hmod. }
      destruct (Nat.iter _ _ _) as [m' r' s']. cbn [shr_r shr_s] in *.
      subst. reflexivity.
  - replace (Z.max e f) with e by lia. rewrite Z.sub_diag, Z.div_1_r.
    split; [ reflexivity | ]. split; [ apply shr_record_of_loc_m | ].
    intros -> _. reflexivity.
Qed.

Lemma round_nearest_even_cases (m : Z) (l : location) :
  round_nearest_even m l = m \/ round_nearest_even m l = m + 1.
Proof.
  destruct l as [| []]; cbn [round_nearest_even]; auto.
  destruct (Z.even m); auto.
Qed.

(** What [binary_round_aux] computes from a mantissa that is not negative:
    a shift to the exponent of the format, rounding to nearest even, and a
    second shift in case rounding gained a digit. *)
Lemma binary_round_aux_spec (sx : bool) (mx ex : Z) (lx : location) :
  0 <= mx ->
  exists m2 : Z,
    (m2 = mx / 2 ^ (Z.max ex (fexp prec emax (Zdigits2 mx + ex)) - ex)
     \/ m2 = mx / 2 ^ (Z.max ex (fexp prec emax (Zdigits2 mx + ex)) - ex) + 1)
    /\ (lx = loc_Exact ->
        mx mod 2 ^ (Z.max ex (fexp prec emax (Zdigits2 mx + ex)) - ex) = 0 ->
        m2 = mx / 2 ^ (Z.max ex (fexp prec emax (Zdigits2 mx + ex)) - ex))
    /\ binary_round_aux prec emax sx mx ex lx
       = let e1 := Z.max ex (fexp prec emax (Zdigits2 mx + ex)) in
         let e2 := Z.max e1 (fexp prec emax (Zdigits2 m2 + e1)) in
         match m2 / 2 ^ (e2 - e1) with
         | Z0 => S754_zero sx
         | Zpos p =>
             if e2 <=? emax - prec then S754_finite sx p e2 else S754_infinity sx
         | Zneg _ => S754_nan
         end.
Proof.
  intros Hm. unfold binary_round_aux.
  destruct (shr_fexp_spec mx ex lx Hm) as (He1 & Hm1 & Hex).
  destruct (shr_fexp prec emax mx ex lx) as [mrs' e1']. cbn [fst snd] in *.
  set (e1 := Z.max ex (fexp prec emax (Zdigits2 mx + ex))) in *.
  set (m2 := round_nearest_even (shr_m mrs') (loc_of_shr_record mrs')).
  assert (Hm1' : 0 <= shr_m mrs').
  { rewrite Hm1. apply Z.div_pos; [ lia | apply Z.pow_pos_nonneg; lia ]. }
  assert (Hm2 : 0 <= m2).
  { unfold m2.
    destruct (round_nearest_even_cases (shr_m mrs') (loc_of_shr_record mrs'))
      as [-> | ->]; lia. }
  exists m2. split; [ | split ].
  - rewrite <- Hm1. apply round_nearest_even_cases.
  - intros Hl Hmod. rewrite <- Hm1. unfold m2. rewrite (Hex Hl Hmod). reflexivity.
  - destruct (shr_fexp_spec m2 e1' loc_Exact Hm2) as (He2 & Hm3 & _).
    destruct (shr_fexp prec emax m2 e1' loc_Exact) as [mrs'' e2']. cbn [fst snd] in *.
    subst e1' e2'. rewrite Hm3. reflexivity.
Qed.

Lemma binary_round_aux_not_nan (sx : bool) (mx ex : Z) (lx : location) :
  0 <= mx -> binary_round_aux prec emax sx mx ex lx <> S754_nan.
Proof.
  intros Hm. destruct (binary_round_aux_spec sx mx ex lx Hm) as (m2 & Hm2 & _ & ->).
  cbv zeta.
  set (e1 := Z.max ex (fexp prec emax (Zdigits2 mx + ex))) in *.
  set (e2 := Z.max e1 (fexp prec emax (Zdigits2 m2 + e1))).
  assert (0 <= mx / 2 ^ (e1 - ex)) by (apply Z.div_pos; [ lia | apply Z.pow_pos_nonneg; lia ]).
  assert (0 <= m2 / 2 ^ (e2 - e1)) by (apply Z.div_pos; [ lia | apply Z.pow_pos_nonneg; lia ]).
  destruct (m2 / 2 ^ (e2 - e1)); try lia; try discriminate.
  destruct (e2 <=? emax - prec); discriminate.
Qed.

(** ** Numbers that are at least one *)

Lemma pow2_split (a b : Z) : 0 <= a -> 0 <= b -> 2 ^ (a + b) = 2 ^ a * 2 ^ b.
Proof. intros. apply Z.pow_add_r; assumption. Qed.

Lemma pow2_succ (k : Z) : 0 <= k -> 2 ^ (k + 1) = 2 * 2 ^ k.
Proof. intros. rewrite Z.add_1_r. apply Z.pow_succ_r. assumption. Qed.

Lemma round_aux_at_least_one (M e0 : Z) :
  2 ^ 52 <= M -> 1 <= Zdigits2 M + e0 ->
  at_least_one (binary_round_aux prec emax false M e0 loc_Exact).
Proof.
  intros HM Hval.
  assert (HM0 : 0 < M) by (pose proof (Z.pow_pos_nonneg 2 52); lia).
  destruct (binary_round_aux_spec false M e0 loc_Exact ltac:(lia))
    as (m2 & Hm2 & _ & ->). cbv zeta.
  pose proof (Zdigits2_ge M 52 ltac:(lia) HM) as Hd.
  destruct (Zdigits2_bounds M HM0) as [Hlo Hhi].
  set (d := Zdigits2 M) in *.
  rewrite !fexp_eq in *.
  replace (Z.max e0 (Z.max (d + e0 - 53) (-1074))) with (d + e0 - 53) in * by lia.
  replace (d + e0 - 53 - e0) with (d - 53) in * by lia.
  assert (Hp : 0 < 2 ^ (d - 53)) by (apply Z.pow_pos_nonneg; lia).
  assert (Hm1 : 2 ^ 52 <= M / 2 ^ (d - 53) < 2 ^ 53).
  { split.
    - apply Z.div_le_lower_bound; [ lia | ].
      rewrite <- pow2_split by lia. replace (d - 53 + 52) with (d - 1) by lia. lia.
    - apply Z.div_lt_upper_bound; [ lia | ].
      rewrite <- pow2_split by lia. replace (d - 53 + 53) with d by lia. lia. }
  assert (Hm2' : 2 ^ 52 <= m2 <= 2 ^ 53) by lia.
  destruct (Z.eq_dec m2 (2 ^ 53)) as [-> | Hne].
  - replace (Zdigits2 (2 ^ 53)) with 54 by reflexivity.
    replace (Z.max (d + e0 - 53) (Z.max (54 + (d + e0 - 53) - 53) (-1074)))
      with (d + e0 - 53 + 1) by lia.
    replace (d + e0 - 53 + 1 - (d + e0 - 53)) with 1 by lia.
    change (2 ^ 53 / 2 ^ 1) with (Zpos 4503599627370496).
    destruct (_ <=? _) eqn:Hle; [ right | left; reflexivity ].
    apply Z.leb_le in Hle. change (emax - prec) with 971 in Hle.
    eexists _, _. split; [ reflexivity | ]. split; [ | lia ].
    change (2 ^ 52) with 4503599627370496. change (2 ^ 53) with 9007199254740992. lia.
  - assert (Hd2 : Zdigits2 m2 = 53).
    { apply Z.le_antisymm.
      - apply Zdigits2_le; lia.
      - apply (Zdigits2_ge m2 52); lia. }
    rewrite Hd2.
    replace (Z.max (d + e0 - 53) (Z.max (53 + (d + e0 - 53) - 53) (-1074)))
      with (d + e0 - 53) by lia.
    rewrite Z.sub_diag, Z.div_1_r.
    destruct m2 as [| p | p]; try lia.
    destruct (_ <=? _) eqn:Hle; [ right | left; reflexivity ].
    apply Z.leb_le in Hle. change (emax - prec) with 971 in Hle.
    eexists _, _. split; [ reflexivity | ]. split; lia.
Qed.

(** ** Alignment and addition *)

Lemma pos_iter_xO (m d : positive) : Zpos (Pos.iter xO m d) = Zpos m * 2 ^ Zpos d.
Proof.
  induction d as [| d IH] using Pos.peano_ind.
  - cbn. lia.
  - rewrite Pos.iter_succ, Pos2Z.inj_xO, IH, Pos2Z.inj_succ, Z.pow_succ_r by lia. lia.
Qed.

Lemma shl_align_spec (mx : positive) (ex ex' : Z) :
  snd (shl_align mx ex ex') = Z.min ex ex'
  /\ Zpos (fst (shl_align mx ex ex')) = Zpos mx * 2 ^ (ex - Z.min ex ex').
Proof.
  unfold shl_align. destruct (ex' - ex) as [| d | d] eqn:Hd; cbn [fst snd].
  - replace (Z.min ex ex') with ex by lia. rewrite Z.sub_diag. split; lia.
  - replace (Z.min ex ex') with ex by lia. rewrite Z.sub_diag. split; lia.
  - replace (Z.min ex ex') with ex' by lia. split; [ reflexivity | ].
    rewrite pos_iter_xO. f_equal. f_equal. lia.
Qed.

Lemma binary_round_at_least_one (M : positive) (ez : Z) :
  ez <= 0 -> 2 ^ (- ez) <= Zpos M ->
  at_least_one (binary_round prec emax false M ez).
Proof.
  intros Hez HM. unfold binary_round.
  pose proof (Zdigits2_ge (Zpos M) (- ez) ltac:(lia) HM) as Hd.
  destruct (Zdigits2_bounds (Zpos M) ltac:(lia)) as [Hlo Hhi].
  change (Zdigits2 (Zpos M)) with (Zpos (digits2_pos M)) in *.
  set (d := Zpos (digits2_pos M)) in *.
  destruct (shl_align_spec M ez (fexp prec emax (d + ez))) as [He0 HM'].
  destruct (shl_align M ez (fexp prec emax (d + ez))) as [M' e0].
  cbn [fst snd] in *. rewrite fexp_eq in *. subst e0.
  replace (Z.max (d + ez - 53) (-1074)) with (d + ez - 53) in * by lia.
  destruct (Z_lt_le_dec d 53) as [Hlt | Hge].
  - replace (Z.min ez (d + ez - 53)) with (d + ez - 53) in * by lia.
    replace (ez - (d + ez - 53)) with (53 - d) in HM' by lia.
    assert (Hb : 2 ^ 52 <= Zpos M' < 2 ^ 53).
    { assert (E1 : 2 ^ 52 = 2 ^ (d - 1) * 2 ^ (53 - d)).
      { rewrite <- pow2_split by lia. f_equal. lia. }
      assert (E2 : 2 ^ 53 = 2 ^ d * 2 ^ (53 - d)).
      { rewrite <- pow2_split by lia. f_equal. lia. }
      assert (0 < 2 ^ (53 - d)) by (apply Z.pow_pos_nonneg; lia).
      rewrite HM', E1, E2. split.
      - apply Z.mul_le_mono_nonneg_r; lia.
      - apply Z.mul_lt_mono_pos_r; lia. }
    apply round_aux_at_least_one; [ lia | ].
    assert (Zdigits2 (Zpos M') = 53).
    { apply Z.le_antisymm; [ apply Zdigits2_le; lia | apply (Zdigits2_ge _ 52); lia ]. }
    lia.
  - replace (Z.min ez (d + ez - 53)) with ez in * by lia.
    rewrite Z.sub_diag in HM'. assert (M' = M) by lia. subst M'.
    apply round_aux_at_least_one.
    + assert (2 ^ 52 <= 2 ^ (d - 1)) by (apply Z.pow_le_mono_r; lia). lia.
    + change (Zdigits2 (Zpos M)) with d. lia.
Qed.

(** [y + 1] for a finite positive [y]. *)
Lemma add_one_at_least_one (m : positive) (e : Z) :
  at_least_one (SFadd prec emax (S754_finite false m e)
                  (S754_finite false 4503599627370496 (-52))).
Proof.
  cbn [SFadd cond_Zopp].
  set (ez := Z.min e (-52)).
  destruct (shl_align_spec m e ez) as [_ Ha].
  destruct (shl_align_spec 4503599627370496 (-52) ez) as [_ Hb].
  set (a := fst (shl_align m e ez)) in *.
  set (b := fst (shl_align 4503599627370496 (-52) ez)) in *.
  change (Zpos a + Zpos b) with (Zpos (a + b)).
  cbn [binary_normalize].
  apply binary_round_at_least_one; [ lia | ].
  rewrite Pos2Z.inj_add, Hb.
  replace (Z.min (-52) ez) with ez by lia.
  change (Zpos 4503599627370496) with (2 ^ 52).
  rewrite <- pow2_split by lia. replace (52 + (-52 - ez)) with (- ez) by lia. lia.
Qed.

(** ** The reciprocal of a number that is at least one *)

Lemma new_location_exact (nb : Z) : new_location nb 0 = loc_Exact.
Proof.
  unfold new_location, new_location_even, new_location_odd.
  destruct (Z.even nb); reflexivity.
Qed.

Lemma div_pow2_le (q s n : Z) :
  0 <= n <= s -> 0 <= q <= 2 ^ s -> q / 2 ^ n <= 2 ^ (s - n).
Proof.
  intros Hn Hq. assert (0 < 2 ^ n) by (apply Z.pow_pos_nonneg; lia).
  apply Z.div_le_upper_bound; [ lia | ].
  rewrite <- pow2_split by lia. replace (n + (s - n)) with s by lia. lia.
Qed.

Lemma div_pow2_max (q s n : Z) :
  0 <= n <= s -> 0 <= q <= 2 ^ s -> q / 2 ^ n = 2 ^ (s - n) ->
  q = 2 ^ s /\ q mod 2 ^ n = 0.
Proof.
  intros Hn Hq Heq. assert (Hp : 0 < 2 ^ n) by (apply Z.pow_pos_nonneg; lia).
  assert (Hs : 2 ^ s = 2 ^ n * 2 ^ (s - n)).
  { rewrite <- pow2_split by lia. f_equal. lia. }
  pose proof (Z.mul_div_le q (2 ^ n) Hp) as Hle. rewrite Heq, <- Hs in Hle.
  assert (q = 2 ^ s) by lia. split; [ assumption | ].
  subst q. rewrite Hs, Z.mul_comm. apply Z.mod_mul. lia.
Qed.

Lemma finite_le_of_bounds (p q : positive) (e f : Z) :
  e < f \/ (e = f /\ Zpos p <= Zpos q) ->
  SFleb (S754_finite false p e) (S754_finite false q f) = true.
Proof.
  intros H. unfold SFleb, SFcompare.
  change IntDef.Z.compare with Z.compare.
  change PosDef.Pos.compare_cont with Pos.compare_cont.
  destruct (Z.compare_spec e f) as [Heq | Hlt | Hgt]; [ | reflexivity | lia ].
  rewrite Pos.compare_cont_spec. cbn [Pos.switch_Eq].
  destruct (Pos.compare_spec p q) as [Hpq | Hpq | Hpq]; try reflexivity. lia.
Qed.

Lemma reciprocal_in_unit (mz : positive) (ez : Z) :
  2 ^ 52 <= Zpos mz < 2 ^ 53 -> -52 <= ez <= 971 ->
  SFleb (S754_zero false)
    (SFdiv prec emax (S754_finite false 4503599627370496 (-52))
       (S754_finite false mz ez)) = true
  /\ SFleb
       (SFdiv prec emax (S754_finite false 4503599627370496 (-52))
          (S754_finite false mz ez))
       (S754_finite false 4503599627370496 (-52)) = true.
Proof.
  intros Hmz Hez. cbn [SFdiv xorb]. unfold SFdiv_core_binary.
  change IntDef.Z.min with Z.min. change IntDef.Z.div_eucl with Z.div_eucl.
  change IntDef.Z.shiftl with Z.shiftl.
  assert (Hdz : Zdigits2 (Zpos mz) = 53).
  { apply Z.le_antisymm; [ apply Zdigits2_le; lia | apply (Zdigits2_ge _ 52); lia ]. }
  rewrite Hdz. change (Zdigits2 (Zpos 4503599627370496)) with 53.
  set (B := -52 - ez).
  replace (53 + -52 - (53 + ez)) with B by (unfold B; lia).
  rewrite fexp_eq.
  replace (Z.min (Z.max (B - 53) (-1074)) B) with (Z.max (B - 53) (-1074))
    by (unfold B; lia).
  set (e' := Z.max (B - 53) (-1074)).
  set (s := B - e').
  assert (Hs : 51 <= s <= 53) by (unfold s, e', B; lia).
  replace (match s with
           | 0 => Zpos 4503599627370496
           | Zpos _ => Z.shiftl (Zpos 4503599627370496) s
           | Zneg _ => 0
           end) with (Z.shiftl (Zpos 4503599627370496) s)
    by (destruct s; try lia; reflexivity).
  rewrite Z.shiftl_mul_pow2 by lia.
  change (Zpos 4503599627370496) with (2 ^ 52).
  assert (Hps : 0 < 2 ^ s) by (apply Z.pow_pos_nonneg; lia).
  pose proof (Z_div_mod (2 ^ 52 * 2 ^ s) (Zpos mz) ltac:(lia)) as Hdm.
  destruct (Z.div_eucl (2 ^ 52 * 2 ^ s) (Zpos mz)) as [q r].
  destruct Hdm as [Hq Hr].
  assert (Hq0 : 0 <= q) by nia.
  assert (Hqs : q <= 2 ^ s) by nia.
  assert (Hloc : q = 2 ^ s -> new_location (Zpos mz) r = loc_Exact).
  { intros ->. assert (r = 0) by nia. subst r. apply new_location_exact. }
  destruct (binary_round_aux_spec false q e' (new_location (Zpos mz) r) Hq0)
    as (m2 & Hm2 & Hex & ->). cbv zeta.
  rewrite !fexp_eq in *.
  pose proof (Zdigits2_nonneg q) as Hdq0.
  assert (Hdq : Zdigits2 q <= s + 1).
  { apply Zdigits2_le; [ lia | ]. rewrite pow2_succ by lia. lia. }
  set (e1 := Z.max e' (Z.max (Zdigits2 q + e' - 53) (-1074))) in *.
  assert (He1 : e' <= e1 <= Z.max (B - 52) (-1074)) by (unfold e1, e', s in *; lia).
  assert (He1B : e1 <= B) by (unfold B in *; lia).
  assert (Hm1 : 0 <= q / 2 ^ (e1 - e') <= 2 ^ (B - e1)).
  { split.
    - apply Z.div_pos; [ lia | apply Z.pow_pos_nonneg; lia ].
    - replace (B - e1) with (s - (e1 - e')) by (unfold s; lia).
      apply div_pow2_le; lia. }
  assert (Hm2' : 0 <= m2 <= 2 ^ (B - e1)).
  { destruct (Z.eq_dec (q / 2 ^ (e1 - e')) (2 ^ (B - e1))) as [Hmax | Hne].
    - replace (B - e1) with (s - (e1 - e')) in Hmax by (unfold s; lia).
      destruct (div_pow2_max q s (e1 - e') ltac:(lia) ltac:(lia) Hmax) as [Hqmax Hmod].
      rewrite (Hex (Hloc Hqmax) Hmod). lia.
    - lia. }
  pose proof (Zdigits2_nonneg m2) as Hd20.
  assert (Hd2 : Zdigits2 m2 <= B - e1 + 1).
  { apply Zdigits2_le; [ lia | ]. rewrite pow2_succ by lia.
    assert (0 < 2 ^ (B - e1)) by (apply Z.pow_pos_nonneg; lia). lia. }
  set (e2 := Z.max e1 (Z.max (Zdigits2 m2 + e1 - 53) (-1074))).
  assert (He2 : e1 <= e2 <= Z.max (B - 52) (-1074)) by (unfold e2; lia).
  assert (He2B : e2 <= B) by (unfold B in *; lia).
  assert (Hm3 : 0 <= m2 / 2 ^ (e2 - e1) <= 2 ^ (B - e2)).
  { split.
    - apply Z.div_pos; [ lia | apply Z.pow_pos_nonneg; lia ].
    - replace (B - e2) with ((B - e1) - (e2 - e1)) by lia.
      apply div_pow2_le; lia. }
  destruct (m2 / 2 ^ (e2 - e1)) as [| p | p] eqn:Hm3e; try lia.
  - split; reflexivity.
  - assert (Hle : (e2 <=? emax - prec) = true).
    { apply Z.leb_le. change (emax - prec) with 971. unfold B in *. lia. }
    rewrite Hle. split; [ reflexivity | ].
    apply finite_le_of_bounds.
    destruct (Z_lt_le_dec e2 (-52)) as [Hlt | Hge]; [ left; exact Hlt | right ].
    split; [ unfold B in *; lia | ].
    assert (Hpow : 2 ^ (B - e2) <= 2 ^ 52)
      by (apply Z.pow_le_mono_r; unfold B in *; lia).
    eapply Z.le_trans; [ apply Hm3 | exact Hpow ].
Qed.

(** ** Results that are numbers *)

Lemma binary_normalize_not_nan (m e : Z) (szero : bool) :
  binary_normalize prec emax m e szero <> S754_nan.
Proof.
  destruct m as [| p | p]; cbn [binary_normalize]; [ discriminate | | ];
    unfold binary_round;
    destruct (shl_align p e _) as [mz ez];
    apply binary_round_aux_not_nan; lia.
Qed.

Lemma sub_finite_not_nan (x y : spec_float) :
  (exists s m e, x = S754_finite s m e) \/ (exists s, x = S754_zero s) ->
  (exists s m e, y = S754_finite s m e) \/ (exists s, y = S754_zero s) ->
  SFsub prec emax x y <> S754_nan.
Proof.
  intros [(sx & mx & ex & ->) | (sx & ->)] [(sy & my & ey & ->) | (sy & ->)];
    cbn [SFsub]; try discriminate.
  - apply binary_normalize_not_nan.
  - destruct sx, sy; discriminate.
Qed.

Lemma div_by_finite_not_nan (x : spec_float) (s : bool) (m : positive) (e : Z) :
  x <> S754_nan -> SFdiv prec emax x (S754_finite s m e) <> S754_nan.
Proof.
  intros Hx. destruct x as [sx | sx | | sx mx ex]; cbn [SFdiv];
    try discriminate; try contradiction.
  unfold SFdiv_core_binary.
  change IntDef.Z.div_eucl with Z.div_eucl. change IntDef.Z.shiftl with Z.shiftl.
  match goal with
  | |- context [Z.div_eucl ?a (Zpos m)] =>
      assert (Ha : 0 <= a);
      [ | pose proof (Z_div_mod a (Zpos m) ltac:(lia)) as Hdm;
          destruct (Z.div_eucl a (Zpos m)) as [q r] ]
  end.
  - match goal with
    | |- 0 <= match ?s with _ => _ end => destruct s as [| sp | sp]
    end; try lia.
    apply Z.shiftl_nonneg. lia.
  - destruct Hdm as [Hq Hr]. apply binary_round_aux_not_nan. nia.
Qed.

(** ** Numbers of script.js *)

Lemma num_1_eq : num 1 = S754_finite false 4503599627370496 (-52).
Proof. reflexivity. Qed.

Lemma num_0_eq : num 0 = S754_zero false.
Proof. reflexivity. Qed.

Lemma nonneg_cases (y : number) :
  le (num 0) y = true ->
  (exists s, y = S754_zero s) \/ y = S754_infinity false
  \/ exists m e, y = S754_finite false m e.
Proof.
  destruct y as [s | [] | | [] m e]; intros H; try discriminate.
  - left. exists s. reflexivity.
  - right. left. reflexivity.
  - right. right. exists m, e. reflexivity.
Qed.

(** [1 / (y + 1)] lies in [0, 1] for every [y] that is not negative. *)
Lemma reciprocal_of_one_plus (y : number) :
  le (num 0) y = true ->
  le (num 0) (div (num 1) (add y (num 1))) = true
  /\ le (div (num 1) (add y (num 1))) (num 1) = true.
Proof.
  intros Hy.
  assert (Hz : at_least_one (add y (num 1))).
  { destruct (nonneg_cases y Hy) as [(s & ->) | [-> | (m & e & ->)]].
    - right. exists 4503599627370496%positive, (-52).
      split; [ reflexivity | ]. vm_compute. repeat split; discriminate.
    - left. reflexivity.
    - rewrite num_1_eq. apply add_one_at_least_one. }
  destruct Hz as [-> | (mz & ez & -> & Hm & He)].
  - split; reflexivity.
  - rewrite num_1_eq, num_0_eq. apply reciprocal_in_unit; assumption.
Qed.

Lemma finite_cases (x : number) :
  is_finite x = true ->
  (exists s m e, x = S754_finite s m e) \/ (exists s, x = S754_zero s).
Proof.
  destruct x as [s | s | | s m e]; intros H; try discriminate.
  - right. exists s. reflexivity.
  - left. exists s, m, e. reflexivity.
Qed.

(** [(x - y) / t] is a number when [x], [y] and [t] are finite and [t] is
    positive. *)
Lemma quotient_not_nan (x y t : number) :
  is_finite x = true -> is_finite y = true -> is_finite t = true ->
  le (num 0) t = true -> strict_eq t (num 0) = false ->
  is_nan (div (sub x y) t) = false.
Proof.
  intros Hx Hy Ht Hpos Hnz.
  assert (Hd : div (sub x y) t <> S754_nan).
  { destruct t as [s | s | | s m e]; try discriminate.
    apply div_by_finite_not_nan.
    apply sub_finite_not_nan; apply finite_cases; assumption. }
  destruct (div (sub x y) t); try reflexivity. contradiction.
Qed.

End NumberFacts.

(* ================================================================== *)
(** * Properties of script.js *)
(* ================================================================== *)

Module ScriptFacts.
Import Number Canvas Script.
Local Open Scope js_scope.

#[global] Instance number_eq_dec : EqDecision number.
Proof. unfold number. solve_decision. Defined.

(** Closes a decidable goal by evaluation. *)
Ltac by_evaluation := eapply bool_decide_eq_true_1; vm_compute; reflexivity.

Section Facts.
Context {rt : Runtime}.

(** ** fermiDirac *)

(** C2. For every energy [E], chemical potential [mu] and temperature [T],
    [fermiDirac(E, mu, T)] is the zero-temperature step value (1 if
    [E <= mu], else 0) when [T === 0], and [1 / (exp((E - mu) / T) + 1)]
    otherwise; and every point of the curve that [updateFermiSphereViz]
    plots carries that value, at chemical potential 1 and the temperature
    of the slider. *)
Theorem fermiDirac_closed_form (E mu T : number) :
  ((T === num 0) = true ->
     fermiDirac E mu T = (if E <= mu then num 1 else num 0))
  /\ ((T === num 0) = false ->
     fermiDirac E mu T = num 1 / (Math_exp ((E - mu) / T) + num 1))
  /\ (forall this height plotWidth plotHeight i,
        sphere_point this height plot_margin plotWidth plotHeight i
        = ( num 60 + (sphere_E i / num 3) * plotWidth,
            height - num 60
            - (fermiDirac (sphere_E i) (num 1) (temperature this) / dec 12 1)
              * plotHeight )).
Proof.
  unfold fermiDirac. repeat split.
  - intros HT. rewrite HT. reflexivity.
  - intros HT. rewrite HT. reflexivity.
Qed.

(** C10. For every energy, chemical potential and temperature that is not
    negative, [fermiDirac] returns a value in the closed interval [0, 1],
    and at temperature 0 the value is exactly 0 or exactly 1. This holds
    for all finite numbers, which are what the plot passes (the energies
    [(i / 300) * 3], the chemical potential 1 and the temperature of the
    slider), and beyond them wherever the temperature is 0 or the quotient
    [(energy - mu) / temperature] is a number. ([Math.exp] is taken to
    return a number that is not negative on every argument that is a
    number.) *)
Theorem fermiDirac_in_unit_interval (E mu T : number) :
  exp_nonneg rt ->
  (num 0 <= T) = true ->
  (is_finite E = true /\ is_finite mu = true /\ is_finite T = true)
  \/ (T === num 0) = true
  \/ is_nan ((E - mu) / T) = false ->
  (num 0 <= fermiDirac E mu T) = true
  /\ (fermiDirac E mu T <= num 1) = true
  /\ ((T === num 0) = true ->
        fermiDirac E mu T = num 0 \/ fermiDirac E mu T = num 1).
Proof.
  intros Hexp Hpos Hdomain. unfold fermiDirac.
  destruct (T === num 0) eqn:Hzero.
  - destruct (E <= mu); repeat split; auto.
  - assert (Hx : is_nan ((E - mu) / T) = false).
    { destruct Hdomain as [(HE & Hmu & HT) | [Hz | Hq]].
      - apply NumberFacts.quotient_not_nan; assumption.
      - discriminate.
      - exact Hq. }
    destruct (NumberFacts.reciprocal_of_one_plus _ (Hexp _ Hx)) as [H0 H1].
    repeat split; [ exact H0 | exact H1 | discriminate ].
Qed.

(** ** getCanvasContext and the plots *)

Lemma getCanvasContext_missing (id : string) (doc : document) :
  getElementById id doc = None -> getCanvasContext id doc = Return None doc.
Proof. unfold getCanvasContext. intros ->. reflexivity. Qed.

Lemma getCanvasContext_canvas (id : string) (doc : document) (c : canvas) :
  getElementById id doc = Some (HTMLCanvasElement c) ->
  let c' := {| width := num 500; height := num 400; received := received c |} in
  getCanvasContext id doc
  = Return (Some (id, c')) (<[id := HTMLCanvasElement c']> doc).
Proof. unfold getCanvasContext. intros ->. reflexivity. Qed.

(** A plot on a page that has its canvas: the context receives the plot's
    operations after those it had received. *)
Lemma plot_on_canvas (id : string) (ops : canvas -> list ctx_op)
    (doc : document) (c : canvas) :
  getElementById id doc = Some (HTMLCanvasElement c) ->
  let c' := {| width := num 500; height := num 400; received := received c |} in
  (result ← getCanvasContext id;
   match result with
   | None => mret tt
   | Some (id', canvas) => draw id' (ops canvas)
   end) doc
  = Return tt (<[id := HTMLCanvasElement
                        {| width := num 500; height := num 400;
                           received := received c ++ ops c' |}]> doc).
Proof.
  intros Hc c'. unfold mbind, js_bind.
  rewrite (getCanvasContext_canvas _ _ _ Hc). cbv zeta. unfold draw.
  rewrite lookup_insert_eq. cbn. rewrite insert_insert_eq. reflexivity.
Qed.

(** C9, as amended. If the document has no element with the requested id,
    [getCanvasContext] returns [null] (here [None]), and each of the five
    plots returns without drawing and without throwing: the document, with
    all that its canvases have received, is as it was. *)
Theorem missing_element_is_silent (this : FermiFluidsVisualization)
    (doc : document) :
  (forall id, getElementById id doc = None ->
     getCanvasContext id doc = Return None doc)
  /\ (getElementById "intro-viz" doc = None ->
        createIntroVisualization this doc = Return tt doc)
  /\ (getElementById "fermi-sphere-viz" doc = None ->
        updateFermiSphereViz this doc = Return tt doc)
  /\ (getElementById "quasiparticle-viz" doc = None ->
        updateQuasiparticleViz this doc = Return tt doc)
  /\ (getElementById "interaction-viz" doc = None ->
        createInteractionVisualization this doc = Return tt doc)
  /\ (getElementById "transport-viz" doc = None ->
        createTransportVisualization this doc = Return tt doc).
Proof.
  split; [ intros id; apply getCanvasContext_missing | ].
  repeat apply conj; intros H;
    unfold createIntroVisualization, updateFermiSphereViz,
      updateQuasiparticleViz, createInteractionVisualization,
      createTransportVisualization, mbind, js_bind;
    rewrite (getCanvasContext_missing _ _ H); reflexivity.
Qed.

(** On a page with none of the five canvases, the callback of
    [createVisualizationsSafely] runs all five plots and leaves the
    document as it was. *)
Theorem no_canvas_no_drawing (this : FermiFluidsVisualization) (doc : document) :
  Forall (fun id => getElementById id doc = None) canvas_ids ->
  createVisualizations this doc = Return tt doc.
Proof.
  intros H. unfold canvas_ids in H.
  repeat match goal with
         | H : Forall _ (_ :: _) |- _ =>
             apply Forall_cons in H; destruct H as [? H]
         end.
  unfold createVisualizations, createIntroVisualization,
    createFermiSphereVisualization, updateFermiSphereViz,
    createQuasiparticleVisualization, updateQuasiparticleViz,
    createInteractionVisualization, createTransportVisualization,
    mbind, js_bind.
  repeat (rewrite getCanvasContext_missing by assumption; cbn [mret js_ret]).
  reflexivity.
Qed.

(** ** createIntroVisualization *)

(** The samples of the loop, one by one: [k] and the occupation [n] as the
    loop computes them, and the pixel of the sample. *)
Lemma intro_samples :
  Forall (fun i =>
            intro_k i = (num (Z.of_nat i) / num 200) * num 2
            /\ (num 0 <= intro_k i) = true
            /\ (intro_k i <= num 2) = true
            /\ (intro_k i <= num 1) = (i <=? 100)%nat
            /\ intro_n i = (if intro_k i <= num 1 then num 1 else num 0)
            /\ intro_point (num 400) plot_margin (num 420) (num 320) i
               = ( num 60 + (intro_k i / num 2) * num 420,
                   if intro_k i <= num 1 then num 20 else num 340 ))
         (seq 0 201).
Proof. by_evaluation. Qed.

(** What the plot sends to a 500 x 400 canvas, operation by operation. *)
Lemma intro_ops_explicit (log : list ctx_op) :
  createIntroVisualization_ops
    {| width := num 500; height := num 400; received := log |}
  = [ clearRect (num 0) (num 0) (num 500) (num 400) ]
    ++ fst (drawAxes (num 500) (num 400) plot_margin "k/kF" "n(k)"
                     (num 2) (num 1))
    ++ [ set_strokeStyle "#3498db"; set_lineWidth (num 3); beginPath;
         moveTo (num 60) (num 20) ]
    ++ map (fun i => lineTo (num 60 + (intro_k i / num 2) * num 420) (num 20))
           (seq 1 100)
    ++ map (fun i => lineTo (num 60 + (intro_k i / num 2) * num 420) (num 340))
           (seq 101 100)
    ++ [ stroke;
         set_strokeStyle "#e74c3c"; set_lineWidth (num 2);
         setLineDash [num 5; num 5];
         beginPath; moveTo (num 270) (num 20); lineTo (num 270) (num 340);
         stroke;
         setLineDash [];
         set_fillStyle "#3498db"; set_font "16px Arial"; set_textAlign "center";
         fillText "Filled states" (num 165) (num 200);
         set_fillStyle "#e74c3c";
         fillText "Empty states" (num 375) (num 200);
         set_fillStyle "#e74c3c"; set_font "14px Arial";
         fillText "Fermi surface" (num 290) (num 50) ].
Proof. vm_compute. reflexivity. Qed.

(** C6. On a page that has the canvas [intro-viz],
    [createIntroVisualization] plots the occupation as an exact step
    function. The loop samples [k = (i / 200) * 2] for [i] from 0 to 200;
    every sample lies in [0, 2], the samples with [k <= 1] are those up to
    the 100th, and the occupation of a sample is 1 if [k <= 1] and 0
    otherwise. After the axes the context receives one path, stroked in
    blue ([beginPath], a [moveTo], 200 [lineTo]s, [stroke]): its point [i]
    is at the column [60 + (k / 2) * 420], in the row 20 (occupation 1,
    the top of the plot) for the samples up to the 100th and in the row 340
    (occupation 0, the axis) for the others. *)
Theorem intro_occupation_is_step (this : FermiFluidsVisualization)
    (doc : document) (c : canvas) :
  getElementById "intro-viz" doc = Some (HTMLCanvasElement c) ->
  (forall i : nat, (i <= 200)%nat ->
     intro_k i = (num (Z.of_nat i) / num 200) * num 2
     /\ (num 0 <= intro_k i) = true
     /\ (intro_k i <= num 2) = true
     /\ (intro_k i <= num 1) = (i <=? 100)%nat
     /\ intro_n i = (if intro_k i <= num 1 then num 1 else num 0)
     /\ intro_point (num 400) plot_margin (num 420) (num 320) i
        = ( num 60 + (intro_k i / num 2) * num 420,
            if intro_k i <= num 1 then num 20 else num 340 ))
  /\ createIntroVisualization this doc
     = Return tt
         (<["intro-viz" := HTMLCanvasElement
              {| width := num 500; height := num 400;
                 received :=
                   received c
                   ++ [ clearRect (num 0) (num 0) (num 500) (num 400) ]
                   ++ fst (drawAxes (num 500) (num 400) plot_margin
                                    "k/kF" "n(k)" (num 2) (num 1))
                   ++ [ set_strokeStyle "#3498db"; set_lineWidth (num 3);
                        beginPath;
                        moveTo (num 60) (num 20) ]
                   ++ map (fun i =>
                             lineTo (num 60
                                     + (((num (Z.of_nat i) / num 200) * num 2)
                                        / num 2) * num 420)
                                    (num 20))
                          (seq 1 100)
                   ++ map (fun i =>
                             lineTo (num 60
                                     + (((num (Z.of_nat i) / num 200) * num 2)
                                        / num 2) * num 420)
                                    (num 340))
                          (seq 101 100)
                   ++ [ stroke;
                        set_strokeStyle "#e74c3c"; set_lineWidth (num 2);
                        setLineDash [num 5; num 5];
                        beginPath;
                        moveTo (num 270) (num 20); lineTo (num 270) (num 340);
                        stroke;
                        setLineDash [];
                        set_fillStyle "#3498db"; set_font "16px Arial";
                        set_textAlign "center";
                        fillText "Filled states" (num 165) (num 200);
                        set_fillStyle "#e74c3c";
                        fillText "Empty states" (num 375) (num 200);
                        set_fillStyle "#e74c3c"; set_font "14px Arial";
                        fillText "Fermi surface" (num 290) (num 50) ] |}]>
            doc).
Proof.
  intros Hc. split.
  - intros i Hi. pose proof intro_samples as H.
    rewrite Forall_forall in H. apply H. apply elem_of_seq. lia.
  - unfold createIntroVisualization.
    rewrite (plot_on_canvas _ createIntroVisualization_ops _ _ Hc).
    rewrite (intro_ops_explicit (received c)). reflexivity.
Qed.


(** ** createInteractionVisualization *)

(** The loop over [angle] is independent of its bound once the condition
    fails after [n] turns. *)
Lemma interaction_arrows_bound (centerX centerY radius angleStep : number)
    (n : nat) :
  forall (angle : number) (fuel : nat),
    (forall k, (k < n)%nat ->
       (Nat.iter k (fun a => a + angleStep) angle < num 2 * Math_PI) = true) ->
    (Nat.iter n (fun a => a + angleStep) angle < num 2 * Math_PI) = false ->
    interaction_arrows (S n + fuel) centerX centerY radius angleStep angle
    = interaction_arrows (S n) centerX centerY radius angleStep angle.
Proof.
  induction n as [| n IH]; intros angle fuel Hin Hout.
  - cbn [Nat.iter nat_rect] in Hout. cbn [Nat.add interaction_arrows].
    rewrite Hout. reflexivity.
  - change (S (S n) + fuel)%nat with (S (S n + fuel)).
    cbn [interaction_arrows].
    pose proof (Hin 0%nat ltac:(lia)) as H0. cbn [Nat.iter nat_rect] in H0.
    rewrite H0. f_equal.
    apply IH.
    + intros k Hk. pose proof (Hin (S k) ltac:(lia)) as Hk'.
      rewrite Nat.iter_succ_r in Hk'. exact Hk'.
    + rewrite Nat.iter_succ_r in Hout. exact Hout.
Qed.

(** The loop of [createInteractionVisualization] ends by its condition
    after 16 turns, within the bound [interaction_fuel]. *)
Lemma interaction_loop_ends (centerX centerY radius : number) (fuel : nat) :
  interaction_arrows (17 + fuel) centerX centerY radius (Math_PI / num 8) (num 0)
  = interaction_arrows 17 centerX centerY radius (Math_PI / num 8) (num 0).
Proof.
  apply (interaction_arrows_bound centerX centerY radius (Math_PI / num 8) 16).
  - intros k Hk.
    do 16 (destruct k as [| k]; [ vm_compute; reflexivity | ]). lia.
  - vm_compute. reflexivity.
Qed.

Lemma interaction_arrows_S (centerX centerY radius angleStep angle : number)
    (fuel : nat) :
  interaction_arrows (S fuel) centerX centerY radius angleStep angle
  = if angle < num 2 * Math_PI then
      interaction_arrow centerX centerY radius angle
      ++ interaction_arrows fuel centerX centerY radius angleStep (angle + angleStep)
    else [].
Proof. reflexivity. Qed.

(** While the condition holds, each turn draws the arrow of its angle. *)
Lemma interaction_arrows_unroll (centerX centerY radius angleStep : number)
    (n : nat) :
  forall angle : number,
    (forall k, (k < n)%nat ->
       (Nat.iter k (fun a => a + angleStep) angle < num 2 * Math_PI) = true) ->
    (Nat.iter n (fun a => a + angleStep) angle < num 2 * Math_PI) = false ->
    interaction_arrows (S n) centerX centerY radius angleStep angle
    = flat_map (fun k => interaction_arrow centerX centerY radius
                           (Nat.iter k (fun a => a + angleStep) angle))
               (seq 0 n).
Proof.
  induction n as [| n IH]; intros angle Hin Hout.
  - cbn [Nat.iter nat_rect] in Hout. rewrite interaction_arrows_S, Hout.
    reflexivity.
  - rewrite interaction_arrows_S. cbn [seq flat_map].
    pose proof (Hin 0%nat ltac:(lia)) as H0. cbn [Nat.iter nat_rect] in H0.
    rewrite H0. cbn [Nat.iter nat_rect]. f_equal.
    rewrite <- seq_shift, flat_map_concat_map, map_map, <- flat_map_concat_map.
    rewrite IH.
    + apply flat_map_ext. intros k. rewrite Nat.iter_succ_r. reflexivity.
    + intros k Hk. pose proof (Hin (S k) ltac:(lia)) as Hk'.
      rewrite Nat.iter_succ_r in Hk'. exact Hk'.
    + rewrite Nat.iter_succ_r in Hout. exact Hout.
Qed.

(** The loop of [createInteractionVisualization] draws 16 arrows, at the
    angles that the repeated addition of [Math.PI / 8] to 0 yields, and
    then ends by its own condition: the 16th sum is not below
    [2 * Math.PI]. A larger bound on the number of turns changes nothing. *)
Theorem interaction_draws_sixteen_arrows (centerX centerY radius : number)
    (fuel : nat) :
  interaction_arrows (17 + fuel) centerX centerY radius (Math_PI / num 8) (num 0)
  = flat_map (fun k => interaction_arrow centerX centerY radius
                         (Nat.iter k (fun a => a + Math_PI / num 8) (num 0)))
             (seq 0 16).
Proof.
  rewrite interaction_loop_ends.
  apply (interaction_arrows_unroll centerX centerY radius (Math_PI / num 8) 16).
  - intros k Hk.
    do 16 (destruct k as [| k]; [ vm_compute; reflexivity | ]). lia.
  - vm_compute. reflexivity.
Qed.

(** ** updateQuasiparticleViz *)

Lemma one_plus_zero_over (m : number) :
  is_nan m = false -> (m === num 0) = false ->
  num 1 + (num 1 - num 1) / m = num 1.
Proof.
  destruct m as [s | s | | s mm e]; intros Hnan Hzero;
    try discriminate; destruct s; reflexivity.
Qed.

Lemma quasi_k_50 : quasi_k 50 = num 1.
Proof. vm_compute. reflexivity. Qed.

(** C7, as amended. The quasiparticle curve of [updateQuasiparticleViz] is
    [E(k) = 1 + (k - 1) / m*] with [m* = 1 + F / 3]; whenever [m*] is a
    number other than zero, the curve passes through the Fermi point: the
    sample of [k = 1] (the 50th) has energy exactly 1, and is plotted at
    the pixel (270, 180), where the lines of [kF] and [EF] cross. *)
Theorem quasiparticle_through_fermi_point (this : FermiFluidsVisualization) :
  is_nan (effectiveMass this) = false ->
  (effectiveMass this === num 0) = false ->
  (forall i,
     quasi_E this i
     = num 1 + (quasi_k i - num 1) / (num 1 + interactionStrength this / num 3))
  /\ quasi_k 50 = num 1
  /\ quasi_E this 50 = num 1
  /\ map (fun i => quasi_pixel (num 400) plot_margin (num 420) (num 320)
                     (quasi_k i) (quasi_E this i)) (upto quasi_steps) !! 50%nat
     = Some (num 270, num 180).
Proof.
  intros Hnan Hzero.
  assert (HE : quasi_E this 50 = num 1).
  { unfold quasi_E. rewrite quasi_k_50. apply one_plus_zero_over; assumption. }
  split; [ reflexivity | ]. split; [ exact quasi_k_50 | ]. split; [ exact HE | ].
  rewrite list_lookup_fmap.
  replace (upto quasi_steps !! 50%nat) with (Some 50%nat) by reflexivity.
  cbn [fmap option_fmap option_map]. rewrite HE, quasi_k_50. reflexivity.
Qed.

End Facts.


(** [no_canvas_no_drawing] on the empty page. *)
Lemma no_canvas_no_drawing_witness :
  @createVisualizations coarse_runtime initializeConstants ∅ = Return tt ∅.
Proof.
  apply (@no_canvas_no_drawing coarse_runtime initializeConstants ∅).
  vm_compute. repeat constructor.
Defined.

Lemma coarse_exp_nonneg : exp_nonneg coarse_runtime.
Proof.
  intros [s | [] | | [] m e] Hx; try discriminate; reflexivity.
Qed.

(** C10 at energy 2, chemical potential 1 and temperature 1/2, and at the
    energy [Infinity]. *)
Lemma fermiDirac_in_unit_interval_witness :
  ((num 0 <= @fermiDirac coarse_runtime (num 2) (num 1) (dec 5 1)) = true
   /\ (@fermiDirac coarse_runtime (num 2) (num 1) (dec 5 1) <= num 1) = true)
  /\ ((num 0 <= @fermiDirac coarse_runtime Infinity (num 1) (dec 5 1)) = true
      /\ (@fermiDirac coarse_runtime Infinity (num 1) (dec 5 1) <= num 1) = true).
Proof.
  split.
  - destruct (@fermiDirac_in_unit_interval coarse_runtime (num 2) (num 1) (dec 5 1))
      as (H0 & H1 & _).
    + exact coarse_exp_nonneg.
    + reflexivity.
    + left. repeat split.
    + split; assumption.
  - destruct (@fermiDirac_in_unit_interval coarse_runtime Infinity (num 1) (dec 5 1))
      as (H0 & H1 & _).
    + exact coarse_exp_nonneg.
    + reflexivity.
    + right. right. reflexivity.
    + split; assumption.
Defined.

(** Where the temperature is not 0 and the quotient
    [(energy - mu) / temperature] is not a number, neither is the result:
    for the energy [NaN]; for energy and chemical potential both
    [Infinity]; and for finite energy and chemical potential whose
    difference overflows, at the temperature [Infinity]. [NaN] is not in
    [0, 1]: every comparison with it is false. *)
Lemma fermiDirac_NaN_results :
  (forall rt : Runtime, exp_nan rt ->
     @fermiDirac rt NaN (num 0) (num 1) = NaN
     /\ @fermiDirac rt Infinity Infinity (num 1) = NaN
     /\ @fermiDirac rt MAX_VALUE (neg MAX_VALUE) Infinity = NaN)
  /\ (num 0 <= num 1) = true
  /\ (num 0 <= Infinity) = true
  /\ (num 0 <= NaN) = false
  /\ (NaN <= num 1) = false.
Proof.
  split; [ | repeat split ].
  intros rt Hnan. unfold fermiDirac.
  change (num 1 === num 0) with false.
  change (Infinity === num 0) with false.
  change ((NaN - num 0) / num 1) with NaN.
  change ((Infinity - Infinity) / num 1) with NaN.
  change ((MAX_VALUE - neg MAX_VALUE) / Infinity) with NaN.
  cbv iota. unfold exp_nan in Hnan. rewrite Hnan. repeat split.
Qed.

(** C6 on the tutorial's page: the plot is drawn, the 100th sample is the
    last of the filled states and the 101st the first of the empty ones. *)
Lemma intro_occupation_is_step_witness :
  getElementById "intro-viz" tutorial_page = Some (HTMLCanvasElement blank_canvas)
  /\ intro_n 100 = num 1
  /\ intro_n 101 = num 0
  /\ exists doc,
       @createIntroVisualization coarse_runtime initializeConstants tutorial_page
       = Return tt doc.
Proof.
  assert (Hc : getElementById "intro-viz" tutorial_page
               = Some (HTMLCanvasElement blank_canvas))
    by (vm_compute; reflexivity).
  destruct (@intro_occupation_is_step coarse_runtime initializeConstants
              tutorial_page blank_canvas Hc) as [Hsamples Hdrawn].
  split; [ exact Hc | ].
  destruct (Hsamples 100%nat ltac:(lia)) as (_ & _ & _ & _ & H100 & _).
  destruct (Hsamples 101%nat ltac:(lia)) as (_ & _ & _ & _ & H101 & _).
  split; [ exact H100 | ]. split; [ exact H101 | ].
  eexists. exact Hdrawn.
Defined.

(** C7 at the initial position of the slider ([F = 0], [m* = 1]). *)
Lemma quasiparticle_through_fermi_point_witness :
  quasi_k 50 = num 1 /\ quasi_E initializeConstants 50 = num 1.
Proof.
  destruct (quasiparticle_through_fermi_point initializeConstants)
    as (_ & Hk & HE & _).
  - vm_compute. reflexivity.
  - vm_compute. reflexivity.
  - split; assumption.
Defined.

(** C7, as stated, fails. With the interaction strength at -3 the effective
    mass is zero, and the energy plotted at [k = 1] is [0 / 0 + 1], which is
    [NaN], not 1. *)
Lemma zero_effective_mass_gives_NaN :
  interactionStrength at_minus_three = num (-3)
  /\ effectiveMass at_minus_three = num 0
  /\ quasi_k 50 = num 1
  /\ quasi_E at_minus_three 50 = NaN.
Proof. vm_compute. repeat split. Qed.

(** C9, as stated, fails. On [page_with_div] no canvas element has the id
    [intro-viz], since the element with that id is not a canvas; there
    [getCanvasContext] does not return [null] and
    [createIntroVisualization] throws. *)
Lemma element_that_is_no_canvas_throws :
  (forall c, getElementById "intro-viz" page_with_div <> Some (HTMLCanvasElement c))
  /\ getCanvasContext "intro-viz" page_with_div = Throw_TypeError
  /\ @createIntroVisualization coarse_runtime initializeConstants page_with_div
     = Throw_TypeError.
Proof.
  assert (H : getElementById "intro-viz" page_with_div = Some HTMLOtherElement).
  { unfold getElementById, page_with_div. apply lookup_insert_eq. }
  split; [ | split ].
  - intros c. rewrite H. discriminate.
  - unfold getCanvasContext. rewrite H. reflexivity.
  - unfold createIntroVisualization, mbind, js_bind, getCanvasContext.
    rewrite H. reflexivity.
Qed.

End ScriptFacts.


(* ================================================================== *)
(** * What fermiDirac reads *)
(* ================================================================== *)

Module MethodFacts.
Import Number Canvas Script Method.
Local Open Scope js_scope.

Section Facts.
Context {rt : Runtime}.

Lemma eval_same (sc1 sc2 : scope) (e : expr) :
  arguments sc1 = arguments sc2 ->
  fields_read e = [] ->
  Forall (fun x => is_Some (arguments sc1 !! x)) (identifiers e) ->
  eval sc1 e = eval sc2 e.
Proof.
  intros Hargs. induction e as [z | x | f | a IHa | a IHa b IHb | a IHa b IHb
    | a IHa b IHb | a IHa b IHb | a IHa b IHb | c IHc a IHa b IHb];
    cbn [fields_read identifiers eval]; intros Hf Hid.
  - reflexivity.
  - apply Forall_cons in Hid. destruct Hid as [[v Hv] _].
    unfold resolve. rewrite <- Hargs, Hv. reflexivity.
  - discriminate.
  - rewrite IHa by assumption. reflexivity.
  - apply app_eq_nil in Hf. destruct Hf. apply Forall_app in Hid. destruct Hid.
    rewrite IHa, IHb by assumption. reflexivity.
  - apply app_eq_nil in Hf. destruct Hf. apply Forall_app in Hid. destruct Hid.
    rewrite IHa, IHb by assumption. reflexivity.
  - apply app_eq_nil in Hf. destruct Hf. apply Forall_app in Hid. destruct Hid.
    rewrite IHa, IHb by assumption. reflexivity.
  - apply app_eq_nil in Hf. destruct Hf. apply Forall_app in Hid. destruct Hid.
    rewrite IHa, IHb by assumption. reflexivity.
  - apply app_eq_nil in Hf. destruct Hf. apply Forall_app in Hid. destruct Hid.
    rewrite IHa, IHb by assumption. reflexivity.
  - apply app_eq_nil in Hf. destruct Hf as [Hc Hf]. apply app_eq_nil in Hf.
    destruct Hf. apply Forall_app in Hid. destruct Hid as [Hic Hid].
    apply Forall_app in Hid. destruct Hid.
    rewrite IHc, IHa, IHb by assumption. reflexivity.
Qed.

Lemma run_same (sc1 sc2 : scope) (s : statement) :
  arguments sc1 = arguments sc2 ->
  flat_map fields_read (expressions s) = [] ->
  Forall (fun x => is_Some (arguments sc1 !! x))
         (flat_map identifiers (expressions s)) ->
  run sc1 s = run sc2 s.
Proof.
  intros Hargs. induction s as [e | c s1 IH1 s2 IH2];
    cbn [expressions flat_map run]; intros Hf Hid.
  - rewrite app_nil_r in Hf, Hid. apply eval_same; assumption.
  - rewrite flat_map_app in Hf, Hid.
    apply app_eq_nil in Hf. destruct Hf as [Hc Hf]. apply app_eq_nil in Hf.
    destruct Hf. apply Forall_app in Hid. destruct Hid as [Hic Hid].
    apply Forall_app in Hid. destruct Hid.
    rewrite (eval_same sc1 sc2 c) by assumption.
    rewrite IH1, IH2 by assumption. reflexivity.
Qed.

(** A parameter is bound by a call that passes as many arguments as the
    method has parameters. *)
Lemma formal_is_bound (xs : list string) (args : list value) (x : string) :
  length args = length xs -> x ∈ xs ->
  is_Some ((list_to_map (zip xs args) : gmap string value) !! x).
Proof.
  intros Hlen Hx.
  destruct (list_to_map (zip xs args) !! x) as [v |] eqn:Hv; [ eauto | ].
  apply not_elem_of_list_to_map_2 in Hv.
  rewrite fst_zip in Hv by lia. contradiction.
Qed.

(** A method that names no field of [this] and no identifier other than
    its parameters returns the same for the same arguments, whatever the
    object and the global scope. *)
Lemma call_reads_its_arguments_only (m : method) :
  instance_state_read m = [] -> global_state_read m = [] ->
  forall (this1 this2 : FermiFluidsVisualization)
         (globals1 globals2 : gmap string value) (args : list value),
    call m this1 globals1 args = call m this2 globals2 args.
Proof.
  intros Hi Hg this1 this2 globals1 globals2 args. unfold call.
  destruct (length args =? length (formals m))%nat eqn:Hlen; [ | reflexivity ].
  apply Nat.eqb_eq in Hlen.
  apply run_same; [ reflexivity | exact Hi | ].
  cbn [arguments]. apply Forall_forall. intros x Hx.
  apply formal_is_bound; [ exact Hlen | ].
  destruct (decide (x ∈ formals m)) as [Hin | Hout]; [ exact Hin | ].
  exfalso. unfold global_state_read in Hg.
  assert (Hmem : x ∈ filter (fun x => x ∉ formals m)
                        (flat_map identifiers (expressions (body m)))).
  { apply list_elem_of_filter. split; assumption. }
  rewrite Hg in Hmem. inversion Hmem.
Qed.

(** The evaluator follows the script on a body that does read the object:
    the initializer of [effectiveMass] has the value that
    [updateQuasiparticleViz] computes from the field. *)
Lemma effectiveMass_initializer_value (sc : scope) :
  eval sc effectiveMass_initializer
  = Some (NumberValue (effectiveMass (this_object sc))).
Proof. reflexivity. Qed.


End Facts.

(** An expression that names a field of [this] has a value that depends
    on the object: the initializer of [effectiveMass]. *)
Example effectiveMass_reads_the_object :
  @eval coarse_runtime
    {| this_object := initializeConstants; global_scope := ∅; arguments := ∅ |}
    effectiveMass_initializer = Some (NumberValue (num 1))
  /\ @eval coarse_runtime
       {| this_object := at_minus_three; global_scope := ∅; arguments := ∅ |}
       effectiveMass_initializer = Some (NumberValue (num 0))
  /\ fields_read effectiveMass_initializer = [ "interactionStrength" ].
Proof. vm_compute. repeat split. Qed.

End MethodFacts.


(* ================================================================== *)
(** * fermiDirac at the edges of its domain *)
(* ================================================================== *)

Module FermiFacts.
Import Number Canvas Script Builtins.
Local Open Scope js_scope.

Lemma sub_self (x : number) : is_finite x = true -> x - x = S754_zero false.
Proof.
  destruct x as [s | s | | s m e]; intros H; try discriminate.
  - destruct s; reflexivity.
  - unfold sub, SFsub. rewrite Z.sub_diag. reflexivity.
Qed.

Lemma zero_over (s : bool) (T : number) :
  is_nan T = false -> (T === num 0) = false ->
  exists s', S754_zero s / T = S754_zero s'.
Proof.
  destruct T as [sT | sT | | sT m e]; intros Hnan Hzero; try discriminate.
  - exists (xorb s sT). reflexivity.
  - exists (xorb s sT). reflexivity.
Qed.

(** ** Arithmetic on [NaN] *)

Lemma NaN_sub_l (y : number) : NaN - y = NaN.
Proof. destruct y; reflexivity. Qed.

Lemma NaN_sub_r (x : number) : x - NaN = NaN.
Proof. destruct x; reflexivity. Qed.

Lemma NaN_div_l (y : number) : NaN / y = NaN.
Proof. destruct y; reflexivity. Qed.

Lemma NaN_div_r (x : number) : x / NaN = NaN.
Proof. destruct x; reflexivity. Qed.

Lemma NaN_le_l (y : number) : (NaN <= y) = false.
Proof. destruct y; reflexivity. Qed.

Lemma NaN_le_r (x : number) : (x <= NaN) = false.
Proof. destruct x as [[] | [] | | [] m e]; reflexivity. Qed.

Lemma NaN_add_r (x : number) : x + NaN = NaN.
Proof. destruct x; reflexivity. Qed.

Lemma NaN_mul_l (y : number) : NaN * y = NaN.
Proof. destruct y; reflexivity. Qed.

Lemma is_nan_eq (x : number) : is_nan x = true -> x = NaN.
Proof. destruct x; intros H; try discriminate; reflexivity. Qed.

Section Facts.
Context {rt : Runtime}.

(** At the chemical potential the occupation is one half, at every
    temperature other than zero: [fermiDirac(mu, mu, T)] is 0.5 for every
    finite [mu] and every [T] that is a number other than zero, since
    [Math.exp(0)] is 1. *)
Theorem fermiDirac_half_at_mu (mu T : number) :
  exp_zero rt ->
  is_finite mu = true -> is_nan T = false -> (T === num 0) = false ->
  fermiDirac mu mu T = dec 5 1.
Proof.
  intros Hexp Hmu Hnan Hzero. unfold fermiDirac. rewrite Hzero.
  rewrite (sub_self mu Hmu).
  destruct (zero_over false T Hnan Hzero) as [s' ->].
  rewrite (Hexp s'). vm_compute. reflexivity.
Qed.

(** An argument that is not a number: at temperature zero the comparison
    of the energies is false and the result is 0; at every other
    temperature the result is [NaN], as is that of [Math.exp]. *)
Theorem fermiDirac_of_NaN (E mu T : number) :
  ((T === num 0) = true ->
     is_nan E = true \/ is_nan mu = true -> fermiDirac E mu T = num 0)
  /\ (exp_nan rt -> (T === num 0) = false ->
      is_nan E = true \/ is_nan mu = true \/ is_nan T = true ->
      fermiDirac E mu T = NaN).
Proof.
  unfold fermiDirac. split.
  - intros -> [H | H]; apply is_nan_eq in H; subst.
    + rewrite NaN_le_l. reflexivity.
    + rewrite NaN_le_r. reflexivity.
  - intros Hexp -> H.
    assert (Hq : (E - mu) / T = NaN).
    { destruct H as [H | [H | H]]; apply is_nan_eq in H; subst.
      - rewrite NaN_sub_l. apply NaN_div_l.
      - rewrite NaN_sub_r. apply NaN_div_l.
      - apply NaN_div_r. }
    rewrite Hq. unfold exp_nan in Hexp. rewrite Hexp. reflexivity.
Qed.

(** At a finite positive temperature a state of infinite energy is empty
    and one of infinitely negative energy is filled, exactly: the results
    are 0 and 1. *)
Theorem fermiDirac_at_infinite_energy (mu T : number) :
  exp_infinity rt ->
  is_finite mu = true -> is_finite T = true -> (num 0 < T) = true ->
  fermiDirac Infinity mu T = num 0
  /\ fermiDirac (neg Infinity) mu T = num 1.
Proof.
  intros [Hinf Hminf] Hmu HT Hpos. unfold fermiDirac.
  destruct T as [sT | sT | | sT m e]; try discriminate.
  destruct sT; [ vm_compute in Hpos; discriminate | ].
  assert (H1 : (Infinity - mu) / S754_finite false m e = Infinity).
  { destruct mu as [[] | | | [] mm em]; try discriminate; reflexivity. }
  assert (H2 : (neg Infinity - mu) / S754_finite false m e = neg Infinity).
  { destruct mu as [[] | | | [] mm em]; try discriminate; reflexivity. }
  change (S754_finite false m e === num 0) with false. cbv iota.
  rewrite H1, H2, Hinf, Hminf. split; vm_compute; reflexivity.
Qed.

(** Whatever its arguments, [fermiDirac] returns [NaN] or a number in
    [0, 1]: [NaN] exactly when the temperature is not zero and
    [(energy - mu) / temperature] is [NaN]. *)
Theorem fermiDirac_NaN_or_in_unit_interval (E mu T : number) :
  exp_nonneg rt -> exp_nan rt ->
  (is_nan (fermiDirac E mu T) = true
   <-> (T === num 0) = false /\ is_nan ((E - mu) / T) = true)
  /\ (is_nan (fermiDirac E mu T) = false ->
      (num 0 <= fermiDirac E mu T) = true
      /\ (fermiDirac E mu T <= num 1) = true).
Proof.
  intros Hexp Hnan. unfold fermiDirac.
  destruct (T === num 0) eqn:Hzero.
  - destruct (E <= mu); (split; [ split; [ discriminate | intros [? _]; discriminate ] | ]);
      intros _; split; reflexivity.
  - destruct (is_nan ((E - mu) / T)) eqn:Hq.
    + apply is_nan_eq in Hq. rewrite Hq.
      unfold exp_nan in Hnan. rewrite Hnan.
      change (num 1 / (NaN + num 1)) with NaN.
      split; [ split; [ intros _; split; reflexivity | reflexivity ] | discriminate ].
    + destruct (NumberFacts.reciprocal_of_one_plus _ (Hexp _ Hq)) as [H0 H1].
      assert (Hf : is_nan (num 1 / (Math_exp ((E - mu) / T) + num 1)) = false).
      { destruct (num 1 / (Math_exp ((E - mu) / T) + num 1)); try reflexivity.
        discriminate. }
      split; [ split; [ rewrite Hf; discriminate | intros [_ ?]; discriminate ] | ].
      intros _. split; assumption.
Qed.

End Facts.

Lemma coarse_exp_zero : exp_zero coarse_runtime.
Proof. intros s. reflexivity. Qed.

Lemma coarse_exp_infinity : exp_infinity coarse_runtime.
Proof. split; reflexivity. Qed.

(** [fermiDirac_half_at_mu] at chemical potential 1 and temperature 0.5. *)
Lemma fermiDirac_half_at_mu_witness :
  @fermiDirac coarse_runtime (num 1) (num 1) (dec 5 1) = dec 5 1.
Proof.
  apply (@fermiDirac_half_at_mu coarse_runtime (num 1) (dec 5 1)).
  - exact coarse_exp_zero.
  - reflexivity.
  - reflexivity.
  - reflexivity.
Defined.

(** [fermiDirac_at_infinite_energy] at chemical potential 1 and
    temperature 0.5. *)
Lemma fermiDirac_at_infinite_energy_witness :
  @fermiDirac coarse_runtime Infinity (num 1) (dec 5 1) = num 0
  /\ @fermiDirac coarse_runtime (neg Infinity) (num 1) (dec 5 1) = num 1.
Proof.
  apply (@fermiDirac_at_infinite_energy coarse_runtime (num 1) (dec 5 1)).
  - exact coarse_exp_infinity.
  - reflexivity.
  - reflexivity.
  - reflexivity.
Defined.

(** [fermiDirac_NaN_or_in_unit_interval] at energy 2, chemical potential 1
    and temperature 0.5. *)
Lemma fermiDirac_NaN_or_in_unit_interval_witness :
  (num 0 <= @fermiDirac coarse_runtime (num 2) (num 1) (dec 5 1)) = true
  /\ (@fermiDirac coarse_runtime (num 2) (num 1) (dec 5 1) <= num 1) = true.
Proof.
  destruct (@fermiDirac_NaN_or_in_unit_interval coarse_runtime
              (num 2) (num 1) (dec 5 1)) as [_ H].
  - exact ScriptFacts.coarse_exp_nonneg.
  - reflexivity.
  - apply H. reflexivity.
Defined.

End FermiFacts.


(* ================================================================== *)
(** * The effective mass *)
(* ================================================================== *)

Module MassFacts.
Import Number Canvas Script.
Local Open Scope js_scope.

Lemma add_comm_finite (s1 s2 : bool) (m1 m2 : positive) (e1 e2 : Z) :
  S754_finite s1 m1 e1 + S754_finite s2 m2 e2
  = S754_finite s2 m2 e2 + S754_finite s1 m1 e1.
Proof.
  unfold add, SFadd. change IntDef.Z.min with Z.min.
  rewrite (Z.min_comm e1 e2), Z.add_comm. reflexivity.
Qed.

(** Rounding a value that is not negative gives a number that is not
    negative. *)
Lemma round_aux_nonneg (mx ex : Z) (lx : location) :
  (0 <= mx)%Z ->
  (num 0 <= binary_round_aux prec emax false mx ex lx) = true.
Proof.
  intros Hm.
  destruct (NumberFacts.binary_round_aux_spec false mx ex lx Hm)
    as (m2 & Hm2 & _ & ->).
  cbv zeta.
  set (e1 := Z.max ex (fexp prec emax (Zdigits2 mx + ex))) in *.
  set (e2 := Z.max e1 (fexp prec emax (Zdigits2 m2 + e1))).
  assert (0 <= mx / 2 ^ (e1 - ex))%Z
    by (apply Z.div_pos; [ lia | apply Z.pow_pos_nonneg; lia ]).
  assert (0 <= m2 / 2 ^ (e2 - e1))%Z
    by (apply Z.div_pos; [ lia | apply Z.pow_pos_nonneg; lia ]).
  destruct (m2 / 2 ^ (e2 - e1))%Z; try lia; [ reflexivity | ].
  destruct (e2 <=? emax - prec)%Z; reflexivity.
Qed.

(** A finite number that is not negative, divided by a positive one. *)
Lemma div_nonneg (x : number) (m : positive) (e : Z) :
  is_finite x = true -> (num 0 <= x) = true ->
  (num 0 <= x / S754_finite false m e) = true.
Proof.
  intros Hfin Hx.
  destruct x as [s | s | | s mx ex]; try discriminate.
  - destruct s; reflexivity.
  - destruct s; [ discriminate | ].
    unfold div. cbn [SFdiv xorb]. unfold SFdiv_core_binary.
    change IntDef.Z.div_eucl with Z.div_eucl. change IntDef.Z.shiftl with Z.shiftl.
    match goal with
    | |- context [Z.div_eucl ?a (Zpos m)] =>
        assert (Ha : (0 <= a)%Z);
        [ | pose proof (Z_div_mod a (Zpos m) ltac:(lia)) as Hdm;
            destruct (Z.div_eucl a (Zpos m)) as [q r] ]
    end.
    + match goal with
      | |- (0 <= match ?s with _ => _ end)%Z => destruct s as [| sp | sp]
      end; try lia.
      apply Z.shiftl_nonneg. lia.
    + destruct Hdm as [Hq Hr]. apply round_aux_nonneg. nia.
Qed.

(** [1 + y] for a [y] that is not negative. *)
Lemma one_plus_at_least_one (y : number) :
  (num 0 <= y) = true -> at_least_one (num 1 + y).
Proof.
  intros Hy.
  destruct (NumberFacts.nonneg_cases y Hy) as [(s & ->) | [-> | (m & e & ->)]].
  - right. exists 4503599627370496%positive, (-52)%Z.
    split; [ destruct s; reflexivity | ]. vm_compute. repeat split; discriminate.
  - left. reflexivity.
  - rewrite NumberFacts.num_1_eq, add_comm_finite.
    apply NumberFacts.add_one_at_least_one.
Qed.

Lemma at_least_one_not_zero (z : number) :
  at_least_one z -> is_nan z = false /\ (z === num 0) = false.
Proof.
  intros [-> | (m & e & -> & _)]; split; reflexivity.
Qed.

Section Facts.
Context {rt : Runtime}.

(** For every interaction strength that is finite and not negative, the
    effective mass is at least one, and the quasiparticle curve passes
    through the Fermi point. *)
Theorem repulsion_keeps_the_fermi_point (this : FermiFluidsVisualization) :
  is_finite (interactionStrength this) = true ->
  (num 0 <= interactionStrength this) = true ->
  at_least_one (effectiveMass this)
  /\ quasi_E this 50 = num 1
  /\ quasi_pixel (num 400) plot_margin (num 420) (num 320)
       (quasi_k 50) (quasi_E this 50) = (num 270, num 180).
Proof.
  intros Hfin Hpos.
  assert (Hm : at_least_one (effectiveMass this)).
  { unfold effectiveMass. apply one_plus_at_least_one.
    change (num 3) with (S754_finite false 6755399441055744 (-51)).
    apply div_nonneg; assumption. }
  destruct (at_least_one_not_zero _ Hm) as [Hnan Hzero].
  assert (HE : quasi_E this 50 = num 1).
  { unfold quasi_E. rewrite ScriptFacts.quasi_k_50.
    apply ScriptFacts.one_plus_zero_over; assumption. }
  split; [ exact Hm | ]. split; [ exact HE | ].
  rewrite HE, ScriptFacts.quasi_k_50. vm_compute. reflexivity.
Qed.

End Facts.

(** [repulsion_keeps_the_fermi_point] with the interaction slider at 2. *)
Lemma repulsion_keeps_the_fermi_point_witness :
  quasi_E (on_interaction_input (num 2) initializeConstants) 50 = num 1.
Proof.
  destruct (repulsion_keeps_the_fermi_point
              (on_interaction_input (num 2) initializeConstants))
    as (_ & H & _).
  - reflexivity.
  - reflexivity.
  - exact H.
Defined.

End MassFacts.


(* ================================================================== *)
(** * Ranges of the results of the arithmetic *)
(* ================================================================== *)

Module RangeFacts.
Import Number Range NumberFacts.
Local Open Scope Z_scope.

Lemma pow2_pos (k : Z) : 0 <= k -> 0 < 2 ^ k.
Proof. intros. apply Z.pow_pos_nonneg; lia. Qed.

Lemma pow2_chain (a b c : Z) :
  a <= b -> b <= c -> 2 ^ (c - a) = 2 ^ (c - b) * 2 ^ (b - a).
Proof. intros. rewrite <- pow2_split by lia. f_equal. lia. Qed.

(** ** Rounding keeps below a bound *)

(** A value from [mx * 2^ex] to below [(mx + 1) * 2^ex] (exactly [mx * 2^ex] at the location
    [loc_Exact]) that is at most [M * 2^E] is rounded to a number that is at
    most [M * 2^E]. *)
Lemma round_at_most (M E mx ex : Z) (lx : location) :
  0 <= mx -> 0 < M < 2 ^ 53 -> -1074 <= E <= 971 -> ex <= E ->
  mx + 1 <= M * 2 ^ (E - ex) \/ (lx = loc_Exact /\ mx <= M * 2 ^ (E - ex)) ->
  at_most M E (binary_round_aux prec emax false mx ex lx).
Proof.
  intros Hmx HM HE Hex Hle.
  destruct (binary_round_aux_spec false mx ex lx Hmx) as (m2 & Hm2 & Hexact & ->).
  cbv zeta. rewrite !fexp_eq in *.
  assert (Hmx' : mx <= M * 2 ^ (E - ex)) by (destruct Hle as [? | [_ ?]]; lia).
  assert (Hp0 : 0 < 2 ^ (E - ex)) by (apply pow2_pos; lia).
  assert (Hd : Zdigits2 mx <= 53 + (E - ex)).
  { apply Zdigits2_le; [ lia | ]. split; [ lia | ].
    rewrite pow2_split by lia. nia. }
  set (e1 := Z.max ex (Z.max (Zdigits2 mx + ex - 53) (-1074))) in *.
  assert (He1 : ex <= e1 <= E) by (unfold e1; lia).
  assert (HP : 0 < 2 ^ (e1 - ex)) by (apply pow2_pos; lia).
  assert (HQ : 0 < 2 ^ (E - e1)) by (apply pow2_pos; lia).
  assert (Hsplit : 2 ^ (E - ex) = 2 ^ (E - e1) * 2 ^ (e1 - ex))
    by (apply pow2_chain; lia).
  assert (Hm1 : 0 <= mx / 2 ^ (e1 - ex)) by (apply Z.div_pos; lia).
  assert (Hm2' : 0 <= m2 <= M * 2 ^ (E - e1)).
  { split; [ lia | ].
    destruct (Z.eq_dec mx (M * 2 ^ (E - ex))) as [Heq | Hne].
    - assert (Hl : lx = loc_Exact) by (destruct Hle as [? | [? _]]; [ lia | assumption ]).
      assert (Hmul : mx = M * 2 ^ (E - e1) * 2 ^ (e1 - ex)) by (rewrite Heq, Hsplit; ring).
      rewrite (Hexact Hl) by (rewrite Hmul; apply Z.mod_mul; lia).
      rewrite Hmul, Z.div_mul by lia. lia.
    - assert (mx / 2 ^ (e1 - ex) < M * 2 ^ (E - e1)).
      { apply Z.div_lt_upper_bound; [ lia | ]. rewrite Hsplit in Hmx', Hne. nia. }
      lia. }
  assert (Hd2 : Zdigits2 m2 <= 53 + (E - e1)).
  { apply Zdigits2_le; [ lia | ]. split; [ lia | ].
    rewrite pow2_split by lia. nia. }
  set (e2 := Z.max e1 (Z.max (Zdigits2 m2 + e1 - 53) (-1074))).
  assert (He2 : e1 <= e2 <= E) by (unfold e2; lia).
  assert (HP2 : 0 < 2 ^ (e2 - e1)) by (apply pow2_pos; lia).
  assert (Hsplit2 : 2 ^ (E - e1) = 2 ^ (E - e2) * 2 ^ (e2 - e1))
    by (apply pow2_chain; lia).
  assert (Hm3 : 0 <= m2 / 2 ^ (e2 - e1) <= M * 2 ^ (E - e2)).
  { split; [ apply Z.div_pos; lia | ].
    apply Z.div_le_upper_bound; [ lia | ]. rewrite Hsplit2 in Hm2'. nia. }
  destruct (m2 / 2 ^ (e2 - e1)) as [| p | p]; try lia.
  - left. exists false. reflexivity.
  - assert (Hle2 : (e2 <=? emax - prec) = true).
    { apply Z.leb_le. change (emax - prec) with 971. lia. }
    rewrite Hle2. right. exists p, e2. split; [ reflexivity | ]. lia.
Qed.

(** ** Rounding keeps above a bound *)

(** Shifting a number of [d] digits right to 53 digits leaves at least
    [2^52]. *)
Lemma shift_to_53 (m : Z) :
  0 < m -> 53 <= Zdigits2 m -> 2 ^ 52 <= m / 2 ^ (Zdigits2 m - 53).
Proof.
  intros Hm Hd. destruct (Zdigits2_bounds m Hm) as [Hlo _].
  apply Z.div_le_lower_bound; [ apply pow2_pos; lia | ].
  rewrite Z.mul_comm, <- pow2_split by lia.
  replace (52 + (Zdigits2 m - 53)) with (Zdigits2 m - 1) by lia. exact Hlo.
Qed.

(** A value of at least [M * 2^E], a number of the format with a full
    mantissa, is rounded to a number that is at least [M * 2^E]. *)
Lemma round_at_least (M E mx ex : Z) (lx : location) :
  0 <= mx -> 2 ^ 52 <= M < 2 ^ 53 -> -1074 <= E ->
  (ex <= E /\ M * 2 ^ (E - ex) <= mx) \/ (E < ex /\ M <= mx * 2 ^ (ex - E)) ->
  at_least M E (binary_round_aux prec emax false mx ex lx).
Proof.
  intros Hmx HM HE Hge.
  destruct (binary_round_aux_spec false mx ex lx Hmx) as (m2 & Hm2 & _ & ->).
  cbv zeta. rewrite !fexp_eq in *.
  assert (Hpos : 0 < mx).
  { destruct Hge as [[Hex Hb] | [Hex Hb]].
    - pose proof (pow2_pos (E - ex) ltac:(lia)). nia.
    - destruct (Z.eq_dec mx 0) as [-> | ?]; lia. }
  destruct (Zdigits2_bounds mx Hpos) as [Hlo Hhi].
  pose proof (Zdigits2_nonneg mx) as Hd0.
  set (d := Zdigits2 mx) in *.
  assert (Hd : 53 + E <= d + ex).
  { destruct Hge as [[Hex Hb] | [Hex Hb]].
    - assert (Hpow : 2 ^ (52 + (E - ex)) <= mx).
      { rewrite pow2_split by lia. pose proof (pow2_pos (E - ex) ltac:(lia)). nia. }
      pose proof (Zdigits2_ge mx (52 + (E - ex)) ltac:(lia) Hpow) as Hdg.
      fold d in Hdg. lia.
    - destruct (Z_lt_le_dec (d + ex) (53 + E)) as [Hlt | ]; [ exfalso | lia ].
      assert (Hpow : 2 ^ (d + (ex - E)) <= 2 ^ 52) by (apply Z.pow_le_mono_r; lia).
      rewrite pow2_split in Hpow by lia.
      pose proof (pow2_pos (ex - E) ltac:(lia)). nia. }
  replace (Z.max (d + ex - 53) (-1074)) with (d + ex - 53) in * by lia.
  set (e1 := Z.max ex (d + ex - 53)) in *.
  assert (He1 : ex <= e1 /\ E <= e1) by (unfold e1; lia).
  set (m1 := mx / 2 ^ (e1 - ex)) in *.
  assert (Hm1 : 1 <= m1 /\ M <= m1 * 2 ^ (e1 - E)).
  { destruct (Z_le_gt_dec d 53) as [Hd53 | Hd53].
    - (* no shift *)
      assert (Hee : e1 = ex) by (unfold e1; lia).
      assert (Hmm : m1 = mx)
        by (unfold m1; replace (e1 - ex) with 0 by lia; apply Z.div_1_r).
      split; [ lia | ].
      destruct Hge as [[Hex Hb] | [Hex Hb]].
      + assert (E = ex) by lia. subst E.
        replace (e1 - ex) with 0 by lia. rewrite Z.sub_diag in Hb. cbn in *. lia.
      + replace (e1 - E) with (ex - E) by lia. lia.
    - (* a shift to 53 digits *)
      assert (Hee : e1 - ex = d - 53) by (unfold e1; lia).
      assert (Hbig : 2 ^ 52 <= m1).
      { unfold m1. rewrite Hee. apply shift_to_53; lia. }
      split; [ lia | ].
      destruct (Z.eq_dec e1 E) as [HeE | HeE].
      + destruct Hge as [[Hex Hb] | [Hex Hb]]; [ | lia ].
        replace (e1 - E) with 0 by lia. rewrite Z.mul_1_r.
        unfold m1. replace (e1 - ex) with (E - ex) by lia.
        apply Z.div_le_lower_bound; [ apply pow2_pos; lia | lia ].
      + assert (Hpow : 2 ^ 1 <= 2 ^ (e1 - E)) by (apply Z.pow_le_mono_r; lia).
        change (2 ^ 1) with 2 in *. nia. }
  assert (Hm2' : m1 <= m2) by (destruct Hm2 as [-> | ->]; fold m1; lia).
  assert (Hm2pos : 0 < m2) by lia.
  pose proof (Zdigits2_nonneg m2) as Hd20.
  set (d2 := Zdigits2 m2) in *.
  assert (HQ : 0 < 2 ^ (e1 - E)) by (apply pow2_pos; lia).
  set (e2 := Z.max e1 (Z.max (d2 + e1 - 53) (-1074))).
  assert (He2 : e1 <= e2) by (unfold e2; lia).
  assert (Hm3 : 1 <= m2 / 2 ^ (e2 - e1)
                /\ M <= m2 / 2 ^ (e2 - e1) * 2 ^ (e2 - E)).
  { destruct (Z.eq_dec e2 e1) as [Hee | Hne].
    - rewrite Hee, Z.sub_diag, Z.div_1_r. split; [ lia | nia ].
    - assert (Hee : e2 - e1 = d2 - 53) by (unfold e2 in *; lia).
      assert (Hbig : 2 ^ 52 <= m2 / 2 ^ (e2 - e1)).
      { rewrite Hee. apply shift_to_53; [ lia | fold d2; lia ]. }
      split; [ lia | ].
      assert (Hpow : 2 ^ 1 <= 2 ^ (e2 - E)) by (apply Z.pow_le_mono_r; lia).
      change (2 ^ 1) with 2 in *. nia. }
  destruct (m2 / 2 ^ (e2 - e1)) as [| p | p]; try lia.
  destruct (e2 <=? emax - prec).
  - right. exists p, e2. split; [ reflexivity | ]. lia.
  - left. reflexivity.
Qed.

(** ** Normalizing an exact value *)

(** [binary_round] of the exact value [p * 2^e], as [binary_normalize]
    calls it, keeps below and above bounds. *)
Lemma binary_round_at_most (p : positive) (e M E : Z) :
  0 < M < 2 ^ 53 -> -1074 <= E <= 971 -> e <= E ->
  Zpos p <= M * 2 ^ (E - e) ->
  at_most M E (binary_round prec emax false p e).
Proof.
  intros HM HE He Hp. unfold binary_round.
  destruct (shl_align_spec p e (fexp prec emax (Zpos (digits2_pos p) + e)))
    as [He0 Hmz].
  destruct (shl_align p e (fexp prec emax (Zpos (digits2_pos p) + e))) as [mz ez].
  cbn [fst snd] in *.
  assert (Hez : ez <= e) by lia.
  rewrite <- He0 in Hmz. clear He0.
  assert (HR : 0 < 2 ^ (e - ez)) by (apply pow2_pos; lia).
  apply round_at_most; try lia.
  right. split; [ reflexivity | ].
  rewrite (pow2_chain ez e E) by lia. nia.
Qed.

Lemma binary_round_at_least (p : positive) (e L LE : Z) :
  2 ^ 52 <= L < 2 ^ 53 -> -1074 <= LE ->
  (e <= LE /\ L * 2 ^ (LE - e) <= Zpos p) \/ (LE < e /\ L <= Zpos p * 2 ^ (e - LE)) ->
  at_least L LE (binary_round prec emax false p e).
Proof.
  intros HL HLE Hp. unfold binary_round.
  destruct (shl_align_spec p e (fexp prec emax (Zpos (digits2_pos p) + e)))
    as [He0 Hmz].
  destruct (shl_align p e (fexp prec emax (Zpos (digits2_pos p) + e))) as [mz ez].
  cbn [fst snd] in *.
  assert (Hez : ez <= e) by lia.
  rewrite <- He0 in Hmz. clear He0.
  assert (HR : 0 < 2 ^ (e - ez)) by (apply pow2_pos; lia).
  apply round_at_least; try lia.
  destruct (Z_le_gt_dec ez LE) as [Hle | Hgt]; [ left | right ]; (split; [ lia | ]).
  - destruct Hp as [[He Hb] | [He Hb]].
    + rewrite (pow2_chain ez e LE) by lia. nia.
    + assert (H1 : L * 2 ^ (LE - ez) <= Zpos p * 2 ^ (e - LE) * 2 ^ (LE - ez)).
      { apply Z.mul_le_mono_nonneg_r; [ apply Z.lt_le_incl, pow2_pos; lia | lia ]. }
      rewrite <- Z.mul_assoc, <- (pow2_chain ez LE e) in H1 by lia. lia.
  - destruct Hp as [[He Hb] | [He Hb]]; [ lia | ].
    rewrite Hmz, <- Z.mul_assoc, <- (pow2_chain LE ez e) by lia. exact Hb.
Qed.

(** ** Quotients, products, sums and differences *)

(** A number of at most [2^(52 + E)] divided by a number of at least 1 is
    at most [2^(52 + E)]. *)
Lemma div_at_most (E : Z) (x y : number) :
  -1074 <= E <= 971 ->
  at_most (2 ^ 52) E x -> at_least_one y ->
  at_most (2 ^ 52) E (div x y).
Proof.
  intros HE [(s & ->) | (mx & ex & -> & Hex & Hmx)]
            [-> | (my & ey & -> & Hmy & Hey)].
  - left. exists (xorb s false). reflexivity.
  - left. exists (xorb s false). reflexivity.
  - left. exists false. reflexivity.
  - unfold div. cbn [SFdiv xorb]. unfold SFdiv_core_binary.
    change IntDef.Z.min with Z.min. change IntDef.Z.div_eucl with Z.div_eucl.
    change IntDef.Z.shiftl with Z.shiftl.
    assert (Hdy : Zdigits2 (Zpos my) = 53).
    { apply Z.le_antisymm; [ apply Zdigits2_le; lia | apply (Zdigits2_ge _ 52); lia ]. }
    rewrite Hdy, fexp_eq.
    assert (Hmx' : Zpos mx <= 2 ^ (52 + (E - ex)))
      by (rewrite pow2_split by lia; exact Hmx).
    assert (Hdx : Zdigits2 (Zpos mx) <= 53 + (E - ex)).
    { apply Zdigits2_le; [ lia | ]. split; [ lia | ].
      replace (53 + (E - ex)) with (52 + (E - ex) + 1) by lia.
      rewrite pow2_succ by lia. lia. }
    pose proof (Zdigits2_nonneg (Zpos mx)) as Hdx0.
    set (d1 := Zdigits2 (Zpos mx)) in *.
    set (e' := Z.min (Z.max (d1 + ex - (53 + ey) - 53) (-1074)) (ex - ey)).
    assert (He' : e' <= E /\ e' <= ex - ey) by (unfold e'; lia).
    set (sh := ex - ey - e').
    assert (Hsh : 0 <= sh) by (unfold sh; lia).
    replace (match sh with
             | 0 => Zpos mx
             | Zpos _ => Z.shiftl (Zpos mx) sh
             | Zneg _ => 0
             end) with (Zpos mx * 2 ^ sh).
    2:{ destruct sh as [| p | p] eqn:Hs; try lia.
        rewrite Z.shiftl_mul_pow2 by lia. reflexivity. }
    assert (Hps : 0 < 2 ^ sh) by (apply pow2_pos; lia).
    pose proof (Z_div_mod (Zpos mx * 2 ^ sh) (Zpos my) ltac:(lia)) as Hdm.
    destruct (Z.div_eucl (Zpos mx * 2 ^ sh) (Zpos my)) as [q r].
    destruct Hdm as [Hq Hr].
    set (K := 2 ^ 52 * 2 ^ (E - e')).
    assert (HK : 0 < K).
    { unfold K. pose proof (pow2_pos (E - e') ltac:(lia)). lia. }
    assert (Hnum : Zpos mx * 2 ^ sh <= Zpos my * K).
    { assert (H1 : Zpos mx * 2 ^ sh <= 2 ^ (52 + (E - ex)) * 2 ^ sh) by nia.
      assert (E1 : 2 ^ (52 + (E - ex)) * 2 ^ sh = 2 ^ (52 + (E - ex) + sh))
        by (symmetry; apply pow2_split; lia).
      assert (H2 : 2 ^ (52 + (E - ex) + sh) <= 2 ^ (52 + (52 + (E - e'))))
        by (apply Z.pow_le_mono_r; unfold sh; lia).
      assert (E2 : 2 ^ (52 + (52 + (E - e'))) = 2 ^ 52 * K).
      { unfold K. rewrite (pow2_split 52 (52 + (E - e'))) by lia.
        rewrite (pow2_split 52 (E - e')) by lia. reflexivity. }
      nia. }
    assert (Hq0 : 0 <= q) by nia.
    assert (HqK : q <= K) by nia.
    apply round_at_most; try lia. fold K.
    destruct (Z.eq_dec q K) as [Heq | Hne]; [ right | left; lia ].
    split; [ | lia ].
    assert (r = 0) by nia. subst r. apply new_location_exact.
Qed.

(** A number of at most 1 times a positive number [c] is at most [c]. *)
Lemma mul_at_most (x : number) (M : positive) (E : Z) :
  at_most (2 ^ 52) (-52) x -> Zpos M < 2 ^ 53 -> -1074 <= E <= 971 ->
  at_most (Zpos M) E (mul x (S754_finite false M E)).
Proof.
  intros [(s & ->) | (mx & ex & -> & Hex & Hmx)] HM HE.
  - left. exists (xorb s false). reflexivity.
  - unfold mul. cbn [SFmul xorb].
    assert (Hmx' : Zpos mx <= 2 ^ (- ex)).
    { rewrite <- pow2_split in Hmx by lia.
      replace (52 + (-52 - ex)) with (- ex) in Hmx by lia. exact Hmx. }
    apply round_at_most; try lia.
    right. split; [ reflexivity | ].
    replace (E - (ex + E)) with (- ex) by lia.
    rewrite Pos2Z.inj_mul. nia.
Qed.

(** A positive number [c = Mc * 2^E] minus a number of at most
    [Mx * 2^E], smaller than [c]: the difference is at most [c], and at
    least every number of the format that [(Mc - Mx) * 2^E] is. *)
Lemma sub_in_range (Mc : positive) (Mx L E LE : Z) (x : number) :
  at_most Mx E x ->
  0 < Mx < Zpos Mc -> Zpos Mc < 2 ^ 53 -> 2 ^ 52 <= L < 2 ^ 53 ->
  -1074 <= LE <= E -> E <= 971 ->
  L <= (Zpos Mc - Mx) * 2 ^ (E - LE) ->
  at_most (Zpos Mc) E (sub (S754_finite false Mc E) x)
  /\ at_least L LE (sub (S754_finite false Mc E) x).
Proof.
  intros [(s & ->) | (m & e & -> & He & Hm)] HMx HMc HL HLE HE HLb.
  - cbn. split.
    + right. exists Mc, E. rewrite Z.sub_diag. split; [ reflexivity | lia ].
    + right. exists Mc, E. split; [ reflexivity | ].
      pose proof (pow2_pos (E - LE) ltac:(lia)). nia.
  - unfold sub. cbn [SFsub cond_Zopp].
    change IntDef.Z.min with Z.min.
    replace (Z.min E e) with e by lia.
    destruct (shl_align_spec Mc E e) as [_ Ha].
    destruct (shl_align_spec m e e) as [_ Hb].
    replace (Z.min E e) with e in Ha by lia.
    replace (Z.min e e) with e in Hb by lia.
    rewrite Z.sub_diag, Z.mul_1_r in Hb.
    set (a := fst (shl_align Mc E e)) in *.
    set (b := fst (shl_align m e e)) in *.
    assert (HP : 0 < 2 ^ (E - e)) by (apply pow2_pos; lia).
    assert (Hdiff : (Zpos Mc - Mx) * 2 ^ (E - e) <= Zpos a - Zpos b
                    /\ Zpos a - Zpos b < Zpos Mc * 2 ^ (E - e)) by nia.
    assert (Hpos : 0 < Zpos a - Zpos b) by nia.
    destruct (Zpos a - Zpos b) as [| p | p] eqn:Hp; try lia.
    cbn [binary_normalize]. split.
    + apply binary_round_at_most; lia.
    + apply binary_round_at_least; try lia.
      destruct (Z_le_gt_dec e LE) as [Hle | Hgt]; [ left | right ]; (split; [ lia | ]).
      * assert (H1 : L * 2 ^ (LE - e) <= (Zpos Mc - Mx) * 2 ^ (E - LE) * 2 ^ (LE - e)).
        { apply Z.mul_le_mono_nonneg_r; [ apply Z.lt_le_incl, pow2_pos; lia | lia ]. }
        rewrite <- Z.mul_assoc, <- (pow2_chain e LE E) in H1 by lia. lia.
      * assert (H1 : (Zpos Mc - Mx) * 2 ^ (E - e) * 2 ^ (e - LE)
                     <= Zpos p * 2 ^ (e - LE)).
        { apply Z.mul_le_mono_nonneg_r; [ apply Z.lt_le_incl, pow2_pos; lia | lia ]. }
        rewrite <- Z.mul_assoc, <- (pow2_chain LE e E) in H1 by lia. lia.
Qed.

(** ** Weaker bounds *)

Lemma at_most_weaken (M E M' E' : Z) (x : number) :
  at_most M E x -> E <= E' -> M <= M' * 2 ^ (E' - E) ->
  at_most M' E' x.
Proof.
  intros [(s & ->) | (m & e & -> & He & Hm)] HE HMM.
  - left. exists s. reflexivity.
  - right. exists m, e. split; [ reflexivity | ]. split; [ lia | ].
    rewrite (pow2_chain e E E') by lia.
    pose proof (pow2_pos (E - e) ltac:(lia)).
    assert (H1 : M * 2 ^ (E - e) <= M' * 2 ^ (E' - E) * 2 ^ (E - e))
      by (apply Z.mul_le_mono_nonneg_r; lia).
    lia.
Qed.

Lemma at_least_weaken (M E M' E' : Z) (x : number) :
  at_least M E x -> E' <= E -> M' <= M * 2 ^ (E - E') ->
  at_least M' E' x.
Proof.
  intros [-> | (m & e & -> & He & Hm)] HE HMM.
  - left. reflexivity.
  - right. exists m, e. split; [ reflexivity | ]. split; [ lia | ].
    rewrite (pow2_chain E' E e) by lia.
    pose proof (pow2_pos (E - E') ltac:(lia)).
    assert (H1 : M * 2 ^ (E - E') <= Zpos m * 2 ^ (e - E) * 2 ^ (E - E'))
      by (apply Z.mul_le_mono_nonneg_r; lia).
    lia.
Qed.

(** ** Negative numbers *)

(** Rounding does not depend on the sign. *)
Lemma round_aux_opp (mx ex : Z) (lx : location) :
  binary_round_aux prec emax true mx ex lx
  = SFopp (binary_round_aux prec emax false mx ex lx).
Proof.
  unfold binary_round_aux.
  destruct (shr_fexp prec emax mx ex lx) as [mrs' e'].
  destruct (shr_fexp prec emax _ e' loc_Exact) as [mrs'' e''].
  destruct (shr_m mrs''); try reflexivity.
  destruct (e'' <=? emax - prec); reflexivity.
Qed.

Lemma div_opp (m : positive) (e : Z) (y : number) :
  at_least_one y ->
  div (S754_finite true m e) y = SFopp (div (S754_finite false m e) y).
Proof.
  intros [-> | (my & ey & -> & _)]; [ reflexivity | ].
  unfold div. cbn [SFdiv xorb].
  destruct (SFdiv_core_binary prec emax (Zpos m) e (Zpos my) ey) as [[mz ez] lz].
  apply round_aux_opp.
Qed.

Lemma add_opp (c m : positive) (E e : Z) :
  add (S754_finite false c E) (S754_finite true m e)
  = sub (S754_finite false c E) (S754_finite false m e).
Proof. reflexivity. Qed.

(** ** One plus a small number *)

(** [1 + r] for [r] of at most one half lies between 1 and 1.5. *)
Lemma one_plus_in_range (r : number) :
  at_most (2 ^ 52) (-53) r ->
  at_least (2 ^ 52) (-52) (add (num 1) r)
  /\ at_most (3 * 2 ^ 51) (-52) (add (num 1) r).
Proof.
  rewrite num_1_eq.
  intros [(s & ->) | (m & e & -> & He & Hm)].
  - cbn. split; right; exists 4503599627370496%positive, (-52);
      (split; [ reflexivity | ]); cbn; lia.
  - unfold add. cbn [SFadd cond_Zopp].
    change IntDef.Z.min with Z.min.
    replace (Z.min (-52) e) with e by lia.
    destruct (shl_align_spec 4503599627370496 (-52) e) as [_ Ha].
    destruct (shl_align_spec m e e) as [_ Hb].
    replace (Z.min (-52) e) with e in Ha by lia.
    replace (Z.min e e) with e in Hb by lia.
    rewrite Z.sub_diag, Z.mul_1_r in Hb.
    set (a := fst (shl_align 4503599627370496 (-52) e)) in *.
    set (b := fst (shl_align m e e)) in *.
    change (Zpos 4503599627370496) with (2 ^ 52) in Ha.
    change (Zpos a + Zpos b) with (Zpos (a + b)).
    cbn [binary_normalize].
    assert (HP : 0 < 2 ^ (-53 - e)) by (apply pow2_pos; lia).
    assert (E1 : 2 ^ (-52 - e) = 2 * 2 ^ (-53 - e)).
    { replace (-52 - e) with (-53 - e + 1) by lia. apply pow2_succ. lia. }
    split.
    + apply binary_round_at_least; [ lia | lia | ].
      left. split; [ lia | ]. rewrite Pos2Z.inj_add. lia.
    + apply binary_round_at_most; [ lia | lia | lia | ].
      rewrite Pos2Z.inj_add. lia.
Qed.

End RangeFacts.


(* ================================================================== *)
(** * The plots and the document *)
(* ================================================================== *)

Module PlotsFacts.
Import Number Canvas Script Plots.
Local Open Scope js_scope.

(** A plot: look the canvas up, return when it is missing, draw otherwise
    (the common shape of the five methods). *)
Lemma plot_cases (id : string) (ops : canvas -> list ctx_op) (doc : document) :
  (result ← getCanvasContext id;
   match result with
   | None => mret tt
   | Some (id', canvas) => draw id' (ops canvas)
   end) doc
  = match getElementById id doc with
    | None => Return tt doc
    | Some HTMLOtherElement => Throw_TypeError
    | Some (HTMLCanvasElement c) => Return tt (<[id := plotted ops c]> doc)
    end.
Proof.
  unfold mbind, js_bind, getCanvasContext.
  destruct (getElementById id doc) as [[c |] |] eqn:H; try reflexivity.
  cbv zeta. unfold draw. rewrite lookup_insert_eq. cbn.
  rewrite insert_insert_eq. reflexivity.
Qed.

Lemma js_bind_ext {A B : Type} (m : js A) (k1 k2 : A -> js B) (doc : document) :
  (forall a d, k1 a d = k2 a d) -> (m ≫= k1) doc = (m ≫= k2) doc.
Proof.
  intros H. unfold mbind, js_bind. destruct (m doc); [ apply H | reflexivity ].
Qed.

Lemma js_bind_unit (m : js unit) (doc : document) :
  (m ≫= fun _ => mret tt) doc = m doc.
Proof.
  unfold mbind, js_bind. destruct (m doc) as [[] d |]; reflexivity.
Qed.

Lemma plot_of_not_in (ps : list (string * (canvas -> list ctx_op))) (id : string) :
  id ∉ ps.*1 -> plot_of ps id = None.
Proof.
  induction ps as [| [id' ops] ps IH]; intros Hid; [ reflexivity | ].
  cbn in *. apply not_elem_of_cons in Hid as [Hne Hid].
  destruct (decide (id' = id)) as [-> | _]; [ contradiction | auto ].
Qed.

(** What a list of plots with distinct ids does to a document: it throws
    when one of the ids names an element that is no canvas; otherwise it
    returns, and each element is as it was, except that a canvas that one
    of the plots looks up is as that plot leaves it. *)
Lemma plots_in_turn_cases (ps : list (string * (canvas -> list ctx_op))) :
  NoDup ps.*1 ->
  forall doc : document,
    match plots_in_turn ps doc with
    | Throw_TypeError =>
        Exists (fun p => getElementById p.1 doc = Some HTMLOtherElement) ps
    | Return _ doc' =>
        Forall (fun p => getElementById p.1 doc <> Some HTMLOtherElement) ps
        /\ forall id,
             getElementById id doc'
             = match getElementById id doc, plot_of ps id with
               | Some (HTMLCanvasElement c), Some ops => Some (plotted ops c)
               | e, _ => e
               end
    end.
Proof.
  unfold getElementById.
  induction ps as [| [id0 ops0] ps IH]; intros Hnd doc.
  - cbn. split; [ constructor | ]. intros id.
    destruct (doc !! id) as [[c |] |]; reflexivity.
  - apply NoDup_cons in Hnd as [Hnotin Hnd].
    change (id0 ∉ ps.*1) in Hnotin. change (NoDup ps.*1) in Hnd.
    specialize (IH Hnd).
    cbn [plots_in_turn]. unfold mbind at 1. unfold js_bind at 1.
    rewrite plot_cases. unfold getElementById.
    destruct (doc !! id0) as [[c |] |] eqn:H0.
    + (* a canvas *)
      specialize (IH (<[id0 := plotted ops0 c]> doc)).
      assert (Hother : forall p, p ∈ ps ->
                (<[id0 := plotted ops0 c]> doc) !! p.1 = doc !! p.1).
      { intros p Hp. apply lookup_insert_ne. intros Heq. apply Hnotin.
        rewrite Heq. apply (list_elem_of_fmap_2 fst). exact Hp. }
      destruct (plots_in_turn ps (<[id0 := plotted ops0 c]> doc)) as [[] doc' |].
      * destruct IH as [Hall Hpt]. split.
        -- constructor; [ cbn; rewrite H0; discriminate | ].
           apply Forall_forall. intros p Hp.
           rewrite <- (Hother p Hp). revert p Hp. apply Forall_forall. exact Hall.
        -- intros id. rewrite Hpt. cbn [plot_of].
           destruct (decide (id0 = id)) as [<- | Hne].
           ++ rewrite lookup_insert_eq, H0, (plot_of_not_in ps id0 Hnotin).
              reflexivity.
           ++ rewrite lookup_insert_ne by exact Hne. reflexivity.
      * apply Exists_cons_tl. apply Exists_exists in IH as (p & Hp & Hx).
        apply Exists_exists. exists p. split; [ exact Hp | ].
        rewrite <- (Hother p Hp). exact Hx.
    + (* an element that is no canvas *)
      apply Exists_cons_hd. exact H0.
    + (* no element *)
      specialize (IH doc).
      destruct (plots_in_turn ps doc) as [[] doc' |].
      * destruct IH as [Hall Hpt]. split.
        -- constructor; [ cbn; rewrite H0; discriminate | exact Hall ].
        -- intros id. rewrite Hpt. cbn [plot_of].
           destruct (decide (id0 = id)) as [<- | Hne]; [ | reflexivity ].
           rewrite H0. reflexivity.
      * apply Exists_cons_tl. exact IH.
Qed.

Section Facts.
Context {rt : Runtime}.

Lemma createVisualizations_in_turn (this : FermiFluidsVisualization) (doc : document) :
  createVisualizations this doc = plots_in_turn (plots this) doc.
Proof.
  unfold createVisualizations, plots, plots_in_turn.
  do 4 (apply js_bind_ext; intros _ ?).
  symmetry. apply js_bind_unit.
Qed.

Lemma plots_ids (this : FermiFluidsVisualization) : (plots this).*1 = canvas_ids.
Proof. reflexivity. Qed.

Lemma canvas_ids_NoDup : NoDup canvas_ids.
Proof. apply (bool_decide_unpack _). vm_compute. exact I. Qed.

(** ** getCanvasContext *)

(** On a canvas element [getCanvasContext] returns the canvas, set to
    500 x 400 whatever its size was; its context keeps what it had
    received, no other element changes, and a second call changes nothing
    more. *)
Theorem getCanvasContext_resizes (id : string) (doc : document) (c : canvas) :
  getElementById id doc = Some (HTMLCanvasElement c) ->
  exists c' doc',
    getCanvasContext id doc = Return (Some (id, c')) doc'
    /\ width c' = num 500 /\ height c' = num 400
    /\ received c' = received c
    /\ getElementById id doc' = Some (HTMLCanvasElement c')
    /\ (forall id', id' <> id -> getElementById id' doc' = getElementById id' doc)
    /\ getCanvasContext id doc' = Return (Some (id, c')) doc'.
Proof.
  intros Hc. unfold getCanvasContext at 1. rewrite Hc.
  eexists _, _. split; [ reflexivity | ].
  unfold getElementById in *.
  repeat split.
  - apply lookup_insert_eq.
  - intros id' Hne. apply lookup_insert_ne. congruence.
  - unfold getCanvasContext, getElementById. rewrite lookup_insert_eq.
    cbn. rewrite insert_insert_eq. reflexivity.
Qed.

(** ** The callback of createVisualizationsSafely *)

(** The callback throws exactly when one of the five ids names an element
    that is not a canvas. *)
Theorem createVisualizations_throws_iff (this : FermiFluidsVisualization)
    (doc : document) :
  createVisualizations this doc = Throw_TypeError
  <-> Exists (fun id => getElementById id doc = Some HTMLOtherElement) canvas_ids.
Proof.
  rewrite createVisualizations_in_turn.
  pose proof (plots_in_turn_cases (plots this)) as H.
  rewrite plots_ids in H. specialize (H canvas_ids_NoDup doc).
  rewrite <- (plots_ids this), Exists_fmap.
  destruct (plots_in_turn (plots this) doc) as [[] doc' |].
  - destruct H as [Hall _]. split; [ discriminate | ].
    intros Hex. apply Exists_exists in Hex as (p & Hp & Hx).
    rewrite Forall_forall in Hall. destruct (Hall p Hp Hx).
  - split; [ intros _; exact H | reflexivity ].
Qed.

(** When the callback returns, each element is as it was, except that each
    of the five canvases that the page has is 500 x 400 and has received,
    after what it had received, the operations of its plot. *)
Theorem createVisualizations_effect (this : FermiFluidsVisualization)
    (doc doc' : document) :
  createVisualizations this doc = Return tt doc' ->
  forall id,
    getElementById id doc'
    = match getElementById id doc, plot_of (plots this) id with
      | Some (HTMLCanvasElement c), Some ops => Some (plotted ops c)
      | e, _ => e
      end.
Proof.
  rewrite createVisualizations_in_turn. intros Hret.
  pose proof (plots_in_turn_cases (plots this)) as H.
  rewrite plots_ids in H. specialize (H canvas_ids_NoDup doc).
  rewrite Hret in H. apply H.
Qed.

(** Each plot starts by clearing the canvas in its full size: whatever
    size the canvas had and whatever its context had received, the first
    operation that the plot adds is [clearRect(0, 0, 500, 400)], on a
    canvas that is 500 x 400. *)
Theorem plots_clear_the_canvas (this : FermiFluidsVisualization) (c : canvas) :
  Forall (fun p => exists rest,
            plotted (snd p) c
            = HTMLCanvasElement
                {| width := num 500; height := num 400;
                   received :=
                     received c
                     ++ clearRect (num 0) (num 0) (num 500) (num 400) :: rest |})
         (plots this).
Proof.
  unfold plots, plotted. cbv zeta. repeat constructor; cbn [snd].
  - unfold createIntroVisualization_ops. cbv zeta.
    rewrite (surjective_pairing (drawAxes _ _ _ _ _ _ _)).
    rewrite (surjective_pairing (snd (drawAxes _ _ _ _ _ _ _))).
    eexists. reflexivity.
  - unfold updateFermiSphereViz_ops. cbv zeta.
    rewrite (surjective_pairing (drawAxes _ _ _ _ _ _ _)).
    rewrite (surjective_pairing (snd (drawAxes _ _ _ _ _ _ _))).
    eexists. reflexivity.
  - eexists. reflexivity.
  - eexists. reflexivity.
  - unfold createTransportVisualization_ops. cbv zeta.
    rewrite (surjective_pairing (drawAxes _ _ _ _ _ _ _)).
    rewrite (surjective_pairing (snd (drawAxes _ _ _ _ _ _ _))).
    eexists. reflexivity.
Qed.

End Facts.

(** [createVisualizations_effect] on the tutorial's page. *)
Lemma createVisualizations_effect_witness :
  exists doc',
    @createVisualizations coarse_runtime initializeConstants tutorial_page
    = Return tt doc'
    /\ getElementById "transport-viz" doc'
       = Some (plotted (@createTransportVisualization_ops coarse_runtime)
                 blank_canvas).
Proof.
  destruct (@createVisualizations coarse_runtime initializeConstants tutorial_page)
    as [[] doc' |] eqn:Hrun.
  - exists doc'. split; [ reflexivity | ].
    rewrite (@createVisualizations_effect coarse_runtime initializeConstants
               tutorial_page doc' Hrun "transport-viz").
    reflexivity.
  - exfalso. rewrite createVisualizations_in_turn in Hrun.
    pose proof (plots_in_turn_cases (@plots coarse_runtime initializeConstants)
                  canvas_ids_NoDup tutorial_page) as H.
    rewrite Hrun in H. unfold plots in H.
    rewrite !Exists_cons, Exists_nil in H. cbn [fst] in H.
    destruct H as [H | [H | [H | [H | [H | []]]]]]; vm_compute in H; discriminate.
Defined.

(** [getCanvasContext_resizes] on the tutorial's page. *)
Lemma getCanvasContext_resizes_witness :
  exists c' doc',
    getCanvasContext "intro-viz" tutorial_page = Return (Some ("intro-viz", c')) doc'
    /\ width c' = num 500 /\ height c' = num 400.
Proof.
  destruct (getCanvasContext_resizes "intro-viz" tutorial_page blank_canvas)
    as (c' & doc' & H1 & H2 & H3 & _).
  - vm_compute. reflexivity.
  - exists c', doc'. auto.
Defined.

End PlotsFacts.


(* ================================================================== *)
(** * How the plots use the context *)
(* ================================================================== *)

Module DrawingFacts.
Import Number Canvas Script Drawing.
Local Open Scope js_scope.

Lemma accepts_app {S : Type} (step : S -> ctx_op -> option S) (s : S)
    (ops ops' : list ctx_op) :
  accepts step s (ops ++ ops')
  = match accepts step s ops with
    | Some s' => accepts step s' ops'
    | None => None
    end.
Proof.
  revert s. induction ops as [| op ops IH]; intros s; cbn; [ reflexivity | ].
  destruct (step s op); [ apply IH | reflexivity ].
Qed.

(** Operations that leave the context as it is. *)
Lemma accepts_unchanged {S : Type} (step : S -> ctx_op -> option S) (s : S)
    (ops : list ctx_op) :
  Forall (fun op => step s op = Some s) ops -> accepts step s ops = Some s.
Proof.
  induction 1 as [| op ops Hop _ IH]; cbn; [ reflexivity | ].
  rewrite Hop. exact IH.
Qed.

(** A path through points is a [moveTo] followed by [lineTo]s. *)
Lemma polyline_cons (p : number * number) (points : list (number * number)) :
  polyline (p :: points)
  = moveTo (fst p) (snd p) :: map (fun q => lineTo (fst q) (snd q)) points.
Proof.
  unfold polyline. destruct p as [x y]. cbn [imap Nat.eqb fst snd]. f_equal.
  induction points as [| [x' y'] points IH] using rev_ind; [ reflexivity | ].
  rewrite imap_app, map_app, IH. reflexivity.
Qed.

Lemma polyline_path (points : list (number * number)) :
  points <> [] -> accepts path_step Begun (polyline points) = Some Built.
Proof.
  destruct points as [| p points]; [ congruence | intros _ ].
  rewrite polyline_cons. cbn [accepts path_step].
  apply accepts_unchanged, Forall_forall. intros op Hop.
  apply list_elem_of_fmap_1 in Hop as (q & -> & _). reflexivity.
Qed.

Lemma polyline_frame (f : frame) (points : list (number * number)) :
  turned f = false -> accepts frame_step f (polyline points) = Some f.
Proof.
  intros Hf. apply accepts_unchanged, Forall_forall. intros op Hop.
  unfold polyline in Hop. apply list_elem_of_lookup_1 in Hop as [i Hi].
  rewrite list_lookup_imap in Hi.
  destruct (points !! i) as [[x y] |]; [ | discriminate ].
  cbn in Hi. injection Hi as <-.
  destruct (Nat.eqb i 0); cbn; rewrite Hf; reflexivity.
Qed.

Section Facts.
Context {rt : Runtime}.

(** The loop over the angles, whatever the number of its turns and the
    angle it starts from. *)
Lemma interaction_arrows_path (fuel : nat)
    (centerX centerY radius angleStep angle : number) :
  accepts path_step Painted
    (interaction_arrows fuel centerX centerY radius angleStep angle)
  = Some Painted.
Proof.
  revert angle. induction fuel as [| fuel IH]; intros angle; [ reflexivity | ].
  cbn [interaction_arrows].
  destruct (angle < num 2 * Math_PI); [ | reflexivity ].
  rewrite accepts_app. cbn. apply IH.
Qed.

Lemma interaction_arrows_unchanged {S : Type} (step : S -> ctx_op -> option S)
    (s : S) :
  (forall centerX centerY radius angle,
     accepts step s (interaction_arrow centerX centerY radius angle) = Some s) ->
  forall (fuel : nat) (centerX centerY radius angleStep angle : number),
    accepts step s (interaction_arrows fuel centerX centerY radius angleStep angle)
    = Some s.
Proof.
  intros Harrow fuel centerX centerY radius angleStep.
  induction fuel as [| fuel IH]; intros angle; [ reflexivity | ].
  cbn [interaction_arrows].
  destruct (angle < num 2 * Math_PI); [ | reflexivity ].
  rewrite accepts_app, Harrow. apply IH.
Qed.

(** [drawAxes], whatever its arguments. *)
Lemma drawAxes_path (p : path) (width height : number) (margin : Margin)
    (xLabel yLabel : string) (xMax yMax : number) :
  accepts path_step p
    (fst (drawAxes width height margin xLabel yLabel xMax yMax))
  = Some Painted.
Proof. reflexivity. Qed.

Lemma drawAxes_frame (f : frame) (width height : number) (margin : Margin)
    (xLabel yLabel : string) (xMax yMax : number) :
  turned f = false ->
  accepts frame_step f
    (fst (drawAxes width height margin xLabel yLabel xMax yMax))
  = Some f.
Proof.
  intros Hf. destruct f as [t d st]. cbn in Hf. subst t. reflexivity.
Qed.

(** Every path is begun afresh. Whatever path the context holds when
    [drawAxes] or one of the plots starts, each path that they build is
    begun with [beginPath], gets its first point by [moveTo] or [arc], has
    a point when it is stroked or filled, and gets no point after it was
    painted. *)
Theorem plots_begin_their_paths (this : FermiFluidsVisualization) (c : canvas)
    (p : path) (width height : number) (margin : Margin)
    (xLabel yLabel : string) (xMax yMax : number) :
  accepts path_step p
    (fst (drawAxes width height margin xLabel yLabel xMax yMax))
  = Some Painted
  /\ accepts path_step p (createIntroVisualization_ops c) = Some Painted
  /\ accepts path_step p (updateFermiSphereViz_ops this c) = Some Painted
  /\ accepts path_step p (updateQuasiparticleViz_ops this c) = Some Painted
  /\ accepts path_step p (createInteractionVisualization_ops c) = Some Painted
  /\ accepts path_step p (createTransportVisualization_ops c) = Some Painted.
Proof.
  repeat apply conj.
  - apply drawAxes_path.
  - unfold createIntroVisualization_ops. cbv zeta.
    rewrite (surjective_pairing (drawAxes _ _ _ _ _ _ _)).
    rewrite (surjective_pairing (snd (drawAxes _ _ _ _ _ _ _))).
    cbn [accepts app path_step].
    rewrite accepts_app, drawAxes_path. cbn [accepts app path_step].
    rewrite accepts_app, polyline_path by discriminate. reflexivity.
  - unfold updateFermiSphereViz_ops. cbv zeta.
    rewrite (surjective_pairing (drawAxes _ _ _ _ _ _ _)).
    rewrite (surjective_pairing (snd (drawAxes _ _ _ _ _ _ _))).
    cbn [accepts app path_step].
    rewrite accepts_app, drawAxes_path. cbn [accepts app path_step].
    rewrite accepts_app, polyline_path by discriminate.
    destruct (temperature this > num 0); reflexivity.
  - unfold updateQuasiparticleViz_ops. cbv zeta.
    cbn [accepts app path_step].
    rewrite accepts_app, polyline_path by discriminate.
    cbn [accepts app path_step].
    rewrite accepts_app, polyline_path by discriminate. reflexivity.
  - unfold createInteractionVisualization_ops. cbv zeta.
    cbn [accepts app path_step].
    rewrite accepts_app, interaction_arrows_path. reflexivity.
  - unfold createTransportVisualization_ops. cbv zeta.
    rewrite (surjective_pairing (drawAxes _ _ _ _ _ _ _)).
    rewrite (surjective_pairing (snd (drawAxes _ _ _ _ _ _ _))).
    cbn [accepts app path_step].
    rewrite accepts_app, drawAxes_path. cbn [accepts app path_step].
    rewrite accepts_app, polyline_path by discriminate.
    cbn [accepts app path_step].
    rewrite accepts_app, polyline_path by discriminate. reflexivity.
Qed.

Lemma interaction_arrow_frame (f : frame) (centerX centerY radius angle : number) :
  turned f = false ->
  accepts frame_step f (interaction_arrow centerX centerY radius angle) = Some f.
Proof.
  intros Hf. destruct f as [t d st]. cbn in Hf. subst t. reflexivity.
Qed.

(** [drawAxes] and every plot leave the frame, the dash pattern and the
    stack of saved states as they found them: the frame is turned only
    between [save] and [restore], for the label of the y-axis; every
    [clearRect], [moveTo], [lineTo] and [arc] is sent while it is not
    turned; and each dash pattern that is set is reset. *)
Theorem plots_restore_the_frame (this : FermiFluidsVisualization) (c : canvas)
    (width height : number) (margin : Margin)
    (xLabel yLabel : string) (xMax yMax : number) :
  accepts frame_step plain
    (fst (drawAxes width height margin xLabel yLabel xMax yMax))
  = Some plain
  /\ accepts frame_step plain (createIntroVisualization_ops c) = Some plain
  /\ accepts frame_step plain (updateFermiSphereViz_ops this c) = Some plain
  /\ accepts frame_step plain (updateQuasiparticleViz_ops this c) = Some plain
  /\ accepts frame_step plain (createInteractionVisualization_ops c) = Some plain
  /\ accepts frame_step plain (createTransportVisualization_ops c) = Some plain.
Proof.
  repeat apply conj.
  - apply drawAxes_frame. reflexivity.
  - unfold createIntroVisualization_ops. cbv zeta.
    rewrite (surjective_pairing (drawAxes _ _ _ _ _ _ _)).
    rewrite (surjective_pairing (snd (drawAxes _ _ _ _ _ _ _))).
    cbn [accepts app frame_step plain turned].
    rewrite accepts_app, drawAxes_frame by reflexivity.
    cbn [accepts app frame_step plain turned].
    rewrite accepts_app, polyline_frame by reflexivity. reflexivity.
  - unfold updateFermiSphereViz_ops. cbv zeta.
    rewrite (surjective_pairing (drawAxes _ _ _ _ _ _ _)).
    rewrite (surjective_pairing (snd (drawAxes _ _ _ _ _ _ _))).
    cbn [accepts app frame_step plain turned].
    rewrite accepts_app, drawAxes_frame by reflexivity.
    cbn [accepts app frame_step plain turned].
    rewrite accepts_app, polyline_frame by reflexivity.
    destruct (temperature this > num 0); reflexivity.
  - unfold updateQuasiparticleViz_ops. cbv zeta.
    cbn [accepts app frame_step plain turned dashed saved].
    rewrite accepts_app, polyline_frame by reflexivity.
    cbn [accepts app frame_step plain turned dashed saved].
    rewrite accepts_app, polyline_frame by reflexivity. reflexivity.
  - unfold createInteractionVisualization_ops. cbv zeta.
    cbn [accepts app frame_step plain turned].
    rewrite accepts_app.
    rewrite (interaction_arrows_unchanged frame_step plain)
      by (intros; apply interaction_arrow_frame; reflexivity).
    reflexivity.
  - unfold createTransportVisualization_ops. cbv zeta.
    rewrite (surjective_pairing (drawAxes _ _ _ _ _ _ _)).
    rewrite (surjective_pairing (snd (drawAxes _ _ _ _ _ _ _))).
    cbn [accepts app frame_step plain turned].
    rewrite accepts_app, drawAxes_frame by reflexivity.
    cbn [accepts app frame_step plain turned].
    rewrite accepts_app, polyline_frame by reflexivity.
    cbn [accepts app frame_step plain turned].
    rewrite accepts_app, polyline_frame by reflexivity. reflexivity.
Qed.

(** Neither [drawAxes] nor a plot strokes, fills or writes with a style
    that it has not assigned itself: each is accepted by a context on which
    no style was assigned, and leaves one on which all are. *)
Theorem plots_assign_their_styles (this : FermiFluidsVisualization) (c : canvas)
    (width height : number) (margin : Margin)
    (xLabel yLabel : string) (xMax yMax : number) :
  accepts styles_step unset
    (fst (drawAxes width height margin xLabel yLabel xMax yMax))
  = Some assigned
  /\ accepts styles_step unset (createIntroVisualization_ops c) = Some assigned
  /\ accepts styles_step unset (updateFermiSphereViz_ops this c) = Some assigned
  /\ accepts styles_step unset (updateQuasiparticleViz_ops this c) = Some assigned
  /\ accepts styles_step unset (createInteractionVisualization_ops c) = Some assigned
  /\ accepts styles_step unset (createTransportVisualization_ops c) = Some assigned.
Proof.
  split; [ reflexivity | ]. split; [ reflexivity | ]. split; [ | repeat split ].
  unfold updateFermiSphereViz_ops. cbv zeta.
  rewrite (surjective_pairing (drawAxes _ _ _ _ _ _ _)).
  rewrite (surjective_pairing (snd (drawAxes _ _ _ _ _ _ _))).
  rewrite !app_assoc, accepts_app.
  destruct (temperature this > num 0); reflexivity.
Qed.

End Facts.
End DrawingFacts.


(* ================================================================== *)
(** * Where the curves run *)
(* ================================================================== *)

Module CurveFacts.
Import Number Canvas Script Plots.
Local Open Scope js_scope.

Section Facts.
Context {rt : Runtime}.

Lemma drawAxes_size (xLabel yLabel : string) (xMax yMax : number) :
  snd (drawAxes (num 500) (num 400) plot_margin xLabel yLabel xMax yMax)
  = (plot_width, plot_height).
Proof. reflexivity. Qed.

(** The plot of the transport properties: the linear curve of the specific
    heat stays in the plot area; the quadratic curve of the resistivity,
    [0.1 + T * T], leaves it at the top from the 95th sample on, leaves the
    canvas with the last two samples, and ends 12 pixels above it. *)
Theorem resistivity_leaves_the_plot :
  Forall (fun i =>
            in_plot_area (transport_point (num 400) plot_margin plot_width
                            plot_height (transport_T i) (transport_cv i))
            = true
            /\ in_plot_area (transport_point (num 400) plot_margin plot_width
                               plot_height (transport_T i) (transport_rho i))
               = (i <? 95)%nat
            /\ on_canvas (transport_point (num 400) plot_margin plot_width
                            plot_height (transport_T i) (transport_rho i))
               = (i <? 99)%nat)
         (upto transport_steps)
  /\ transport_point (num 400) plot_margin plot_width plot_height
       (transport_T 100) (transport_rho 100)
     = (num 480, num (-12)).
Proof. split; [ ScriptFacts.by_evaluation | vm_compute; reflexivity ]. Qed.

(** The plot of the dispersion relations: the parabola of the free
    particles, [k * k] for [k] from 0.5 to 1.5, is in the plot area only
    from the 21st to the 72nd sample; it starts below the canvas, at
    (60, 420), and ends above it, at (480, -220). *)
Theorem free_parabola_leaves_the_plot :
  Forall (fun i =>
            in_plot_area (quasi_pixel (num 400) plot_margin plot_width
                            plot_height (quasi_k i) (free_E i))
            = ((21 <=? i)%nat && (i <=? 72)%nat)
            /\ on_canvas (quasi_pixel (num 400) plot_margin plot_width
                            plot_height (quasi_k i) (free_E i))
               = ((6 <=? i)%nat && (i <=? 75)%nat))
         (upto quasi_steps)
  /\ quasi_pixel (num 400) plot_margin plot_width plot_height
       (quasi_k 0) (free_E 0) = (num 60, num 420)
  /\ quasi_pixel (num 400) plot_margin plot_width plot_height
       (quasi_k 100) (free_E 100) = (num 480, num (-220)).
Proof. split; [ ScriptFacts.by_evaluation | split; vm_compute; reflexivity ]. Qed.

(** At temperature zero the plot of the Fermi-Dirac distribution is the
    step: occupation 1 for the samples 0 to 100 (energies up to 1) and 0
    for the others, each point in the plot area. *)
Theorem zero_temperature_plot_is_step (this : FermiFluidsVisualization) :
  (temperature this === num 0) = true ->
  Forall (fun i =>
            sphere_f this i = (if (i <=? 100)%nat then num 1 else num 0)
            /\ in_plot_area (sphere_point this (num 400) plot_margin plot_width
                               plot_height i) = true)
         (upto sphere_steps).
Proof.
  destruct this as [kF EF T F]. cbn [temperature]. intros HT.
  destruct T as [s | s | | s m e]; try discriminate;
    try (destruct s; discriminate).
  destruct s; ScriptFacts.by_evaluation.
Qed.

(** The dashed lines mark the Fermi point of the curves. In the
    introductory plot the line of the Fermi surface stands at the column
    270, which is the column of the last filled sample, the 100th; the
    next sample is right of it. In the plot of the Fermi-Dirac
    distribution the line of the Fermi energy stands at the column of the
    100th sample, whose energy is exactly 1, whatever the temperature. *)
Theorem dashed_lines_mark_the_fermi_point (this : FermiFluidsVisualization) :
  margin_left plot_margin + (num 1 / num 2) * plot_width = num 270
  /\ intro_point (num 400) plot_margin plot_width plot_height 100
     = (num 270, num 20)
  /\ (num 270 < fst (intro_point (num 400) plot_margin plot_width plot_height 101))
     = true
  /\ snd (intro_point (num 400) plot_margin plot_width plot_height 101) = num 340
  /\ sphere_E 100 = num 1
  /\ fst (sphere_point this (num 400) plot_margin plot_width plot_height 100)
     = margin_left plot_margin + (num 1 / num 3) * plot_width.
Proof.
  repeat split; vm_compute; reflexivity.
Qed.

End Facts.

(** [zero_temperature_plot_is_step] for the object as it is constructed. *)
Lemma zero_temperature_plot_is_step_witness :
  @sphere_f coarse_runtime initializeConstants 100 = num 1
  /\ @sphere_f coarse_runtime initializeConstants 101 = num 0.
Proof.
  pose proof (@zero_temperature_plot_is_step coarse_runtime initializeConstants
                ltac:(reflexivity)) as H.
  rewrite Forall_forall in H. split.
  - apply (H 100%nat). apply elem_of_seq. unfold sphere_steps. lia.
  - apply (H 101%nat). apply elem_of_seq. unfold sphere_steps. lia.
Defined.

End CurveFacts.


(* ================================================================== *)
(** * Curves that stay in the plot area *)
(* ================================================================== *)

Module StayFacts.
Import Number Canvas Script Plots Range.
Local Open Scope js_scope.

Lemma at_most_le (M : positive) (E : Z) (x : number) :
  at_most (Zpos M) E x -> (x <= S754_finite false M E) = true.
Proof.
  intros [(s & ->) | (m & e & -> & He & Hm)].
  - destruct s; reflexivity.
  - apply NumberFacts.finite_le_of_bounds.
    destruct (Z.eq_dec e E) as [-> | Hne]; [ right | left; lia ].
    rewrite Z.sub_diag in Hm. split; [ reflexivity | lia ].
Qed.

Lemma at_least_le (L : positive) (LE : Z) (x : number) :
  at_least (Zpos L) LE x -> (S754_finite false L LE <= x) = true.
Proof.
  intros [-> | (m & e & -> & He & Hm)].
  - reflexivity.
  - apply NumberFacts.finite_le_of_bounds.
    destruct (Z.eq_dec e LE) as [-> | Hne]; [ right | left; lia ].
    rewrite Z.sub_diag in Hm. split; [ reflexivity | lia ].
Qed.

Lemma one_at_most_one : at_most (2 ^ 52) (-52) (num 1).
Proof.
  right. exists 4503599627370496%positive, (-52)%Z.
  split; [ reflexivity | ]. split; [ lia | reflexivity ].
Qed.

Lemma zero_at_most_one : at_most (2 ^ 52) (-52) (num 0).
Proof. left. exists false. reflexivity. Qed.

Lemma plus_one_at_least_one (y : number) :
  (num 0 <= y) = true -> at_least_one (y + num 1).
Proof.
  intros Hy.
  destruct (NumberFacts.nonneg_cases y Hy) as [(s & ->) | [-> | (m & e & ->)]].
  - right. exists 4503599627370496%positive, (-52)%Z.
    split; [ destruct s; reflexivity | ]. vm_compute. repeat split; discriminate.
  - left. reflexivity.
  - rewrite NumberFacts.num_1_eq. apply NumberFacts.add_one_at_least_one.
Qed.

(** The pixel row of a share [g] of the plot's height, [g] at most 1:
    between the top of the plot area and the x-axis. *)
Lemma row_in_plot (g : number) :
  at_most (2 ^ 52) (-52) g ->
  let y := num 400 - margin_bottom plot_margin - g * plot_height in
  (margin_top plot_margin <= y) = true
  /\ (y <= num 400 - margin_bottom plot_margin) = true.
Proof.
  intros Hg. cbv zeta.
  assert (Ht : at_most (Zpos 5629499534213120) (-44) (g * plot_height)).
  { change plot_height with (S754_finite false 5629499534213120 (-44)).
    apply RangeFacts.mul_at_most; [ exact Hg | reflexivity | lia ]. }
  change (num 400 - margin_bottom plot_margin)
    with (S754_finite false 5981343255101440 (-44)).
  change (margin_top plot_margin) with (S754_finite false 5629499534213120 (-48)).
  destruct (RangeFacts.sub_in_range 5981343255101440 (Zpos 5629499534213120)
              (Zpos 5629499534213120) (-44) (-48) _ Ht)
    as [Hhi Hlo]; try lia; try reflexivity.
  split; [ apply at_least_le; exact Hlo | apply at_most_le; exact Hhi ].
Qed.

(** The pixel row of an occupation [f] of at most 1, plotted on a scale
    up to 1.2. *)
Lemma occupation_row (f : number) :
  at_most (2 ^ 52) (-52) f ->
  let y := num 400 - margin_bottom plot_margin - (f / dec 12 1) * plot_height in
  (margin_top plot_margin <= y) = true
  /\ (y <= num 400 - margin_bottom plot_margin) = true.
Proof.
  intros Hf. apply row_in_plot.
  apply RangeFacts.div_at_most; [ lia | exact Hf | ].
  right. exists 5404319552844595%positive, (-52)%Z.
  split; [ reflexivity | ]. vm_compute. repeat split; discriminate.
Qed.

Lemma one_at_least_one : at_least_one (num 1).
Proof.
  right. exists 4503599627370496%positive, (-52)%Z.
  split; [ reflexivity | ]. vm_compute. repeat split; discriminate.
Qed.

(** An energy between 0.5 and 1.5, less [EMin]: at most 1. *)
Lemma energy_offset (E : number) :
  at_least (2 ^ 52) (-53) E -> at_most (3 * 2 ^ 51) (-52) E ->
  at_most (2 ^ 52) (-52) (E - EMin).
Proof.
  intros [-> | (m & e & -> & He & Hm)] [(s & Hs) | (m' & e' & Heq & He' & Hm')];
    try discriminate.
  injection Heq as <- <-.
  change EMin with (S754_finite false 4503599627370496 (-53)).
  unfold sub. cbn [SFsub cond_Zopp]. change IntDef.Z.min with Z.min.
  replace (Z.min e (-53)) with (-53)%Z by lia.
  destruct (NumberFacts.shl_align_spec m e (-53)) as [_ Ha].
  destruct (NumberFacts.shl_align_spec 4503599627370496 (-53) (-53)) as [_ Hb].
  replace (Z.min e (-53)) with (-53)%Z in Ha by lia.
  change (Z.min (-53) (-53)) with (-53)%Z in Hb.
  set (a := fst (shl_align m e (-53))) in *.
  set (b := fst (shl_align 4503599627370496 (-53) (-53))) in *.
  assert (Hab : (0 <= Zpos a - Zpos b <= 2 ^ 53)%Z).
  { assert (Hcases : e = (-53)%Z \/ e = (-52)%Z) by lia.
    destruct Hcases as [-> | ->]; cbn in Ha, Hb, Hm, Hm'; lia. }
  destruct (Zpos a - Zpos b)%Z as [| p | p] eqn:Hp; try lia.
  - left. exists false. reflexivity.
  - cbn [binary_normalize]. apply RangeFacts.binary_round_at_most; lia.
Qed.

(** One plus the quotient of an offset of at most one half in magnitude
    by an effective mass of at least 1: between 0.5 and 1.5. *)
Lemma energy_in_range (d mstar : number) :
  within_half d = true -> at_least_one mstar ->
  at_least (2 ^ 52) (-53) (num 1 + d / mstar)
  /\ at_most (3 * 2 ^ 51) (-52) (num 1 + d / mstar).
Proof.
  intros Hd Hm.
  assert (Hone : at_least (2 ^ 52) (-53) (num 1)
                 /\ at_most (3 * 2 ^ 51) (-52) (num 1)).
  { split; right; exists 4503599627370496%positive, (-52)%Z;
      (split; [ reflexivity | ]); cbn; lia. }
  destruct d as [s | s | | s m e]; try discriminate.
  - (* no offset *)
    assert (Hz : exists s', S754_zero s / mstar = S754_zero s').
    { destruct Hm as [-> | (my & ey & -> & _)]; eexists; reflexivity. }
    destruct Hz as [s' ->]. exact Hone.
  - cbn [within_half] in Hd. apply andb_true_iff in Hd as [He Hmm].
    apply Z.leb_le in He, Hmm.
    assert (Hr : at_most (2 ^ 52) (-53) (S754_finite false m e / mstar)).
    { apply RangeFacts.div_at_most; [ lia | | exact Hm ].
      right. exists m, e. split; [ reflexivity | lia ]. }
    destruct s.
    + (* below the Fermi momentum *)
      rewrite (RangeFacts.div_opp m e mstar Hm).
      destruct Hr as [(s' & ->) | (m' & e' & Hrq & He' & Hm')].
      * exact Hone.
      * rewrite Hrq. cbn [SFopp negb].
        rewrite NumberFacts.num_1_eq, RangeFacts.add_opp.
        destruct (RangeFacts.sub_in_range 4503599627370496 (2 ^ 51) (2 ^ 52)
                    (-52) (-53) (S754_finite false m' e')) as [Hhi Hlo];
          try (cbn; lia).
        -- right. exists m', e'. split; [ reflexivity | ]. split; [ lia | ].
           replace (-52 - e')%Z with (-53 - e' + 1)%Z by lia.
           rewrite NumberFacts.pow2_succ by lia.
           change (2 ^ 52)%Z with (2 * 2 ^ 51)%Z in Hm'. lia.
        -- split; [ exact Hlo | ].
           eapply RangeFacts.at_most_weaken; [ exact Hhi | lia | cbn; lia ].
    + (* above the Fermi momentum *)
      destruct (RangeFacts.one_plus_in_range _ Hr) as [Hlo Hhi].
      split; [ | exact Hhi ].
      eapply RangeFacts.at_least_weaken; [ exact Hlo | lia | cbn; lia ].
Qed.

Lemma sphere_columns :
  Forall (fun i =>
            is_finite (sphere_E i) = true
            /\ (margin_left plot_margin
                <= margin_left plot_margin + (sphere_E i / num 3) * plot_width) = true
            /\ (margin_left plot_margin + (sphere_E i / num 3) * plot_width
                <= num 500 - margin_right plot_margin) = true)
         (upto sphere_steps).
Proof. ScriptFacts.by_evaluation. Qed.

Section Facts.
Context {rt : Runtime}.

(** At every finite temperature that is not negative, the occupation that
    [fermiDirac] returns for a finite energy is at most 1. *)
Lemma occupation_at_most_one (E T : number) :
  exp_nonneg rt ->
  is_finite E = true -> is_finite T = true -> (num 0 <= T) = true ->
  at_most (2 ^ 52) (-52) (fermiDirac E (num 1) T).
Proof.
  intros Hexp HE HT Hpos. unfold fermiDirac.
  destruct (T === num 0) eqn:Hzero.
  - destruct (E <= num 1); [ apply one_at_most_one | apply zero_at_most_one ].
  - pose proof (NumberFacts.quotient_not_nan E (num 1) T HE eq_refl HT Hpos Hzero)
      as Hq.
    apply RangeFacts.div_at_most; [ lia | apply one_at_most_one | ].
    apply plus_one_at_least_one. apply Hexp. exact Hq.
Qed.

(** Whatever finite temperature that is not negative the slider gives,
    every point of the curve that [updateFermiSphereViz] plots lies in the
    plot area. *)
Theorem fermi_curve_stays_in_the_plot (this : FermiFluidsVisualization) :
  exp_nonneg rt ->
  is_finite (temperature this) = true ->
  (num 0 <= temperature this) = true ->
  Forall (fun i =>
            in_plot_area (sphere_point this (num 400) plot_margin plot_width
                            plot_height i) = true)
         (upto sphere_steps).
Proof.
  intros Hexp HT Hpos.
  eapply Forall_impl; [ exact sphere_columns | ].
  intros i (HE & Hx1 & Hx2).
  pose proof (occupation_at_most_one (sphere_E i) (temperature this)
                Hexp HE HT Hpos) as Hf.
  destruct (occupation_row _ Hf) as [Hy1 Hy2].
  unfold in_plot_area, sphere_point, sphere_f. cbn [fst snd].
  rewrite Hx1, Hx2, Hy1, Hy2. reflexivity.
Qed.

Lemma quasi_columns :
  Forall (fun i =>
            within_half (quasi_k i - num 1) = true
            /\ (margin_left plot_margin
                <= margin_left plot_margin
                   + ((quasi_k i - kMin) / (kMax - kMin)) * plot_width) = true
            /\ (margin_left plot_margin
                + ((quasi_k i - kMin) / (kMax - kMin)) * plot_width
                <= num 500 - margin_right plot_margin) = true)
         (upto quasi_steps).
Proof. ScriptFacts.by_evaluation. Qed.

(** Whatever finite interaction strength that is not negative the slider
    gives, every point of the quasiparticle line that
    [updateQuasiparticleViz] plots lies in the plot area. *)
Theorem quasiparticle_line_stays_in_the_plot (this : FermiFluidsVisualization) :
  is_finite (interactionStrength this) = true ->
  (num 0 <= interactionStrength this) = true ->
  Forall (fun i =>
            in_plot_area (quasi_pixel (num 400) plot_margin plot_width plot_height
                            (quasi_k i) (quasi_E this i)) = true)
         (upto quasi_steps).
Proof.
  intros Hfin Hpos.
  assert (Hm : at_least_one (effectiveMass this)).
  { unfold effectiveMass. apply MassFacts.one_plus_at_least_one.
    change (num 3) with (S754_finite false 6755399441055744 (-51)).
    apply MassFacts.div_nonneg; assumption. }
  eapply Forall_impl; [ exact quasi_columns | ].
  intros i (Hd & Hx1 & Hx2).
  destruct (energy_in_range _ _ Hd Hm) as [Hlo Hhi].
  pose proof (energy_offset _ Hlo Hhi) as Hu.
  assert (Hv : at_most (2 ^ 52) (-52)
                 ((num 1 + (quasi_k i - num 1) / effectiveMass this - EMin)
                  / (EMax - EMin))).
  { apply RangeFacts.div_at_most; [ lia | exact Hu | ].
    change (EMax - EMin) with (num 1). exact one_at_least_one. }
  destruct (row_in_plot _ Hv) as [Hy1 Hy2].
  unfold in_plot_area, quasi_pixel, quasi_E. cbn [fst snd].
  rewrite Hx1, Hx2, Hy1, Hy2. reflexivity.
Qed.

End Facts.

(** [quasiparticle_line_stays_in_the_plot] with the interaction slider at
    2. *)
Lemma quasiparticle_line_stays_in_the_plot_witness :
  in_plot_area (quasi_pixel (num 400) plot_margin plot_width plot_height
                  (quasi_k 0)
                  (quasi_E (on_interaction_input (num 2) initializeConstants) 0))
  = true.
Proof.
  pose proof (quasiparticle_line_stays_in_the_plot
                (on_interaction_input (num 2) initializeConstants)
                eq_refl eq_refl) as H.
  rewrite Forall_forall in H. apply (H 0%nat).
  apply elem_of_seq. unfold quasi_steps. lia.
Defined.

(** [fermi_curve_stays_in_the_plot] with the temperature slider at 0.5. *)
Lemma fermi_curve_stays_in_the_plot_witness :
  in_plot_area (@sphere_point coarse_runtime
                  (on_temperature_input (dec 5 1) initializeConstants)
                  (num 400) plot_margin plot_width plot_height 150) = true.
Proof.
  pose proof (@fermi_curve_stays_in_the_plot coarse_runtime
                (on_temperature_input (dec 5 1) initializeConstants)
                ScriptFacts.coarse_exp_nonneg eq_refl eq_refl) as H.
  rewrite Forall_forall in H. apply (H 150%nat).
  apply elem_of_seq. unfold sphere_steps. lia.
Defined.

End StayFacts.


(* ================================================================== *)
(** * Properties of the handlers *)
(* ================================================================== *)

Module EventsFacts.
Import Number Canvas Script Plots Events.
Local Open Scope js_scope.

Section Facts.
Context {rt : Runtime}.

(** ** The sliders *)

(** The two sliders do not disturb each other. *)
Theorem sliders_commute (vT vF : number) (this : FermiFluidsVisualization)
    (doc : document) :
  let hT := temperature_input vT this doc in
  let hF := interaction_input vF this doc in
  forall docT docTF,
    redrawn hT = Return tt docT ->
    redrawn (interaction_input vF (object hT) docT) = Return tt docTF ->
    exists docF,
      redrawn hF = Return tt docF
      /\ redrawn (temperature_input vT (object hF) docF) = Return tt docTF
      /\ object (temperature_input vT (object hF) docF)
         = object (interaction_input vF (object hT) docT)
      /\ label (temperature_input vT (object hF) docF) = label hT
      /\ label (interaction_input vF (object hT) docT) = label hF.
Proof.
  cbv zeta. unfold temperature_input, interaction_input. cbn [object label redrawn].
  unfold updateFermiSphereViz, updateQuasiparticleViz.
  intros docT docTF. rewrite !PlotsFacts.plot_cases. unfold getElementById.
  destruct (doc !! "fermi-sphere-viz") as [[cS |] |] eqn:HS; try discriminate;
    intros [= <-];
    rewrite ?lookup_insert_ne by discriminate;
    (destruct (doc !! "quasiparticle-viz") as [[cQ |] |] eqn:HQ; try discriminate);
    intros [= <-]; eexists; (split; [ reflexivity | ]);
    rewrite PlotsFacts.plot_cases; unfold getElementById;
    rewrite ?lookup_insert_ne by discriminate; rewrite HS;
    (split; [ | repeat split ]).
  - f_equal. apply insert_insert_ne. discriminate.
  - reflexivity.
  - reflexivity.
  - reflexivity.
Qed.

(** A slider value that is not a number: every point of the curve that the
    handler redraws has the y-coordinate [NaN], and the label of the
    temperature is left out. *)
Theorem NaN_input_plots_NaN (this : FermiFluidsVisualization) (doc : document)
    (height plotWidth plotHeight : number) (margin : Margin) (i : nat) :
  exp_nan rt ->
  let hT := temperature_input NaN this doc in
  let hF := interaction_input NaN this doc in
  snd (sphere_point (object hT) height margin plotWidth plotHeight i) = NaN
  /\ (temperature (object hT) > num 0) = false
  /\ snd (quasi_pixel height margin plotWidth plotHeight
            (quasi_k i) (quasi_E (object hF) i)) = NaN.
Proof.
  intros Hexp. cbv zeta. cbn [temperature_input interaction_input object].
  split; [ | split ].
  - unfold sphere_point, sphere_f, fermiDirac. cbn [snd temperature on_temperature_input].
    change (NaN === num 0) with false. cbv iota.
    rewrite FermiFacts.NaN_div_r. unfold exp_nan in Hexp. rewrite Hexp.
    change (num 1 / (NaN + num 1)) with NaN.
    rewrite FermiFacts.NaN_div_l, FermiFacts.NaN_mul_l. apply FermiFacts.NaN_sub_r.
  - reflexivity.
  - unfold quasi_pixel, quasi_E, effectiveMass.
    cbn [snd interactionStrength on_interaction_input].
    change (num 1 + NaN / num 3) with NaN.
    rewrite FermiFacts.NaN_div_r, FermiFacts.NaN_add_r.
    change (NaN - EMin) with NaN.
    rewrite FermiFacts.NaN_div_l, FermiFacts.NaN_mul_l. apply FermiFacts.NaN_sub_r.
Qed.

End Facts.

(** ** The sections' reveal animation *)

Lemma reveal_reveal (s : style) : reveal (reveal s) = reveal s.
Proof. reflexivity. Qed.

Lemma observer_callback_lookup (entries : list entry) :
  forall (sections : list style) (i : nat),
    observer_callback entries sections !! i
    = (fun s => if reported i entries then reveal s else s) <$> sections !! i.
Proof.
  unfold observer_callback.
  induction entries as [| e entries IH]; intros sections i; cbn [foldl reported existsb].
  - destruct (sections !! i); reflexivity.
  - rewrite IH. fold (reported i entries).
    destruct (isIntersecting e) eqn:He; cbn [andb orb].
    + destruct (Nat.eqb_spec (target e) i) as [-> | Hne].
      * rewrite list_lookup_alter_eq. destruct (sections !! i) as [s |]; cbn; [ | reflexivity ].
        destruct (reported i entries); reflexivity.
      * rewrite list_lookup_alter_ne by exact Hne. reflexivity.
    + reflexivity.
Qed.

Lemma after_callbacks_lookup (calls : list (list entry)) (sections : list style)
    (i : nat) :
  after_callbacks calls sections !! i
  = (fun s => if reported i (concat calls) then reveal (hide s) else hide s)
      <$> sections !! i.
Proof.
  unfold after_callbacks, hide_sections.
  induction calls as [| entries calls IH] using rev_ind.
  - cbn. apply list_lookup_fmap.
  - rewrite foldl_app. cbn [foldl]. rewrite observer_callback_lookup, IH.
    rewrite concat_app. cbn [concat]. rewrite app_nil_r.
    unfold reported. rewrite existsb_app.
    destruct (sections !! i) as [s |]; cbn; [ | reflexivity ].
    destruct (existsb _ (concat calls)), (existsb _ entries); reflexivity.
Qed.

(** After loading, whatever the observer reports and in whatever order, a
    section is shown exactly when it has been reported in view at least
    once, and hidden as at loading otherwise; a section that is shown stays
    shown. *)
Theorem sections_are_revealed_for_good (sections : list style)
    (calls more : list (list entry)) (i : nat) (s : style) :
  sections !! i = Some s ->
  after_callbacks calls sections !! i
  = Some (if reported i (concat calls)
          then {| opacity := "1"; transform := "translateY(0)";
                  transition := "opacity 0.6s ease, transform 0.6s ease" |}
          else {| opacity := "0"; transform := "translateY(20px)";
                  transition := "opacity 0.6s ease, transform 0.6s ease" |})
  /\ (opacity <$> after_callbacks calls sections !! i = Some "1" ->
      opacity <$> after_callbacks (calls ++ more) sections !! i = Some "1")
  /\ length (after_callbacks calls sections) = length sections.
Proof.
  intros Hs. split; [ | split ].
  - rewrite after_callbacks_lookup, Hs. cbn.
    destruct (reported i (concat calls)); reflexivity.
  - rewrite !after_callbacks_lookup, Hs. cbn.
    rewrite concat_app. unfold reported. rewrite existsb_app.
    destruct (existsb _ (concat calls)); [ reflexivity | discriminate ].
  - unfold after_callbacks, hide_sections.
    induction calls as [| entries calls IH] using rev_ind.
    + apply length_map.
    + rewrite foldl_app. cbn [foldl]. rewrite <- IH.
      unfold observer_callback. generalize (foldl (fun ss es => foldl
        (fun ss e => if isIntersecting e then alter reveal (target e) ss else ss)
        ss es) (map hide sections) calls).
      induction entries as [| e entries IHe]; intros ss; [ reflexivity | ].
      cbn [foldl]. rewrite IHe.
      destruct (isIntersecting e); [ apply length_alter | reflexivity ].
Qed.

(** [sliders_commute] on the tutorial's page: the temperature slider moved
    to 0.5 and the interaction slider to 1. *)
Lemma sliders_commute_witness :
  exists docF docTF,
    redrawn (@interaction_input coarse_runtime (num 1) initializeConstants
               tutorial_page) = Return tt docF
    /\ redrawn (@temperature_input coarse_runtime (dec 5 1)
                  (on_interaction_input (num 1) initializeConstants) docF)
       = Return tt docTF.
Proof.
  edestruct (@sliders_commute coarse_runtime (dec 5 1) (num 1)
               initializeConstants tutorial_page) as (docF & H1 & H2 & _).
  - reflexivity.
  - reflexivity.
  - exists docF. eexists. split; [ exact H1 | exact H2 ].
Defined.

(** [NaN_input_plots_NaN] for the first sample. *)
Lemma NaN_input_plots_NaN_witness :
  snd (@sphere_point coarse_runtime
         (on_temperature_input NaN initializeConstants)
         (num 400) plot_margin plot_width plot_height 0) = NaN.
Proof.
  destruct (@NaN_input_plots_NaN coarse_runtime initializeConstants ∅
              (num 400) plot_width plot_height plot_margin 0)
    as (H & _ & _).
  - reflexivity.
  - exact H.
Defined.

(** [sections_are_revealed_for_good] for two sections, of which the
    observer reports the second in view and later out of view. *)
Lemma sections_are_revealed_for_good_witness :
  opacity <$> after_callbacks
                [ [ {| target := 1; isIntersecting := true |} ];
                  [ {| target := 1; isIntersecting := false |};
                    {| target := 0; isIntersecting := false |} ] ]
                [ {| opacity := ""; transform := ""; transition := "" |};
                  {| opacity := ""; transform := ""; transition := "" |} ]
              !! 1%nat
  = Some "1".
Proof.
  destruct (sections_are_revealed_for_good
              [ {| opacity := ""; transform := ""; transition := "" |};
                {| opacity := ""; transform := ""; transition := "" |} ]
              [ [ {| target := 1; isIntersecting := true |} ] ]
              [ [ {| target := 1; isIntersecting := false |};
                  {| target := 0; isIntersecting := false |} ] ]
              1 {| opacity := ""; transform := ""; transition := "" |})
    as (_ & H & _).
  - reflexivity.
  - apply H. reflexivity.
Defined.

End EventsFacts.


(* ================================================================== *)
(** * Properties of the documented solver *)
(* ================================================================== *)

Module SolverFacts.
Import Solver.
Local Open Scope Q_scope.

(** ** Grids *)

Lemma imap_unchanged {A} (f : nat -> A -> A) (l : list A) :
  (forall k x, l !! k = Some x -> f k x = x) -> imap f l = l.
Proof.
  intros H. apply list_eq. intros k. rewrite list_lookup_imap.
  destruct (l !! k) as [x |] eqn:Hk; cbn; [ | reflexivity ].
  f_equal. apply H. exact Hk.
Qed.

Lemma row_col_of (n i j : nat) :
  (j < n)%nat -> row_of n (i * n + j) = i /\ col_of n (i * n + j) = j.
Proof.
  intros Hj. unfold row_of, col_of. split.
  - rewrite Nat.div_add_l by lia. rewrite Nat.div_small by lia. lia.
  - rewrite Nat.add_comm, Nat.Div0.mod_add. apply Nat.mod_small. lia.
Qed.

Lemma cell_index_bound (n i j : nat) :
  (i < n)%nat -> (j < n)%nat -> (i * n + j < n * n)%nat.
Proof. intros Hi Hj. nia. Qed.

Lemma enforce_no_through_length (n : nat) (vel : Field * Field) :
  length (fst (enforce_no_through n vel)) = length (fst vel)
  /\ length (snd (enforce_no_through n vel)) = length (snd vel).
Proof. unfold enforce_no_through. cbn. rewrite !length_imap. auto. Qed.

(** After [enforce_no_through] the normal component is zero on all four
    edges of a full grid. *)
Lemma enforce_no_through_edges (n : nat) (vel : Field * Field) (d : Field) :
  length (fst vel) = (n * n)%nat -> length (snd vel) = (n * n)%nat ->
  no_through n {| dye := d;
                  u := fst (enforce_no_through n vel);
                  v := snd (enforce_no_through n vel) |}.
Proof.
  intros Hu Hv i j Hi Hj. cbn [u v].
  pose proof (cell_index_bound n i j Hi Hj) as Hk.
  destruct (row_col_of n i j Hj) as [Hrow Hcol].
  unfold enforce_no_through. cbn [fst snd]. rewrite !list_lookup_imap.
  split; intros Hedge.
  - destruct (lookup_lt_is_Some_2 (fst vel) (i * n + j)) as [x ->]; [ lia | ].
    cbn. rewrite Hcol.
    destruct Hedge as [-> | ->]; [ reflexivity | ].
    rewrite Nat.eqb_refl, orb_true_r. reflexivity.
  - destruct (lookup_lt_is_Some_2 (snd vel) (i * n + j)) as [x ->]; [ lia | ].
    cbn. rewrite Hrow.
    destruct Hedge as [-> | ->]; [ reflexivity | ].
    rewrite Nat.eqb_refl, orb_true_r. reflexivity.
Qed.

Section Facts.
Context {nm : Numerics}.

Lemma apply_splat_length (n : nat) (sp : Splat) (f : Fields) :
  length (dye (apply_splat n sp f)) = length (dye f)
  /\ length (u (apply_splat n sp f)) = length (u f)
  /\ length (v (apply_splat n sp f)) = length (v f).
Proof. unfold apply_splat. cbn. rewrite !length_imap. auto. Qed.

Lemma apply_splats_length (n : nat) (ss : list Splat) (f : Fields) :
  length (dye (apply_splats n ss f)) = length (dye f)
  /\ length (u (apply_splats n ss f)) = length (u f)
  /\ length (v (apply_splats n ss f)) = length (v f).
Proof.
  unfold apply_splats. revert f.
  induction ss as [| sp ss IH]; intros f; cbn; [ auto | ].
  destruct (IH (apply_splat n sp f)) as (-> & -> & ->).
  apply apply_splat_length.
Qed.

(** ** Reachable states *)

Lemma zeros_length (n : nat) : length (zeros n) = (n * n)%nat.
Proof. apply length_replicate. Qed.

(** The state of construction and of [reset()] has grids of the size of
    the grid, and [add_splat] keeps them. *)
Lemma initial_well_formed (p : SimulationParameters) (seed : positive) :
  params (initial p seed) = p /\ well_formed (initial p seed).
Proof.
  unfold well_formed, initial. destruct (seed_splats seed) as [ss seed'].
  cbn [params fields]. split; [ reflexivity | ].
  destruct (apply_splats_length (grid_N p) ss
              {| dye := zeros (grid_N p); u := zeros (grid_N p);
                 v := zeros (grid_N p) |}) as (-> & -> & ->).
  cbn [dye u v]. rewrite zeros_length. auto.
Qed.

Lemma add_splat_well_formed (sp : Splat) (s : SimulationDriver) :
  well_formed s -> well_formed (add_splat sp s).
Proof. intros H. exact H. Qed.

(** ** The step counter *)

Lemma step_count_step (s : SimulationDriver) :
  step_count (get_stats (step s)) = S (step_count (get_stats s)).
Proof. reflexivity. Qed.

Lemma step_count_initial (p : SimulationParameters) (seed : positive) :
  step_count (get_stats (initial p seed)) = 0%nat.
Proof. unfold initial. destruct (seed_splats seed). reflexivity. Qed.

(** C4. The step counter is 0 in the state that construction returns and
    in the state that [reset()] leaves, every [step()] increments it by
    exactly 1, and so it is [k] after [k] steps from either state. *)
Theorem step_counter (p : SimulationParameters) (seed : positive)
    (s : SimulationDriver) :
  (forall s0, construct p seed = Some s0 -> step_count (get_stats s0) = 0%nat)
  /\ step_count (get_stats (reset s)) = 0%nat
  /\ step_count (get_stats (step s)) = S (step_count (get_stats s))
  /\ (forall k, step_count (get_stats (Nat.iter k step (reset s))) = k).
Proof.
  split; [ | split; [ | split ] ].
  - intros s0. unfold construct. destruct (valid_parameters p); [ | discriminate ].
    intros [= <-]. apply step_count_initial.
  - apply step_count_initial.
  - apply step_count_step.
  - induction k as [| k IH].
    + apply step_count_initial.
    + rewrite Nat.iter_succ, step_count_step, IH. reflexivity.
Qed.

(** ** Splats that touch no cell *)

Lemma dist2_nonneg (p q : Q * Q) : 0 <= dist2 p q.
Proof.
  unfold dist2. generalize (fst p - fst q), (snd p - snd q). intros a b. nra.
Qed.

Lemma cell_coordinate_in_unit (n m : nat) :
  (m < n)%nat ->
  0 <= (inject_Z (Z.of_nat m) + (1 # 2)) / inject_Z (Z.of_nat n) <= 1.
Proof.
  intros Hm.
  assert (Hn : 0 < inject_Z (Z.of_nat n)).
  { change 0 with (inject_Z 0). rewrite <- Zlt_Qlt. lia. }
  assert (H0 : 0 <= inject_Z (Z.of_nat m)).
  { change 0 with (inject_Z 0). rewrite <- Zle_Qle. lia. }
  assert (H1 : inject_Z (Z.of_nat m) + 1 <= inject_Z (Z.of_nat n)).
  { change 1 with (inject_Z 1). rewrite <- inject_Z_plus, <- Zle_Qle. lia. }
  split.
  - apply Qle_shift_div_l; [ exact Hn | lra ].
  - apply Qle_shift_div_r; [ exact Hn | lra ].
Qed.

Lemma cell_center_in_domain (n k : nat) :
  (k < n * n)%nat ->
  0 <= fst (cell_center n k) <= 1 /\ 0 <= snd (cell_center n k) <= 1.
Proof.
  intros Hk. assert (Hn : (0 < n)%nat) by lia.
  unfold cell_center, col_of, row_of. cbn [fst snd]. split.
  - apply cell_coordinate_in_unit. apply Nat.mod_upper_bound. lia.
  - apply cell_coordinate_in_unit. apply Nat.Div0.div_lt_upper_bound. lia.
Qed.

(** Of the points of the unit interval, [clamp01 x] is nearest to [x]. *)
Lemma clamp01_nearest (x c : Q) :
  0 <= c <= 1 -> (clamp01 x - x) * (clamp01 x - x) <= (c - x) * (c - x).
Proof.
  intros [H0 H1]. unfold clamp01.
  destruct (Qlt_le_dec x 0) as [Hx | Hx].
  - assert (0 <= c * (0 - x)) by (apply Qmult_le_0_compat; lra).
    assert (0 <= c * c) by (apply Qmult_le_0_compat; lra).
    lra.
  - destruct (Qlt_le_dec 1 x) as [Hx' | Hx'].
    + assert (0 <= (1 - c) * (x - 1)) by (apply Qmult_le_0_compat; lra).
      assert (0 <= (1 - c) * (1 - c)) by (apply Qmult_le_0_compat; lra).
      lra.
    + pose proof (dist2_nonneg (c, 0) (x, 0)) as H.
      unfold dist2 in H. cbn [fst snd] in H. lra.
Qed.

(** No cell of the grid is within the radius of a splat of radius 0 or of
    a splat whose support is outside the domain. *)
Lemma splat_cell_unchanged (n : nat) (sp : Splat) (amount : Q) (k : nat) (x : Q) :
  (k < n * n)%nat ->
  radius sp == 0 \/ outside_domain sp = true ->
  splat_cell n sp amount k x = x.
Proof.
  intros Hk Hsp. unfold splat_cell.
  destruct (Qlt_le_dec _ _) as [Hin | Hout]; [ exfalso | reflexivity ].
  destruct Hsp as [Hr | Hfar].
  - pose proof (dist2_nonneg (cell_center n k) (splat_x sp, splat_y sp)).
    rewrite Hr in Hin. lra.
  - unfold outside_domain in Hfar.
    destruct (Qlt_le_dec _ _) as [| Hfar']; [ discriminate | ].
    destruct (cell_center_in_domain n k Hk) as [Hx Hy].
    pose proof (clamp01_nearest (splat_x sp) _ Hx).
    pose proof (clamp01_nearest (splat_y sp) _ Hy).
    unfold dist2 in *. cbn [fst snd] in *. lra.
Qed.

Lemma apply_splat_unchanged (n : nat) (sp : Splat) (f : Fields) :
  length (dye f) = (n * n)%nat ->
  length (u f) = (n * n)%nat ->
  length (v f) = (n * n)%nat ->
  radius sp == 0 \/ outside_domain sp = true ->
  apply_splat n sp f = f.
Proof.
  intros Hd Hu Hv Hsp. destruct f as [fd fu fv]. cbn [dye u v] in *.
  unfold apply_splat. cbn [dye u v].
  f_equal; apply imap_unchanged; intros k x Hk;
    apply splat_cell_unchanged; try assumption;
    apply lookup_lt_Some in Hk; lia.
Qed.

Lemma apply_splats_snoc_unchanged (n : nat) (ss : list Splat) (sp : Splat)
    (f : Fields) :
  length (dye f) = (n * n)%nat ->
  length (u f) = (n * n)%nat ->
  length (v f) = (n * n)%nat ->
  radius sp == 0 \/ outside_domain sp = true ->
  apply_splats n (ss ++ [sp]) f = apply_splats n ss f.
Proof.
  intros Hd Hu Hv Hsp. unfold apply_splats. rewrite foldl_app. cbn [foldl].
  fold (apply_splats n ss f).
  destruct (apply_splats_length n ss f) as (Hd' & Hu' & Hv').
  apply apply_splat_unchanged; congruence.
Qed.

Section Shaped.
Context {shape : SameShape nm}.

Lemma advect_scalar_len p f a b : length (advect_scalar p f a b) = length f.
Proof. apply advect_scalar_length. Qed.

Lemma confine_fst_len p a b : length (fst (confine p a b)) = length a.
Proof. apply confine_length. Qed.

Lemma confine_snd_len p a b : length (snd (confine p a b)) = length b.
Proof. apply confine_length. Qed.

Lemma subtract_gradient_fst_len p pr a b :
  length (fst (subtract_gradient p pr a b)) = length a.
Proof. apply subtract_gradient_length. Qed.

Lemma subtract_gradient_snd_len p pr a b :
  length (snd (subtract_gradient p pr a b)) = length b.
Proof. apply subtract_gradient_length. Qed.

Lemma enforce_fst_len n vel : length (fst (enforce_no_through n vel)) = length (fst vel).
Proof. apply enforce_no_through_length. Qed.

Lemma enforce_snd_len n vel : length (snd (enforce_no_through n vel)) = length (snd vel).
Proof. apply enforce_no_through_length. Qed.

Lemma apply_splats_dye_len n ss f : length (dye (apply_splats n ss f)) = length (dye f).
Proof. apply apply_splats_length. Qed.

Lemma apply_splats_u_len n ss f : length (u (apply_splats n ss f)) = length (u f).
Proof. apply apply_splats_length. Qed.

Lemma apply_splats_v_len n ss f : length (v (apply_splats n ss f)) = length (v f).
Proof. apply apply_splats_length. Qed.

Lemma dissipate_len rate h f : length (dissipate rate h f) = length f.
Proof. apply length_map. Qed.

(** Rewrites the length of a grid computed by the pipeline to the length of
    the grid it started from. *)
Ltac shapes :=
  cbn [fst snd dye u v];
  repeat first
    [ rewrite enforce_fst_len | rewrite enforce_snd_len
    | rewrite subtract_gradient_fst_len | rewrite subtract_gradient_snd_len
    | rewrite confine_fst_len | rewrite confine_snd_len
    | rewrite apply_splats_dye_len | rewrite apply_splats_u_len
    | rewrite apply_splats_v_len
    | rewrite dissipate_len | rewrite advect_scalar_len
    | progress cbn [fst snd dye u v] ].

(** ** The no-through invariant *)

(** A step keeps the parameters and the shape of the grids. *)
Lemma step_well_formed (s : SimulationDriver) :
  well_formed s -> params (step s) = params s /\ well_formed (step s).
Proof.
  intros (Hd & Hu & Hv). split; [ reflexivity | ].
  unfold well_formed, step, project. cbn [params fields].
  repeat split; shapes; assumption.
Qed.

Lemma no_through_after_step (s : SimulationDriver) :
  well_formed s -> no_through (grid_N (params s)) (get_fields (step s)).
Proof.
  intros (Hd & Hu & Hv).
  unfold get_fields, step, project. cbn [fields].
  apply enforce_no_through_edges; shapes; assumption.
Qed.

(** C3. From a state whose grids have the size of the grid, after every
    [step()] call (the first and each later one) the velocity component
    normal to each of the four edges is exactly zero: [u] in the first and
    last column, [v] in the first and last row. *)
Theorem no_through_after_every_step (s : SimulationDriver) (k : nat) :
  well_formed s ->
  no_through (grid_N (params s)) (get_fields (Nat.iter (S k) step s)).
Proof.
  intros Hs.
  assert (H : params (Nat.iter k step s) = params s
              /\ well_formed (Nat.iter k step s)).
  { induction k as [| k [IHp IHw]]; [ split; [ reflexivity | exact Hs ] | ].
    rewrite Nat.iter_succ.
    destruct (step_well_formed _ IHw) as [Hp Hw]. split; congruence. }
  destruct H as [Hp Hw]. rewrite Nat.iter_succ, <- Hp.
  apply no_through_after_step. exact Hw.
Qed.

(** ** A splat that is a no-op *)

(** C5. A splat whose radius is 0, or whose support lies outside the
    domain [0,1] x [0,1], leaves the dye and both velocity components
    unchanged when the Injector applies it; requesting it with
    [add_splat] changes no field at once, and the step that applies the
    queue ends in the state it would have reached without the request. *)
Theorem noop_splat (s : SimulationDriver) (sp : Splat) :
  well_formed s ->
  radius sp == 0 \/ outside_domain sp = true ->
  apply_splat (grid_N (params s)) sp (get_fields s) = get_fields s
  /\ get_fields (add_splat sp s) = get_fields s
  /\ step (add_splat sp s) = step s.
Proof.
  intros (Hd & Hu & Hv) Hsp. split; [ | split ].
  - apply apply_splat_unchanged; assumption.
  - reflexivity.
  - unfold step, add_splat. cbn [params fields stats queued rng].
    rewrite apply_splats_snoc_unchanged; [ reflexivity | shapes; assumption .. | exact Hsp ].
Qed.

End Shaped.

End Facts.

(** ** The properties on a sample driver *)

Lemma still_numerics_same_shape : SameShape still_numerics.
Proof. constructor; cbn; auto. Qed.

Lemma sample_driver_well_formed :
  well_formed (@initial still_numerics sample_parameters 1%positive).
Proof. apply initial_well_formed. Qed.

Lemma gusty_numerics_same_shape : SameShape gusty_numerics.
Proof. constructor; intros; cbn; rewrite ?length_map; auto. Qed.

(** C3 on a driver whose kernels write the edges, with a splat queued that
    covers the grid: the seeding has left velocity in the corner cell,
    which is on two edges; after three steps both normal components are
    zero on all four edges, while the cells inside still move. *)
Lemma no_through_after_every_step_witness :
  well_formed gusty_driver
  /\ u (get_fields gusty_driver) !! 0%nat = Some (0 + 1 * 1)
  /\ v (get_fields gusty_driver) !! 0%nat = Some (0 + 1 * 1)
  /\ no_through 4 (get_fields (Nat.iter 3 (@step gusty_numerics) gusty_driver))
  /\ (exists x,
        u (get_fields (Nat.iter 3 (@step gusty_numerics) gusty_driver)) !! 5%nat
        = Some x /\ ~ x == 0)
  /\ (exists y,
        v (get_fields (Nat.iter 3 (@step gusty_numerics) gusty_driver)) !! 5%nat
        = Some y /\ ~ y == 0).
Proof.
  assert (Hs : well_formed gusty_driver).
  { apply add_splat_well_formed. apply (@initial_well_formed gusty_numerics). }
  split; [ exact Hs | ]. split; [ reflexivity | ]. split; [ reflexivity | ].
  split.
  - apply (@no_through_after_every_step gusty_numerics gusty_numerics_same_shape
             gusty_driver 2).
    exact Hs.
  - split; eexists; (split; [ vm_compute; reflexivity | ]);
      intros H; vm_compute in H; discriminate.
Defined.

(** C5 on the sample driver: a splat far outside the domain and a splat of
    radius 0 on the centre of a cell. *)
Lemma noop_splat_witness :
  @step still_numerics
    (add_splat far_splat (@initial still_numerics sample_parameters 1%positive))
  = @step still_numerics (@initial still_numerics sample_parameters 1%positive)
  /\ @step still_numerics
       (add_splat point_splat (@initial still_numerics sample_parameters 1%positive))
     = @step still_numerics (@initial still_numerics sample_parameters 1%positive).
Proof.
  split.
  - apply (@noop_splat still_numerics still_numerics_same_shape).
    + exact sample_driver_well_formed.
    + right. reflexivity.
  - apply (@noop_splat still_numerics still_numerics_same_shape).
    + exact sample_driver_well_formed.
    + left. reflexivity.
Defined.

(** A splat inside the domain does change the dye of the sample driver. *)
Example central_splat_changes_dye :
  dye (@apply_splat still_numerics 4
         {| splat_x := 1 # 2; splat_y := 1 # 2; dye_amount := 1;
            splat_fx := 0; splat_fy := 0; radius := 1 # 4 |}
         {| dye := zeros 4; u := zeros 4; v := zeros 4 |})
  <> zeros 4.
Proof. vm_compute. discriminate. Qed.

End SolverFacts.

